(** * Molecule detector backend: image normalisation and request handling

    A shallow embedding of [src/backend/server.py] (the nine-step
    preprocessing pipeline, Otsu's threshold, the OSRA adapter and the
    request handler) and of [src/server.py] (the minimal preprocessing
    variant), together with the parts of Pillow and of CPython's float
    arithmetic that these functions call.

    Layout: definitions first (arithmetic, images, Pillow operations, the
    two server modules), then the lemmas and theorems about them. *)

From Stdlib Require Import ZArith QArith Qround Qabs Qpower List Lia Lqa Bool.
From Stdlib Require Import Ascii String.
From Stdlib Require Import Floats.SpecFloat.
From stdpp Require Import gmap strings.
Import ListNotations.

Local Open Scope Z_scope.

(** ** Python exceptions and results *)

(** The exception classes the modelled code can meet.  [KeyboardInterrupt]
    stands for the [BaseException]s that are not [Exception]s: an
    [except Exception] clause does not catch them. *)
Inductive exn : Type :=
| ZeroDivisionError
| ValueError
| OSError
| TimeoutExpired
| FileNotFoundError
| RuntimeError
| KeyboardInterrupt.

Definition is_Exception (e : exn) : bool :=
  match e with
  | KeyboardInterrupt => false
  | _ => true
  end.

Inductive result (A : Type) : Type :=
| Ok (a : A)
| Raise (e : exn).
Arguments Ok {A} a.
Arguments Raise {A} e.

Definition rbind {A B : Type} (r : result A) (k : A -> result B) : result B :=
  match r with
  | Ok a => k a
  | Raise e => Raise e
  end.

Notation "'let!' x ':=' r 'in' k" := (rbind r (fun x => k))
  (at level 10, x name, r at level 100, k at level 200).

(** ** Binary64 arithmetic

    Python's [float] is IEEE-754 binary64.  A finite float is represented
    by the rational it denotes; every operation is the exact operation
    followed by rounding to 53 significant bits, ties to even.  The
    exponent range is not bounded: overflow and subnormal numbers do not
    arise at the magnitudes of image sizes and pixel sums. *)
Module B64.

Definition prec : Z := 53.

(** [flog2 q] is the exponent [e] with [2^e <= q < 2^(e+1)], for [0 < q]. *)
Definition flog2 (q : Q) : Z :=
  let e := Z.log2 (Qnum q) - Z.log2 (Zpos (Qden q)) in
  if Qle_bool (2 ^ e) q then e else e - 1.

(** Round to the nearest integer, ties to even. *)
Definition rne (s : Q) : Z :=
  let f := Qfloor s in
  match Qcompare (s - inject_Z f) (1 # 2) with
  | Lt => f
  | Gt => f + 1
  | Eq => if Z.even f then f else f + 1
  end.

Definition round_pos (q : Q) : Q :=
  let c := flog2 q - (prec - 1) in
  (inject_Z (rne (q / 2 ^ c)) * 2 ^ c)%Q.

Definition rnd (q : Q) : Q :=
  match Qcompare q 0 with
  | Eq => 0%Q
  | Gt => Qred (round_pos (Qred q))
  | Lt => Qred (- round_pos (Qred (- q)))
  end.

(** [float(n)] *)
Definition of_int (n : Z) : Q := rnd (inject_Z n).

Definition add (a b : Q) : Q := rnd (a + b).
Definition sub (a b : Q) : Q := rnd (a - b).
Definition mul (a b : Q) : Q := rnd (a * b).
Definition div (a b : Q) : Q := rnd (a / b).

(** [int(x)] and C's [(int)x]: truncation towards zero. *)
Definition trunc (a : Q) : Z := Z.quot (Qnum a) (Zpos (Qden a)).

(** Python's [a / b] on two [int]s: the correctly rounded quotient. *)
Definition truediv (a b : Z) : result Q :=
  if b =? 0 then Raise ZeroDivisionError
  else Ok (rnd (inject_Z a / inject_Z b)).

(** Python's [n * x] with [n] an [int] and [x] a [float]. *)
Definition int_mul (n : Z) (x : Q) : Q := mul (of_int n) x.

(** [x ** 2] on a float: the correctly rounded square. *)
Definition sqr (x : Q) : Q := mul x x.

(** [M_PI], the binary64 number nearest to pi. *)
Definition M_PI : Q := 884279719003555 # 281474976710656.

(** The C library's [sin].  It is evaluated by its Taylor polynomial
    of degree 91 in fixed point with 192 fractional bits and then rounded
    to binary64; on the arguments met here (at most [3 * pi] in
    magnitude) the polynomial is within [2^-150] of the sine. *)
Definition fx_bits : Z := 192.

Fixpoint sin_terms (n : nat) (k : Z) (y2 term acc : Z) : Z :=
  match n with
  | O => acc
  | S n' =>
      let term' := - (Z.shiftr (term * y2) fx_bits) / ((2 * k + 2) * (2 * k + 3)) in
      sin_terms n' (k + 1) y2 term' (acc + term')
  end.

Definition sin (y : Q) : Q :=
  let yf := Qfloor (y * inject_Z (2 ^ fx_bits)) in
  let y2 := Z.shiftr (yf * yf) fx_bits in
  rnd (sin_terms 45 0 y2 yf yf # Pos.pow 2 192).

End B64.

(** Conversions used to compare [B64] with the Standard Library's
    specification of IEEE-754 arithmetic. *)
Definition SF2Q (f : spec_float) : Q :=
  match f with
  | S754_finite s m e =>
      Qred ((if s then -1 else 1) * inject_Z (Zpos m) * 2 ^ e)
  | _ => 0%Q
  end.

Definition Z2SF (n : Z) : spec_float :=
  match n with
  | Z0 => S754_zero false
  | _ => binary_normalize 53 1024 n 0 false
  end.

(** ** Images

    Pillow stores a mode [L] or [P] image as rows of bytes and an [RGB] or
    [RGBA] image as rows of four-byte pixels. *)

Inductive mode : Type := RGB | RGBA | P | L.

Definition rgb : Type := (Z * Z * Z)%type.
Definition rgba : Type := (Z * Z * Z * Z)%type.

(** A single-band image of bytes. *)
Record image8 : Type := Image8 {
  xsize : nat;
  ysize : nat;
  rows : list (list Z)
}.

Inductive Image : Type :=
| ImageL (im : image8)
| ImageP (im : image8) (palette : list rgba)
| ImageRGB (w h : nat) (px : list (list rgb))
| ImageRGBA (w h : nat) (px : list (list rgba)).

Definition image_mode (i : Image) : mode :=
  match i with
  | ImageL _ => L
  | ImageP _ _ => P
  | ImageRGB _ _ _ => RGB
  | ImageRGBA _ _ _ => RGBA
  end.

Definition image_size (i : Image) : nat * nat :=
  match i with
  | ImageL im | ImageP im _ => (xsize im, ysize im)
  | ImageRGB w h _ | ImageRGBA w h _ => (w, h)
  end.

Definition byte_ok (p : Z) : bool := (0 <=? p) && (p <=? 255).

Definition raster_ok {A : Type} (ok : A -> bool) (w h : nat) (px : list (list A)) : bool :=
  (length px =? h)%nat
  && forallb (fun r => (length r =? w)%nat && forallb ok r) px.

Definition image8_ok (im : image8) : bool :=
  raster_ok byte_ok (xsize im) (ysize im) (rows im).

Definition rgb_ok (c : rgb) : bool :=
  let '(r, g, b) := c in byte_ok r && byte_ok g && byte_ok b.

Definition rgba_ok (c : rgba) : bool :=
  let '(r, g, b, a) := c in byte_ok r && byte_ok g && byte_ok b && byte_ok a.

Definition image_ok (i : Image) : bool :=
  match i with
  | ImageL im => image8_ok im
  | ImageP im palette =>
      image8_ok im && (length palette =? 256)%nat && forallb rgba_ok palette
  | ImageRGB w h px => raster_ok rgb_ok w h px
  | ImageRGBA w h px => raster_ok rgba_ok w h px
  end.

(** Every pixel is pure black or pure white. *)
Definition is_binary (im : image8) : bool :=
  forallb (forallb (fun p => (p =? 0) || (p =? 255))) (rows im).

Definition getpixel (im : image8) (x y : nat) : option Z :=
  match nth_error (rows im) y with
  | Some r => nth_error r x
  | None => None
  end.

Definition clip8 (v : Z) : Z := Z.max 0 (Z.min 255 v).

(** Insertion sort, for the rank filter. *)
Fixpoint insert_sorted (a : Z) (l : list Z) : list Z :=
  match l with
  | [] => [a]
  | b :: l' => if a <=? b then a :: l else b :: insert_sorted a l'
  end.

Fixpoint sort (l : list Z) : list Z :=
  match l with
  | [] => []
  | a :: l' => insert_sorted a (sort l')
  end.

Definition sumZ (l : list Z) : Z := fold_right Z.add 0 l.

(** [range(n)] *)
Definition range (n : nat) : list Z := map Z.of_nat (seq 0 n).

(** ** Pillow

    The operations of Pillow that the servers call, on the image model
    above.  Each follows Pillow's C implementation for 8-bit images. *)
Module PIL.

(** *** [Image] *)

(** [Image.new(mode, size, color)] for a single band. *)
Definition new8 (w h : nat) (color : Z) : image8 :=
  Image8 w h (repeat (repeat color w) h).

(** [DIV255] and [BLEND8] of [ImagingUtils.h]. *)
Definition DIV255 (a : Z) : Z :=
  let tmp := a + 128 in Z.shiftr (Z.shiftr tmp 8 + tmp) 8.

Definition BLEND8 (mask in1 in2 : Z) : Z :=
  DIV255 (in1 * (255 - mask) + in2 * mask).

(** The pixels of an image as RGBA: what [convert('RGBA')] stores. *)
Definition lookup_palette (palette : list rgba) (i : Z) : rgba :=
  nth (Z.to_nat i) palette (0, 0, 0, 255).

Definition rgba_rows (i : Image) : list (list rgba) :=
  match i with
  | ImageL im => map (map (fun l => (l, l, l, 255))) (rows im)
  | ImageP im palette => map (map (lookup_palette palette)) (rows im)
  | ImageRGB _ _ px => map (map (fun '(r, g, b) => (r, g, b, 255))) px
  | ImageRGBA _ _ px => px
  end.

Definition convert_RGBA (i : Image) : Image :=
  let '(w, h) := image_size i in ImageRGBA w h (rgba_rows i).

Definition convert_RGB (i : Image) : Image :=
  let '(w, h) := image_size i in
  ImageRGB w h (map (map (fun '(r, g, b, _) => (r, g, b))) (rgba_rows i)).

(** [rgb2l] of [Convert.c]: ITU-R 601-2 luma in 16-bit fixed point. *)
Definition rgb2l (r g b : Z) : Z :=
  Z.shiftr (r * 19595 + g * 38470 + b * 7471 + 32768) 16.

Definition convert_L (i : Image) : image8 :=
  match i with
  | ImageL im => im
  | _ =>
      let '(w, h) := image_size i in
      Image8 w h (map (map (fun '(r, g, b, _) => rgb2l r g b)) (rgba_rows i))
  end.

(** [image.split()[3]] of an RGBA image: its alpha band. *)
Definition alpha_band (i : Image) : image8 :=
  let '(w, h) := image_size i in
  Image8 w h (map (map (fun '(_, _, _, a) => a)) (rgba_rows i)).

(** [background.paste(image, mask=mask)] on RGBA images of one size
    ([paste_mask_L] of [Paste.c]): all four bytes are blended. *)
Definition paste_pixel (out inp : rgba) (a : Z) : rgba :=
  let '(r1, g1, b1, a1) := out in
  let '(r2, g2, b2, a2) := inp in
  (BLEND8 a r1 r2, BLEND8 a g1 g2, BLEND8 a b1 b2, BLEND8 a a1 a2).

Definition paste_row (out inp : list rgba) (mask : list Z) : list rgba :=
  map (fun '(o, i, a) => paste_pixel o i a) (combine (combine out inp) mask).

Definition paste (background im : Image) (mask : image8) : Image :=
  let '(w, h) := image_size background in
  ImageRGBA w h
    (map (fun '(o, i, m) => paste_row o i m)
       (combine (combine (rgba_rows background) (rgba_rows im)) (rows mask))).

Definition new_RGBA (size : nat * nat) (color : rgba) : Image :=
  let '(w, h) := size in ImageRGBA w h (repeat (repeat color w) h).

(** [image.point(f, mode='L')] on a mode [L] image: the function is
    tabulated on [0..255] and every pixel is looked up in the table. *)
Definition point (f : Z -> Z) (im : image8) : image8 :=
  let lut := map f (range 256) in
  Image8 (xsize im) (ysize im)
    (map (map (fun p => nth (Z.to_nat p) lut 0)) (rows im)).

(** [image.histogram()] of a mode [L] image: 256 counts. *)
Definition count_value (v : Z) (l : list Z) : Z :=
  Z.of_nat (length (List.filter (Z.eqb v) l)).

Definition histogram (im : image8) : list Z :=
  map (fun v => count_value v (concat (rows im))) (range 256).

(** [image.crop((left, upper, right, lower))], for a box inside the
    image. *)
Definition crop (im : image8) (box : nat * nat * nat * nat) : image8 :=
  let '(x0, y0, x1, y1) := box in
  Image8 (x1 - x0) (y1 - y0)
    (map (fun r => firstn (x1 - x0) (skipn x0 r))
       (firstn (y1 - y0) (skipn y0 (rows im)))).

(** [Image.blend(im1, im2, alpha)] on mode [L] images ([Blend.c]).  The
    products are exact for the factor used here (1.5). *)
Definition blend_pixel (alpha : Q) (in1 in2 : Z) : Z :=
  let temp := (inject_Z in1 + alpha * (inject_Z in2 - inject_Z in1))%Q in
  if Qle_bool 0 alpha && Qle_bool alpha 1 then B64.trunc temp
  else if Qle_bool temp 0 then 0
  else if Qle_bool 255 temp then 255
  else B64.trunc temp.

Definition blend (im1 im2 : image8) (alpha : Q) : image8 :=
  if Qeq_bool alpha 0 then im1
  else if Qeq_bool alpha 1 then im2
  else
    Image8 (xsize im1) (ysize im1)
      (map (fun '(r1, r2) =>
              map (fun '(p1, p2) => blend_pixel alpha p1 p2) (combine r1 r2))
         (combine (rows im1) (rows im2))).

(** *** [ImageStat] *)

(** [ImageStat.Stat(image).mean[0]]: the float sum of [j * h[j]] over
    the histogram, divided by the pixel count; 0 for an image without
    pixels. *)
Definition stat_count (im : image8) : Z := sumZ (histogram im).

Definition stat_sum (im : image8) : Q :=
  fold_left (fun acc '(j, hj) => B64.add acc (B64.of_int (j * hj)))
    (combine (range 256) (histogram im)) 0%Q.

Definition stat_mean (im : image8) : result Q :=
  if stat_count im =? 0 then Ok 0%Q
  else Ok (B64.div (stat_sum im) (B64.of_int (stat_count im))).

(** *** [ImageOps] *)

(** [ImageOps.invert(image)] *)
Definition invert (im : image8) : image8 := point (fun p => 255 - p) im.

(** [ImageOps.expand(image, border, fill)]: a new image filled with
    [fill], the image pasted at [(border, border)]. *)
Definition expand (im : image8) (border : nat) (fill : Z) : image8 :=
  let w := (xsize im + 2 * border)%nat in
  let h := (ysize im + 2 * border)%nat in
  let margin := repeat (repeat fill w) border in
  Image8 w h
    (margin
     ++ map (fun r => repeat fill border ++ r ++ repeat fill border) (rows im)
     ++ margin).

(** *** [ImageEnhance] *)

(** [ImageEnhance.Contrast(image)]: the degenerate image is uniform, at
    the image's mean luminance rounded to the nearest integer. *)
Definition contrast_mean (im : image8) : result Z :=
  let! m := stat_mean im in
  Ok (B64.trunc (B64.add m (1 # 2))).

(** [ImageEnhance.Contrast(image).enhance(factor)] *)
Definition contrast_enhance (im : image8) (factor : Q) : result image8 :=
  let! mean := contrast_mean im in
  let degenerate := new8 (xsize im) (ysize im) mean in
  Ok (blend degenerate im factor).

(** *** [ImageFilter] *)

(** [ImagingExpand] of [Filter.c]: the margin replicates the edge
    pixels. *)
Definition expand_edge_row (margin : nat) (r : list Z) : list Z :=
  repeat (hd 0 r) margin ++ r ++ repeat (List.last r 0) margin.

Definition expand_edge (margin : nat) (px : list (list Z)) : list (list Z) :=
  let px' := map (expand_edge_row margin) px in
  repeat (hd [] px') margin ++ px' ++ repeat (List.last px' []) margin.

(** The windows of three consecutive elements. *)
Fixpoint windows3 {A : Type} (l : list A) : list (A * A * A) :=
  match l with
  | a :: l' =>
      match l' with
      | b :: c :: _ => (a, b, c) :: windows3 l'
      | _ => []
      end
  | [] => []
  end.

(** [ImagingRankFilter] with a 3x3 window: the element of the given
    rank among the nine values of the window. *)
Definition rank_window (rank : nat) (w : (Z * Z * Z) * (Z * Z * Z) * (Z * Z * Z)) : Z :=
  let '((a0, a1, a2), (b0, b1, b2), (c0, c1, c2)) := w in
  nth rank (sort [a0; a1; a2; b0; b1; b2; c0; c1; c2]) 0.

Definition rank_rows (rank : nat) (rs : list Z * list Z * list Z) : list Z :=
  let '(r0, r1, r2) := rs in
  map (rank_window rank)
    (combine (combine (windows3 r0) (windows3 r1)) (windows3 r2)).

Definition rankfilter3 (rank : nat) (px : list (list Z)) : list (list Z) :=
  map (rank_rows rank) (windows3 px).

(** [image.filter(ImageFilter.MedianFilter(size=3))]: expand by
    [size // 2], then the rank filter with rank [size * size // 2]. *)
Definition median_filter3 (im : image8) : image8 :=
  Image8 (xsize im) (ysize im) (rankfilter3 4 (expand_edge 1 (rows im))).

(** *** Resampling ([Resample.c])

    [image.resize(size, Image.LANCZOS)] on a mode [L] image: the
    coefficients are computed in binary64, normalised, converted to
    fixed point with 22 fractional bits, and applied in a horizontal
    and then a vertical pass, each rounding its result to a byte. *)

Definition PRECISION_BITS : Z := 32 - 8 - 2.

Definition sinc_filter (x : Q) : Q :=
  if Qeq_bool x 0 then 1%Q
  else
    let x := B64.mul x B64.M_PI in
    B64.div (B64.sin x) x.

Definition lanczos_filter (x : Q) : Q :=
  if Qle_bool (-3) x && negb (Qle_bool 3 x)
  then B64.mul (sinc_filter x) (sinc_filter (B64.div x 3))
  else 0%Q.

Definition lanczos_support : Q := 3.

(** [precompute_coeffs] for the output index [xx]: the first input
    index used and the normalised coefficients. *)
Definition precompute_coeffs (inSize outSize : nat) (xx : nat) : Z * list Q :=
  let scale := B64.div (inject_Z (Z.of_nat inSize)) (inject_Z (Z.of_nat outSize)) in
  let filterscale := if Qle_bool 1 scale then scale else 1%Q in
  let support := B64.mul lanczos_support filterscale in
  let center := B64.mul (inject_Z (Z.of_nat xx) + (1 # 2)) scale in
  let ss := B64.div 1 filterscale in
  let xmin := Z.max 0 (B64.trunc (B64.add (B64.sub center support) (1 # 2))) in
  let xmax :=
    Z.min (Z.of_nat inSize) (B64.trunc (B64.add (B64.add center support) (1 # 2))) in
  let w :=
    map (fun x =>
           lanczos_filter
             (B64.mul (B64.add (B64.sub (inject_Z (x + xmin)) center) (1 # 2)) ss))
      (range (Z.to_nat (xmax - xmin))) in
  let ww := fold_left B64.add w 0%Q in
  (xmin, if Qeq_bool ww 0 then w else map (fun k => B64.div k ww) w).

(** [normalize_coeffs_8bpc] *)
Definition normalize_coeff_8bpc (k : Q) : Z :=
  let v := B64.mul k (inject_Z (2 ^ PRECISION_BITS)) in
  if Qle_bool 0 k then B64.trunc (B64.add (1 # 2) v)
  else B64.trunc (B64.add (- (1 # 2)) v).

Definition coeff_8bpc (inSize outSize : nat) (xx : nat) : Z * list Z :=
  let '(xmin, k) := precompute_coeffs inSize outSize xx in
  (xmin, map normalize_coeff_8bpc k).

Definition coeffs_8bpc (inSize outSize : nat) : list (Z * list Z) :=
  map (coeff_8bpc inSize outSize) (seq 0 outSize).

Definition clip8_fixed (ss : Z) : Z := clip8 (Z.shiftr ss PRECISION_BITS).

(** One output pixel: the rounded, clipped sum of the input pixels from
    [xmin] on, weighted by the coefficients. *)
Definition resample_pixel (c : Z * list Z) (line : list Z) : Z :=
  let '(xmin, k) := c in
  clip8_fixed
    (fold_left (fun ss '(p, kx) => ss + p * kx)
       (combine (skipn (Z.to_nat xmin) line) k)
       (2 ^ (PRECISION_BITS - 1))).

(** [ImagingResampleHorizontal_8bpc] on one line. *)
Definition resample_line (coeffs : list (Z * list Z)) (line : list Z) : list Z :=
  map (fun c => resample_pixel c line) coeffs.

(** The pixels [image8[y][xx]] for all [y]. *)
Definition column (xx : nat) (px : list (list Z)) : list Z :=
  map (fun r => nth xx r 0) px.

(** [ImagingResampleVertical_8bpc]: the same sum, down each column. *)
Definition resample_vertical (coeffs : list (Z * list Z)) (w : nat)
    (px : list (list Z)) : list (list Z) :=
  map (fun c => map (fun xx => resample_pixel c (column xx px)) (seq 0 w)) coeffs.

(** [ImagingResample]: the horizontal pass, then the vertical pass,
    each only when that dimension changes. *)
Definition ImagingResample (im : image8) (w h : nat) : image8 :=
  let temp :=
    if (w =? xsize im)%nat then rows im
    else map (resample_line (coeffs_8bpc (xsize im) w)) (rows im) in
  let out :=
    if (h =? ysize im)%nat then temp
    else resample_vertical (coeffs_8bpc (ysize im) h) w temp in
  Image8 w h out.

(** [image.resize(size, Image.LANCZOS)]: a copy when the size does not
    change; [ValueError] when a requested dimension is below 1. *)
Definition resize (im : image8) (size : Z * Z) : result image8 :=
  let '(w, h) := size in
  if (w =? Z.of_nat (xsize im)) && (h =? Z.of_nat (ysize im)) then Ok im
  else if (w <? 1) || (h <? 1) then Raise ValueError
  else Ok (ImagingResample im (Z.to_nat w) (Z.to_nat h)).

End PIL.

(** ** Python strings

    A [str] that the engine prints is a sequence of Unicode code points;
    the literals of the program are ASCII. *)
Definition text : Type := list N.

Module Str.

(** The code points of an ASCII literal. *)
Definition of_ascii (s : string) : text := map N_of_ascii (list_ascii_of_string s).

(** [c.isspace()], which [strip()] and [split()] use: the characters
    9 to 13, 28 to 32, U+0085, U+00A0, U+1680, U+2000 to U+200A, U+2028,
    U+2029, U+202F, U+205F and U+3000. *)
Definition isspace (c : N) : bool :=
  ((9 <=? c) && (c <=? 13) || (28 <=? c) && (c <=? 32)
   || (c =? 133) || (c =? 160) || (c =? 5760)
   || (8192 <=? c) && (c <=? 8202)
   || (c =? 8232) || (c =? 8233) || (c =? 8239) || (c =? 8287) || (c =? 12288))%N.

Fixpoint lstrip (s : text) : text :=
  match s with
  | c :: s' => if isspace c then lstrip s' else s
  | [] => []
  end.

(** [s.strip()] *)
Definition strip (s : text) : text := rev (lstrip (rev (lstrip s))).

(** [s.split()]: the maximal runs of characters that are not
    whitespace.  [word] holds the current run, reversed. *)
Fixpoint split_aux (s : text) (word : text) : list text :=
  match s with
  | [] =>
      match word with
      | [] => []
      | _ => [rev word]
      end
  | c :: s' =>
      if isspace c then
        match word with
        | [] => split_aux s' []
        | _ => rev word :: split_aux s' []
        end
      else split_aux s' (c :: word)
  end.

Definition split (s : text) : list text := split_aux s [].

(** Truth value of a string: non-empty. *)
Definition truthy (s : text) : bool :=
  match s with
  | [] => false
  | _ => true
  end.

End Str.

(** An ASCII literal where a [str] is expected. *)
Coercion Str.of_ascii : string >-> text.

(** ** The environment of a request

    The file system is the set of paths that exist; [spawned] logs the
    command lines handed to [subprocess.run], most recent first. *)

Definition path : Type := string.

Record world : Type := World {
  fs : gset path;
  spawned : list (list string)
}.

(** [subprocess.CompletedProcess] *)
Record CompletedProcess : Type := Completed {
  returncode : Z;
  stdout : text;
  stderr : text
}.

(** What the servers do not implement: the external engine (which may
    finish, fail to start, time out or raise, and may change the file
    system), the image decoder, the PNG encoder and the choice of
    temporary file names.

    [Image_open] stands for [Image.open] together with the reading of the
    pixel data.  Pillow reads the data on the first operation that needs
    it: a failure inside [preprocess_image] is a failure of [Image_open]
    here, a failure inside [image.save] one of [save_image]. *)
Record env : Type := Env {
  run_process : list string -> gset path -> result CompletedProcess * gset path;
  Image_open : string -> result Image;
  save_image : Image -> path -> result unit;
  temp_name : gset path -> path
}.

(** Computations that read and change the world and may raise. *)
Definition io (A : Type) : Type := world -> result A * world.

Definition ret {A : Type} (a : A) : io A := fun w => (Ok a, w).

Definition raise {A : Type} (e : exn) : io A := fun w => (Raise e, w).

Definition lift {A : Type} (r : result A) : io A := fun w => (r, w).

Definition bind {A B : Type} (m : io A) (k : A -> io B) : io B :=
  fun w =>
    match m w with
    | (Ok a, w') => k a w'
    | (Raise e, w') => (Raise e, w')
    end.

Notation "'do!' x '<-' m ';' k" := (bind m (fun x => k))
  (at level 10, x name, m at level 100, k at level 200).

(** [try: body / except <classes>: handler]: [handler e] is [None] when
    no clause matches [e]. *)
Definition try_except {A : Type} (body : io A) (handler : exn -> option (io A)) : io A :=
  fun w =>
    match body w with
    | (Ok a, w') => (Ok a, w')
    | (Raise e, w') =>
        match handler e with
        | Some h => h w'
        | None => (Raise e, w')
        end
    end.

(** [try: body / finally: cleanup]: the cleanup runs on every exit; an
    exception it raises replaces the outcome of the body. *)
Definition try_finally {A : Type} (body : io A) (cleanup : io unit) : io A :=
  fun w =>
    let '(r, w') := body w in
    match cleanup w' with
    | (Ok _, w'') => (r, w'')
    | (Raise e, w'') => (Raise e, w'')
    end.

(** [subprocess.run(argv, capture_output=True, text=True, timeout=...)] *)
Definition subprocess_run (E : env) (argv : list string) : io CompletedProcess :=
  fun w =>
    let '(r, fs') := run_process E argv (fs w) in
    (r, World fs' (argv :: spawned w)).

(** [tempfile.NamedTemporaryFile(suffix='.png', delete=False)]: the file
    is created and stays. *)
Definition NamedTemporaryFile (E : env) : io path :=
  fun w =>
    let name := temp_name E (fs w) in
    (Ok name, World ({[ name ]} ∪ fs w) (spawned w)).

(** [image.save(temp_path, 'PNG')]: the file is written, or the encoder
    raises and the world stays as it is. *)
Definition Image_save (E : env) (image : Image) (temp_path : path) : io unit :=
  fun w =>
    match save_image E image temp_path with
    | Ok _ => (Ok tt, World ({[ temp_path ]} ∪ fs w) (spawned w))
    | Raise e => (Raise e, w)
    end.

(** [os.path.exists] and [os.unlink] *)
Definition os_path_exists (p : path) : io bool :=
  fun w => (Ok (bool_decide (p ∈ fs w)), w).

Definition os_unlink (p : path) : io unit :=
  fun w =>
    if bool_decide (p ∈ fs w) then (Ok tt, World (fs w ∖ {[ p ]}) (spawned w))
    else (Raise FileNotFoundError, w).

(** JSON values and Flask responses. *)
Inductive json : Type :=
| JBool (b : bool)
| JStr (s : text).

Record response : Type := Response {
  body : list (string * json);
  status : Z
}.

Definition jsonify (fields : list (string * json)) (code : Z) : response :=
  Response fields code.

(** [str(e)] *)
Definition exn_str (e : exn) : string :=
  match e with
  | ZeroDivisionError => "division by zero"
  | ValueError => "height and width must be > 0"
  | OSError => "cannot identify image file"
  | TimeoutExpired => "Command timed out"
  | FileNotFoundError => "No such file or directory"
  | RuntimeError => "runtime error"
  | KeyboardInterrupt => EmptyString
  end.

(** [request.files] *)
Record request : Type := Request {
  files : gmap string string
}.

(** ** [src/backend/server.py] *)
Module Backend.

(** *** [recognize_molecule_with_osra]

    The [print] calls write to the server's console, which nothing
    here observes; they are left out. *)
Definition osra_argv (image_path : path) : list string :=
  ["osra"; "-f"; "smi"; image_path].

Definition parse_osra (result : CompletedProcess) : option text :=
  if returncode result =? 0 then
    let smiles := Str.strip (stdout result) in
    if Str.truthy smiles then
      let smiles_parts := Str.split smiles in
      match smiles_parts with
      | part :: _ => Some part
      | [] => None
      end
    else None
  else None.

Definition recognize_molecule_with_osra (E : env) (image_path : path)
    : io (option text) :=
  try_except
    (do! result <- subprocess_run E (osra_argv image_path);
     ret (parse_osra result))
    (fun e =>
       match e with
       | TimeoutExpired => Some (ret None)
       | FileNotFoundError => Some (ret None)
       | _ => if is_Exception e then Some (ret None) else None
       end).

(** *** [_otsu_threshold] *)

Record otsu_state : Type := OtsuState {
  best_threshold : Z;
  best_variance : Q;
  weight_bg : Z;
  sum_bg : Z
}.

(** The score of one threshold, computed after both guards: neither
    weight is zero, so neither division raises. *)
Definition otsu_variance (total_pixels total_sum weight_bg sum_bg : Z) : Q :=
  let weight_fg := total_pixels - weight_bg in
  let mean_bg := B64.rnd (inject_Z sum_bg / inject_Z weight_bg) in
  let mean_fg := B64.rnd (inject_Z (total_sum - sum_bg) / inject_Z weight_fg) in
  B64.int_mul (weight_bg * weight_fg) (B64.sqr (B64.sub mean_bg mean_fg)).

(** The loop [for t in range(256)], on the thresholds still to visit. *)
Fixpoint otsu_loop (histogram : list Z) (total_pixels total_sum : Z)
    (ts : list Z) (st : otsu_state) : otsu_state :=
  match ts with
  | [] => st
  | t :: ts' =>
      let weight_bg := weight_bg st + nth (Z.to_nat t) histogram 0 in
      if weight_bg =? 0 then
        (* continue *)
        otsu_loop histogram total_pixels total_sum ts'
          (OtsuState (best_threshold st) (best_variance st) weight_bg (sum_bg st))
      else
        let weight_fg := total_pixels - weight_bg in
        if weight_fg =? 0 then
          (* break *)
          OtsuState (best_threshold st) (best_variance st) weight_bg (sum_bg st)
        else
          let sum_bg := sum_bg st + t * nth (Z.to_nat t) histogram 0 in
          let variance := otsu_variance total_pixels total_sum weight_bg sum_bg in
          if negb (Qle_bool variance (best_variance st)) then
            otsu_loop histogram total_pixels total_sum ts'
              (OtsuState t variance weight_bg sum_bg)
          else
            otsu_loop histogram total_pixels total_sum ts'
              (OtsuState (best_threshold st) (best_variance st) weight_bg sum_bg)
  end.

(** The threshold chosen for a histogram and a pixel count. *)
Definition otsu_of_histogram (histogram : list Z) (total_pixels : Z) : Z :=
  let total_sum :=
    sumZ (map (fun i => i * nth (Z.to_nat i) histogram 0) (range 256)) in
  best_threshold
    (otsu_loop histogram total_pixels total_sum (range 256)
       (OtsuState 128 0 0 0)).

Definition _otsu_threshold (image : image8) : Z :=
  let histogram := PIL.histogram image in
  let total_pixels := Z.of_nat (xsize image) * Z.of_nat (ysize image) in
  otsu_of_histogram histogram total_pixels.

(** *** [preprocess_image], step by step *)

(** Step 1: flatten transparency onto a white background. *)
Definition flatten_on_white (image : Image) : Image :=
  let background := PIL.new_RGBA (image_size image) (255, 255, 255, 255) in
  let background := PIL.paste background image (PIL.alpha_band image) in
  PIL.convert_RGB background.

Definition step1 (image : Image) : Image :=
  match image_mode image with
  | RGBA => flatten_on_white image
  | P => flatten_on_white (PIL.convert_RGBA image)
  | RGB => image
  | L => PIL.convert_RGB image
  end.

(** Step 2: convert to grayscale. *)
Definition step2 (image : Image) : image8 := PIL.convert_L image.

(** Step 3: invert a dark image. *)
Definition step3 (image : image8) : result image8 :=
  let! mean_val := PIL.stat_mean image in
  if negb (Qle_bool 128 mean_val) then Ok (PIL.invert image) else Ok image.

(** Step 4: push everything lighter than 160 to white. *)
Definition step4 (image : image8) : image8 :=
  PIL.point (fun p => if p >? 160 then 255 else p) image.

(** Step 5: contrast enhancement by 1.5. *)
Definition step5 (image : image8) : result image8 :=
  PIL.contrast_enhance image (3 # 2).

(** Step 6: binary thresholding with Otsu's threshold. *)
Definition step6 (image : image8) : image8 :=
  let threshold := _otsu_threshold image in
  PIL.point (fun p => if p >? threshold then 255 else 0) image.

(** Step 7: median filter of size 3. *)
Definition step7 (image : image8) : image8 := PIL.median_filter3 image.

(** Step 8: crop 3 pixels off each edge when both dimensions exceed
    16, then add a white border of 15 pixels. *)
Definition step8 (image : image8) : image8 :=
  let w := xsize image in
  let h := ysize image in
  let border_crop := 3%nat in
  let image :=
    if ((2 * border_crop + 10 <? w) && (2 * border_crop + 10 <? h))%nat
    then PIL.crop image (border_crop, border_crop, w - border_crop, h - border_crop)%nat
    else image in
  PIL.expand image 15 255.

(** Step 9: resolution normalisation. *)
Definition step9 (image : image8) : result image8 :=
  let w := Z.of_nat (xsize image) in
  let h := Z.of_nat (ysize image) in
  let min_dim := Z.min w h in
  let max_dim := Z.max w h in
  let! resized :=
    (if min_dim <? 400 then
       let! scale := B64.truediv 400 min_dim in
       let! image :=
         PIL.resize image
           (B64.trunc (B64.int_mul w scale), B64.trunc (B64.int_mul h scale)) in
       let w := Z.of_nat (xsize image) in
       let h := Z.of_nat (ysize image) in
       Ok (image, w, h, Z.max w h)
     else Ok (image, w, h, max_dim)) in
  let '(image, w, h, max_dim) := resized in
  if max_dim >? 1500 then
    let! scale := B64.truediv 1500 max_dim in
    PIL.resize image
      (B64.trunc (B64.int_mul w scale), B64.trunc (B64.int_mul h scale))
  else Ok image.

(** Steps 1 to 8: the image that enters step 9. *)
Definition steps1_8 (image : Image) : result image8 :=
  let image := step1 image in
  let image := step2 image in
  let! image := step3 image in
  let image := step4 image in
  let! image := step5 image in
  let image := step6 image in
  let image := step7 image in
  Ok (step8 image).

Definition preprocess_image (image : Image) : result Image :=
  let! image := steps1_8 image in
  let! image := step9 image in
  Ok (ImageL image).

(** *** [analyze_molecule] *)

Definition not_recognized : string :=
  "Could not recognize molecular structure. Make sure the image contains a clear chemical structure diagram.".

(** The body of the inner [try]: run the engine and build the
    response. *)
Definition recognize_and_respond (E : env) (temp_path : path) : io response :=
  do! smiles <- recognize_molecule_with_osra E temp_path;
  match smiles with
  | Some smiles =>
      if Str.truthy smiles then
        ret (jsonify [("success", JBool true); ("smiles", JStr smiles)] 200)
      else
        ret (jsonify [("success", JBool false); ("error", JStr not_recognized)] 200)
  | None =>
      ret (jsonify [("success", JBool false); ("error", JStr not_recognized)] 200)
  end.

(** The [finally] clause: remove the temporary file if it exists. *)
Definition remove_temp_file (temp_path : path) : io unit :=
  do! present <- os_path_exists temp_path;
  if (present : bool) then os_unlink temp_path else ret tt.

Definition analyze_molecule (E : env) (request : request) : io response :=
  try_except
    (match files request !! "image" with
     | None => ret (jsonify [("error", JStr "No image provided")] 400)
     | Some image_file =>
         do! image <- lift (Image_open E image_file);
         do! image <- lift (preprocess_image image);
         do! temp_path <- NamedTemporaryFile E;
         do! saved <- Image_save E image temp_path;
         try_finally (recognize_and_respond E temp_path) (remove_temp_file temp_path)
     end)
    (fun e =>
       if is_Exception e
       then Some (ret (jsonify [("error", JStr (exn_str e))] 500))
       else None).

(** *** [health]

    The bare [except:] catches every exception, also one that is not an
    [Exception]; [osra_available] then keeps its initial value. *)
Definition health (E : env) : io response :=
  do! osra_available <-
    try_except
      (do! result <- subprocess_run E ["osra"; "--version"];
       ret (returncode result =? 0))
      (fun e => Some (ret false));
  ret (jsonify
         [("status", JStr "ok");
          ("message", JStr "Molecule detector backend is running");
          ("osra_available", JBool osra_available)]
         200).

End Backend.

(** ** [src/server.py]: the minimal preprocessing variant *)
Module Minimal.

Definition preprocess_image (image : Image) : Image :=
  match image_mode image with
  | RGB => image
  | _ => PIL.convert_RGB image
  end.

(** *** [recognize_molecule_with_osra], as in the full server *)
Definition osra_argv (image_path : path) : list string :=
  ["osra"; "-f"; "smi"; image_path].

Definition parse_osra (result : CompletedProcess) : option text :=
  if returncode result =? 0 then
    let smiles := Str.strip (stdout result) in
    if Str.truthy smiles then
      let smiles_parts := Str.split smiles in
      match smiles_parts with
      | part :: _ => Some part
      | [] => None
      end
    else None
  else None.

Definition recognize_molecule_with_osra (E : env) (image_path : path)
    : io (option text) :=
  try_except
    (do! result <- subprocess_run E (osra_argv image_path);
     ret (parse_osra result))
    (fun e =>
       match e with
       | TimeoutExpired => Some (ret None)
       | FileNotFoundError => Some (ret None)
       | _ => if is_Exception e then Some (ret None) else None
       end).

(** *** [analyze_molecule] *)

Definition not_recognized : string :=
  "Could not recognize molecular structure. Make sure the image contains a clear chemical structure diagram.".

(** The body of the inner [try] and the [finally] clause. *)
Definition recognize_and_respond (E : env) (temp_path : path) : io response :=
  do! smiles <- recognize_molecule_with_osra E temp_path;
  match smiles with
  | Some smiles =>
      if Str.truthy smiles then
        ret (jsonify [("success", JBool true); ("smiles", JStr smiles)] 200)
      else
        ret (jsonify [("success", JBool false); ("error", JStr not_recognized)] 200)
  | None =>
      ret (jsonify [("success", JBool false); ("error", JStr not_recognized)] 200)
  end.

Definition remove_temp_file (temp_path : path) : io unit :=
  do! present <- os_path_exists temp_path;
  if (present : bool) then os_unlink temp_path else ret tt.

Definition analyze_molecule (E : env) (request : request) : io response :=
  try_except
    (match files request !! "image" with
     | None => ret (jsonify [("error", JStr "No image provided")] 400)
     | Some image_file =>
         do! image <- lift (Image_open E image_file);
         let image := preprocess_image image in
         do! temp_path <- NamedTemporaryFile E;
         do! saved <- Image_save E image temp_path;
         try_finally (recognize_and_respond E temp_path) (remove_temp_file temp_path)
     end)
    (fun e =>
       if is_Exception e
       then Some (ret (jsonify [("error", JStr (exn_str e))] 500))
       else None).

(** *** [health] *)
Definition health (E : env) : io response :=
  do! osra_available <-
    try_except
      (do! result <- subprocess_run E ["osra"; "--version"];
       ret (returncode result =? 0))
      (fun e => Some (ret false));
  ret (jsonify
         [("status", JStr "ok");
          ("message", JStr "Molecule detector backend is running");
          ("osra_available", JBool osra_available)]
         200).

End Minimal.

(** ** Vocabulary of the threshold claims *)

(** The number of pixels, and the sum of the pixel values, in the
    histogram buckets below [k]. *)
Definition weight_below (histogram : list Z) (k : nat) : Z :=
  sumZ (map (fun i => nth i histogram 0) (seq 0 k)).

Definition sum_below (histogram : list Z) (k : nat) : Z :=
  sumZ (map (fun i => Z.of_nat i * nth i histogram 0) (seq 0 k)).

(** A histogram of an image with [total_pixels] pixels. *)
Definition histogram_ok (histogram : list Z) (total_pixels : Z) : Prop :=
  length histogram = 256%nat
  /\ Forall (fun c => 0 <= c) histogram
  /\ weight_below histogram 256 = total_pixels.

(** The threshold [t] splits the pixels into two non-empty classes: the
    background (at most [t]) and the foreground (above [t]). *)
Definition splits (histogram : list Z) (total_pixels t : Z) : Prop :=
  0 <= t <= 255
  /\ 0 < weight_below histogram (Z.to_nat t + 1)
  /\ weight_below histogram (Z.to_nat t + 1) < total_pixels.

(** The between-class variance that the loop computes for [t]. *)
Definition score (histogram : list Z) (total_pixels t : Z) : Q :=
  Backend.otsu_variance total_pixels (sum_below histogram 256)
    (weight_below histogram (Z.to_nat t + 1))
    (sum_below histogram (Z.to_nat t + 1)).


(** All pixels have the value [a] or the value [b], and both occur. *)
Definition two_valued (im : image8) (a b : Z) : bool :=
  forallb (forallb (fun p => (p =? a) || (p =? b))) (rows im)
  && existsb (existsb (Z.eqb a)) (rows im)
  && existsb (existsb (Z.eqb b)) (rows im).

(** What the loop has established when it stops, for the thresholds from
    [i0] on: either the incumbent survives and no later split scores
    above it, or the result is the first split that attains the maximum
    over the splits from [i0] on, and it beats the incumbent. *)
Definition loop_post (h : list Z) (total : Z) (i0 : nat)
    (st r : Backend.otsu_state) : Prop :=
  (Backend.best_threshold r = Backend.best_threshold st
   /\ Backend.best_variance r = Backend.best_variance st
   /\ forall t, Z.of_nat i0 <= t -> splits h total t ->
        (score h total t <= Backend.best_variance st)%Q)
  \/
  (Z.of_nat i0 <= Backend.best_threshold r
   /\ splits h total (Backend.best_threshold r)
   /\ Backend.best_variance r = score h total (Backend.best_threshold r)
   /\ (Backend.best_variance st < score h total (Backend.best_threshold r))%Q
   /\ (forall t, Z.of_nat i0 <= t < Backend.best_threshold r -> splits h total t ->
         (score h total t < score h total (Backend.best_threshold r))%Q)
   /\ (forall t, Z.of_nat i0 <= t -> splits h total t ->
         (score h total t <= score h total (Backend.best_threshold r))%Q)).


(** ** Vocabulary of the resolution claims *)

(** The size arithmetic of step 9 on its own: [resize_size] is what
    [PIL.resize] does to the size, [step9_size] what [Backend.step9] does
    to it. *)
Definition resize_size (current size : Z * Z) : result (Z * Z) :=
  let '(w0, h0) := current in
  let '(w, h) := size in
  if (w =? w0) && (h =? h0) then Ok (w0, h0)
  else if (w <? 1) || (h <? 1) then Raise ValueError
  else Ok (w, h).

Definition step9_size (w h : Z) : result (Z * Z) :=
  let min_dim := Z.min w h in
  let max_dim := Z.max w h in
  let! resized :=
    (if min_dim <? 400 then
       let! scale := B64.truediv 400 min_dim in
       let! size :=
         resize_size (w, h)
           (B64.trunc (B64.int_mul w scale), B64.trunc (B64.int_mul h scale)) in
       Ok (size, Z.max (fst size) (snd size))
     else Ok ((w, h), max_dim)) in
  let '((w, h), max_dim) := resized in
  if max_dim >? 1500 then
    let! scale := B64.truediv 1500 max_dim in
    resize_size (w, h)
      (B64.trunc (B64.int_mul w scale), B64.trunc (B64.int_mul h scale))
  else Ok (w, h).

(** The size that one resize of step 9 asks for, [(int(w * scale),
    int(h * scale))] with [scale = target / dim]: the quotient is the
    binary64 one and each product is truncated. *)
Definition scaled_size (target dim : Z) (size : Z * Z) : Z * Z :=
  let scale := B64.rnd (inject_Z target / inject_Z dim) in
  (B64.trunc (B64.int_mul (fst size) scale),
   B64.trunc (B64.int_mul (snd size) scale)).

(** The sizes [(w, h)] and [(h, w)] for [h] in [lo, lo + n). *)
Definition sizes_with (w lo : Z) (n : nat) : list (Z * Z) :=
  flat_map (fun i => [(w, lo + Z.of_nat i); (lo + Z.of_nat i, w)]) (seq 0 n).

(** ** Vocabulary of the contrast claim *)

(** The deviation of [p] from [m] scaled by 1.5, rounded down and clamped
    to a byte. *)
Definition contrast_formula (m p : Z) : Z :=
  clip8 (Qfloor (inject_Z m + (3 # 2) * (inject_Z p - inject_Z m))).

(** Two results agree on the size: both raise the same exception, or
    the image has the computed size. *)
Definition size_agrees (r : result image8) (s : result (Z * Z)) : Prop :=
  match r, s with
  | Ok out, Ok (w, h) => Z.of_nat (xsize out) = w /\ Z.of_nat (ysize out) = h
  | Raise e, Raise e' => e = e'
  | _, _ => False
  end.

(** ** Vocabulary of the binary-output claim *)

(** A pixel that is pure black or pure white. *)
Definition bw (p : Z) : Prop := p = 0 \/ p = 255.

(** Inputs used to exercise the pipeline: a 2 x 2 image with a white and
    a black column, and what steps 1 to 8 make of it. *)
Definition two_columns : Image := ImageL (Image8 2 2 [[255; 0]; [255; 0]]).

Definition two_columns_padded : image8 :=
  PIL.expand (Image8 2 2 [[0; 255]; [0; 255]]) 15 255.

(** A mostly white row with one dark pixel: the image that steps 1 to 4
    hand to step 5 when it is the input. *)
Definition one_dark_pixel : image8 := Image8 4 1 [[255; 255; 255; 100]].

(** An RGB image with a white and a black column. *)
Definition two_columns_rgb : Image :=
  ImageRGB 2 2 [[(255, 255, 255); (0, 0, 0)]; [(255, 255, 255); (0, 0, 0)]].

(** ** Vocabulary of the handler claims *)

(** The ways the engine invocation fails: it raises (a timeout, a
    missing executable, any other [Exception]), exits with a non-zero
    status, or prints nothing. *)
Definition engine_failed (r : result CompletedProcess) : Prop :=
  match r with
  | Raise e => is_Exception e = true
  | Ok result => returncode result <> 0 \/ stdout result = []
  end.

(** The body sent when nothing is recognized. *)
Definition failure_body : list (string * json) :=
  [("success", JBool false); ("error", JStr Backend.not_recognized)].

(** An environment in which the engine is not installed, and a request
    that carries an image. *)
Definition no_engine : env :=
  Env (fun _ files => (Raise FileNotFoundError, files))
      (fun _ => Ok two_columns)
      (fun _ _ => Ok tt)
      (fun _ => "/tmp/tmpk3v9.png").

Definition upload : request := Request {[ "image" := "PNG" ]}.

Definition empty_world : world := World ∅ [].

(** A single black pixel. *)
Definition one_pixel : image8 := Image8 1 1 [[0]].



(** ** Vocabulary of the adapter properties *)

(** A token: a non-empty string without whitespace. *)
Definition is_token (s : text) : Prop :=
  s <> [] /\ Forall (fun c => Str.isspace c = false) s.

(** A string of whitespace only. *)
Definition is_blank (s : text) : Prop :=
  Forall (fun c => Str.isspace c = true) s.

(** An environment whose engine exits with status 0 after printing
    [out], and one whose decoder rejects every upload. *)
Definition engine_prints (out : text) : env :=
  Env (fun _ files => (Ok (Completed 0 out []), files))
      (fun _ => Ok two_columns)
      (fun _ _ => Ok tt)
      (fun _ => "/tmp/tmpk3v9.png").

Definition no_decoder : env :=
  Env (fun _ files => (Raise FileNotFoundError, files))
      (fun _ => Raise OSError)
      (fun _ _ => Ok tt)
      (fun _ => "/tmp/tmpk3v9.png").

(** The line OSRA prints for ethanol, and the same line with a
    no-break space (U+00A0) inside the first word. *)
Definition ethanol_line : text := "CCO ethanol
".

Definition no_break_line : text := [67; 67; 160; 79; 32; 120; 10]%N.

(** An environment whose encoder cannot write the image. *)
Definition cannot_save : env :=
  Env (fun _ files => (Raise FileNotFoundError, files))
      (fun _ => Ok two_columns)
      (fun _ _ => Raise OSError)
      (fun _ => "/tmp/tmpk3v9.png").

(** A request without an upload, and an upload that decodes to an image
    without pixels. *)
Definition no_upload : request := Request ∅.

Definition empty_image : Image := ImageL (Image8 0 0 []).

Definition decodes_to (img : Image) : env :=
  Env (fun _ files => (Raise FileNotFoundError, files))
      (fun _ => Ok img)
      (fun _ _ => Ok tt)
      (fun _ => "/tmp/tmpk3v9.png").

(** A white strip, one pixel wide and 49601 pixels high. *)
Definition white_strip : Image := ImageL (PIL.new8 1 (Z.to_nat 49601) 255).

(** ** Vocabulary of the pipeline properties *)

(** The luma of a pixel composited on white with its own alpha: what
    steps 1 and 2 make of an RGBA pixel. *)
Definition flat_luma (c : rgba) : Z :=
  let '(r, g, b, a) := c in
  PIL.rgb2l (PIL.BLEND8 a 255 r) (PIL.BLEND8 a 255 g) (PIL.BLEND8 a 255 b).

Definition luma (c : rgb) : Z := let '(r, g, b) := c in PIL.rgb2l r g b.

(** The shape of a raster: [h] rows of [w] pixels. *)
Definition raster_shape {A : Type} (w h : nat) (px : list (list A)) : Prop :=
  length px = h /\ Forall (fun r => length r = w) px.

(** A white image of a given size. *)
Definition white (w h : nat) : image8 := PIL.new8 w h 255.

(** The pixels of an image, their sum and their number. *)
Definition pixels (im : image8) : list Z := concat (rows im).

Definition pixel_sum (im : image8) : Z := sumZ (pixels im).

Definition pixel_count (im : image8) : Z := Z.of_nat (xsize im) * Z.of_nat (ysize im).

(** The pixel functions of steps 3, 4 and 6. *)
Definition inverted (p : Z) : Z := 255 - p.

Definition whitened (p : Z) : Z := if p >? 160 then 255 else p.

Definition binarized (threshold p : Z) : Z := if p >? threshold then 255 else 0.

(** Two pixels, one dark and one light. *)
Definition dark_and_light : image8 := Image8 2 1 [[50; 200]].

(** [convert('RGB')] on an RGBA pixel: the alpha byte is dropped. *)
Definition drop_alpha (c : rgba) : rgb := let '(r, g, b, _) := c in (r, g, b).

(** A fully transparent black pixel. *)
Definition transparent_pixel : Image := ImageRGBA 1 1 [[(0, 0, 0, 0)]].

(** A 20 x 20 black image. *)
Definition black_square : image8 := PIL.new8 20 20 0.

(** The pixel at [(x + dx - 1, y + dy - 1)], the coordinates clamped to
    the image: beyond the border the edge pixels are repeated. *)
Definition clamped (im : image8) (x y dx dy : nat) : Z :=
  nth (Nat.min (x + dx - 1) (xsize im - 1))
    (nth (Nat.min (y + dy - 1) (ysize im - 1)) (rows im) []) 0.

(** The nine pixels around [(x, y)], row by row. *)
Definition neighbourhood (im : image8) (x y : nat) : list Z :=
  [clamped im x y 0 0; clamped im x y 1 0; clamped im x y 2 0;
   clamped im x y 0 1; clamped im x y 1 1; clamped im x y 2 1;
   clamped im x y 0 2; clamped im x y 1 2; clamped im x y 2 2].

(** A list in ascending order. *)
Fixpoint ascending (l : list Z) : Prop :=
  match l with
  | [] => True
  | a :: l' => Forall (Z.le a) l' /\ ascending l'
  end.

(** A white 3 x 3 image with a black pixel in the middle. *)
Definition speck : image8 :=
  Image8 3 3 [[255; 255; 255]; [255; 0; 255]; [255; 255; 255]].

(** * Properties *)

(** ** Binary64 rounding *)

Lemma pow2_pos (e : Z) : (0 < 2 ^ e)%Q.
Proof. apply Qpower_0_lt. reflexivity. Qed.

Lemma pow2_inject (e : Z) : 0 <= e -> (inject_Z (2 ^ e) == 2 ^ e)%Q.
Proof. intros H. rewrite Zpower_Qpower by assumption. reflexivity. Qed.

Lemma pow2_add (a b : Z) : (2 ^ (a + b) == 2 ^ a * 2 ^ b)%Q.
Proof. apply Qpower_plus. discriminate. Qed.

Lemma pow2_le (a b : Z) : a <= b -> (2 ^ a <= 2 ^ b)%Q.
Proof. intros H. apply Qpower_le_compat_l; [assumption | discriminate]. Qed.

Lemma pow2_lt_inv (a b : Z) : (2 ^ a < 2 ^ b)%Q -> a < b.
Proof. intros H. apply (Qpower_lt_compat_l_inv 2); [assumption | reflexivity]. Qed.

Lemma pow2_succ (a : Z) : (2 ^ (a + 1) == 2 * 2 ^ a)%Q.
Proof. rewrite pow2_add. change (2 ^ 1)%Q with 2%Q. ring. Qed.

Lemma Q_as_div (q : Q) : (q == inject_Z (Qnum q) / inject_Z (Zpos (Qden q)))%Q.
Proof. destruct q as [n d]. simpl. apply Qmake_Qdiv. Qed.

Lemma flog2_spec (q : Q) :
  (0 < q)%Q -> (2 ^ B64.flog2 q <= q)%Q /\ (q < 2 ^ (B64.flog2 q + 1))%Q.
Proof.
  intros Hq.
  assert (Hn : 0 < Qnum q) by (destruct q as [n d]; unfold Qlt in Hq; simpl in *; lia).
  pose proof (Z.log2_spec (Qnum q) Hn) as [Hn1 Hn2].
  pose proof (Z.log2_spec (Zpos (Qden q)) eq_refl) as [Hd1 Hd2].
  pose proof (Z.log2_nonneg (Qnum q)) as Ln.
  pose proof (Z.log2_nonneg (Zpos (Qden q))) as Ld.
  set (ln := Z.log2 (Qnum q)) in *. set (ld := Z.log2 (Zpos (Qden q))) in *.
  assert (Qn1 : (2 ^ ln <= inject_Z (Qnum q))%Q).
  { rewrite <- pow2_inject by assumption. rewrite <- Zle_Qle. assumption. }
  assert (Qn2 : (inject_Z (Qnum q) < 2 ^ (ln + 1))%Q).
  { rewrite <- pow2_inject by lia. rewrite <- Zlt_Qlt. replace (ln + 1) with (Z.succ ln) by lia. assumption. }
  assert (Qd1 : (2 ^ ld <= inject_Z (Zpos (Qden q)))%Q).
  { rewrite <- pow2_inject by assumption. rewrite <- Zle_Qle. assumption. }
  assert (Qd2 : (inject_Z (Zpos (Qden q)) < 2 ^ (ld + 1))%Q).
  { rewrite <- pow2_inject by lia. rewrite <- Zlt_Qlt. replace (ld + 1) with (Z.succ ld) by lia. assumption. }
  assert (Dpos : (0 < inject_Z (Zpos (Qden q)))%Q) by reflexivity.
  pose proof (Q_as_div q) as Eq.
  set (N := inject_Z (Qnum q)) in *. set (D := inject_Z (Zpos (Qden q))) in *.
  assert (EqN : (N == q * D)%Q).
  { rewrite Eq. field. intro Hz. rewrite Hz in Dpos. discriminate. }
  pose proof (pow2_pos ln) as Pln. pose proof (pow2_pos ld) as Pld.
  pose proof (pow2_pos (ln - ld)) as Pe.
  assert (Esub : (2 ^ (ln - ld) * 2 ^ ld == 2 ^ ln)%Q).
  { rewrite <- pow2_add. replace (ln - ld + ld) with ln by lia. reflexivity. }
  rewrite pow2_succ in Qn2, Qd2.
  unfold B64.flog2. fold ln. fold ld.
  destruct (Qle_bool (2 ^ (ln - ld)) q) eqn:Hb.
  - apply Qle_bool_iff in Hb. split; [assumption |].
    rewrite pow2_succ.
    (* q * D = N < 2 * 2^ln = 2 * 2^(ln-ld) * 2^ld <= 2 * 2^(ln-ld) * D *)
    apply Qnot_le_lt. intro Hc.
    assert (H1 : (2 * 2 ^ (ln - ld) * 2 ^ ld <= q * D)%Q).
    { apply Qle_trans with (2 * 2 ^ (ln - ld) * D)%Q.
      - apply Qmult_le_l; [lra | assumption].
      - apply Qmult_le_r; assumption. }
    rewrite <- EqN in H1. lra.
  - assert (Hlt : (q < 2 ^ (ln - ld))%Q).
    { apply Qnot_le_lt. intro Hc. apply Qle_bool_iff in Hc. congruence. }
    replace (ln - ld - 1 + 1) with (ln - ld) by lia. split; [| assumption].
    (* 2^(ln-ld-1) * 2 * 2^ld = 2^ln <= N = q * D < q * 2 * 2^ld *)
    assert (E1 : (2 ^ (ln - ld - 1) * 2 == 2 ^ (ln - ld))%Q).
    { replace (ln - ld) with (ln - ld - 1 + 1) at 2 by lia. rewrite pow2_succ. ring. }
    apply Qnot_lt_le. intro Hc.
    assert (H1 : (q * D < 2 ^ (ln - ld - 1) * (2 * 2 ^ ld))%Q).
    { apply Qle_lt_trans with (2 ^ (ln - ld - 1) * D)%Q.
      - apply Qmult_le_r; [assumption | lra].
      - apply Qmult_lt_l; [apply pow2_pos | assumption]. }
    rewrite <- EqN in H1.
    assert (E2 : (2 ^ (ln - ld - 1) * (2 * 2 ^ ld) == 2 ^ ln)%Q).
    { rewrite <- Esub, <- E1. ring. }
    rewrite E2 in H1. lra.
Qed.

Lemma rne_ge_floor (s : Q) : Qfloor s <= B64.rne s.
Proof.
  unfold B64.rne. destruct (Qcompare _ _); [destruct (Z.even _) | |]; lia.
Qed.

Lemma rne_le_floor_succ (s : Q) : B64.rne s <= Qfloor s + 1.
Proof.
  unfold B64.rne. destruct (Qcompare _ _); [destruct (Z.even _) | |]; lia.
Qed.

(** An integer below [s] is below its rounding. *)
Lemma rne_ge_int (s : Q) (K : Z) : (inject_Z K <= s)%Q -> K <= B64.rne s.
Proof.
  intros H. pose proof (rne_ge_floor s).
  assert (K <= Qfloor s); [| lia].
  rewrite <- (Qfloor_Z K). apply Qfloor_resp_le. assumption.
Qed.

(** An integer above [s] is above its rounding. *)
Lemma rne_le_int (s : Q) (K : Z) : (s <= inject_Z K)%Q -> B64.rne s <= K.
Proof.
  intros H.
  assert (Hf : Qfloor s <= K).
  { rewrite <- (Qfloor_Z K). apply Qfloor_resp_le. assumption. }
  destruct (Z.eq_dec (Qfloor s) K) as [E | N].
  - (* s = K exactly: the fraction is zero *)
    pose proof (Qfloor_le s) as Hl. rewrite E in Hl.
    unfold B64.rne. rewrite E.
    assert (Hs : (s - inject_Z K == 0)%Q) by lra.
    assert (Hc : Qcompare (s - inject_Z K) (1 # 2) = Lt).
    { rewrite Hs. reflexivity. }
    rewrite Hc. lia.
  - pose proof (rne_le_floor_succ s). lia.
Qed.

Lemma round_pos_ge_pow (q : Q) :
  (0 < q)%Q -> (2 ^ B64.flog2 q <= B64.round_pos q)%Q.
Proof.
  intros Hq. destruct (flog2_spec q Hq) as [Hlo _].
  unfold B64.round_pos, B64.prec. set (e := B64.flog2 q) in *.
  set (c := e - (53 - 1)).
  pose proof (pow2_pos c) as Pc.
  assert (Hs : (inject_Z (2 ^ 52) <= q / 2 ^ c)%Q).
  { rewrite pow2_inject by lia.
    apply Qle_shift_div_l; [assumption |].
    rewrite <- pow2_add. replace (52 + c) with e by (unfold c; lia). assumption. }
  apply rne_ge_int in Hs.
  apply Qle_trans with (inject_Z (2 ^ 52) * 2 ^ c)%Q.
  - rewrite pow2_inject by lia. rewrite <- pow2_add.
    replace (52 + c) with e by (unfold c; lia). apply Qle_refl.
  - apply Qmult_le_r; [assumption |]. rewrite <- Zle_Qle. assumption.
Qed.

Lemma round_pos_pos (q : Q) : (0 < q)%Q -> (0 < B64.round_pos q)%Q.
Proof.
  intros Hq. eapply Qlt_le_trans; [apply (pow2_pos (B64.flog2 q)) |].
  apply round_pos_ge_pow. assumption.
Qed.

(** An integer of at most 53 bits below [q] is below the rounding of [q]. *)
Lemma round_pos_ge_int (q : Q) (k : Z) :
  0 < k <= 2 ^ 52 -> (inject_Z k <= q)%Q -> (inject_Z k <= B64.round_pos q)%Q.
Proof.
  intros Hk Hq.
  assert (Hq0 : (0 < q)%Q).
  { eapply Qlt_le_trans; [| exact Hq]. rewrite <- (Zlt_Qlt 0). lia. }
  destruct (Z_le_gt_dec (B64.flog2 q) 52) as [Hc | Hc].
  - unfold B64.round_pos, B64.prec. set (c := B64.flog2 q - (53 - 1)).
    assert (Hc' : 0 <= - c) by (unfold c; lia).
    pose proof (pow2_pos c) as Pc.
    assert (EK : (inject_Z (k * 2 ^ (- c)) * 2 ^ c == inject_Z k)%Q).
    { rewrite inject_Z_mult, pow2_inject by assumption.
      rewrite <- Qmult_assoc, <- pow2_add. replace (- c + c) with 0 by lia.
      change (2 ^ 0)%Q with 1%Q. ring. }
    assert (Hs : (inject_Z (k * 2 ^ (- c)) <= q / 2 ^ c)%Q).
    { apply Qle_shift_div_l; [assumption |]. rewrite EK. assumption. }
    apply rne_ge_int in Hs. rewrite <- EK.
    apply Qmult_le_r; [assumption |]. rewrite <- Zle_Qle. assumption.
  - apply Qle_trans with (2 ^ B64.flog2 q)%Q; [| apply round_pos_ge_pow; assumption].
    apply Qle_trans with (2 ^ 52)%Q.
    + rewrite <- pow2_inject by lia. rewrite <- Zle_Qle. lia.
    + apply pow2_le. lia.
Qed.

(** An integer of at most 53 bits above [q] is above the rounding of [q]. *)
Lemma round_pos_le_int (q : Q) (k : Z) :
  0 < k < 2 ^ 53 -> (0 < q)%Q -> (q <= inject_Z k)%Q ->
  (B64.round_pos q <= inject_Z k)%Q.
Proof.
  intros Hk Hq0 Hq. destruct (flog2_spec q Hq0) as [Hlo _].
  assert (He : B64.flog2 q < 53).
  { apply pow2_lt_inv. eapply Qle_lt_trans; [exact Hlo |].
    eapply Qle_lt_trans; [exact Hq |].
    rewrite <- pow2_inject by lia. rewrite <- Zlt_Qlt. lia. }
  unfold B64.round_pos, B64.prec. set (c := B64.flog2 q - (53 - 1)).
  assert (Hc' : 0 <= - c) by (unfold c; lia).
  pose proof (pow2_pos c) as Pc.
  assert (EK : (inject_Z (k * 2 ^ (- c)) * 2 ^ c == inject_Z k)%Q).
  { rewrite inject_Z_mult, pow2_inject by assumption.
    rewrite <- Qmult_assoc, <- pow2_add. replace (- c + c) with 0 by lia.
    change (2 ^ 0)%Q with 1%Q. ring. }
  assert (Hs : (q / 2 ^ c <= inject_Z (k * 2 ^ (- c)))%Q).
  { apply Qle_shift_div_r; [assumption |]. rewrite EK. assumption. }
  apply rne_le_int in Hs. rewrite <- EK.
  apply Qmult_le_r; [assumption |]. rewrite <- Zle_Qle. assumption.
Qed.

(** [rnd] on the three signs. *)
Lemma rnd_zero (q : Q) : (q == 0)%Q -> B64.rnd q = 0%Q.
Proof.
  intros H. unfold B64.rnd. rewrite (proj1 (Qeq_alt q 0) H). reflexivity.
Qed.

Lemma rnd_of_pos (q : Q) : (0 < q)%Q -> (B64.rnd q == B64.round_pos (Qred q))%Q.
Proof.
  intros H. unfold B64.rnd. rewrite (proj1 (Qgt_alt q 0) H). apply Qred_correct.
Qed.

Lemma rnd_of_neg (q : Q) : (q < 0)%Q -> (B64.rnd q == - B64.round_pos (Qred (- q)))%Q.
Proof.
  intros H. unfold B64.rnd. rewrite (proj1 (Qlt_alt q 0) H). apply Qred_correct.
Qed.

Lemma rnd_pos (q : Q) : (0 < q)%Q -> (0 < B64.rnd q)%Q.
Proof.
  intros H. rewrite rnd_of_pos by assumption. apply round_pos_pos.
  rewrite Qred_correct. assumption.
Qed.

Lemma rnd_neg (q : Q) : (q < 0)%Q -> (B64.rnd q < 0)%Q.
Proof.
  intros H. rewrite rnd_of_neg by assumption.
  assert (0 < B64.round_pos (Qred (- q)))%Q; [| lra].
  apply round_pos_pos. rewrite Qred_correct. lra.
Qed.

Lemma rnd_ge_int (q : Q) (k : Z) :
  0 < k <= 2 ^ 52 -> (inject_Z k <= q)%Q -> (inject_Z k <= B64.rnd q)%Q.
Proof.
  intros Hk Hq.
  assert (Hq0 : (0 < q)%Q).
  { eapply Qlt_le_trans; [| exact Hq]. rewrite <- (Zlt_Qlt 0). lia. }
  rewrite rnd_of_pos by assumption. apply round_pos_ge_int; [assumption |].
  rewrite Qred_correct. assumption.
Qed.

Lemma rnd_le_int (q : Q) (k : Z) :
  0 <= k < 2 ^ 53 -> (0 <= q)%Q -> (q <= inject_Z k)%Q -> (B64.rnd q <= inject_Z k)%Q.
Proof.
  intros Hk Hq0 Hq.
  destruct (Qlt_le_dec 0 q) as [Hp | Hz].
  - assert (0 < k).
    { rewrite Zlt_Qlt. eapply Qlt_le_trans; [exact Hp | exact Hq]. }
    rewrite rnd_of_pos by assumption. apply round_pos_le_int; [lia | |].
    + rewrite Qred_correct. assumption.
    + rewrite Qred_correct. assumption.
  - rewrite rnd_zero by lra. rewrite <- (Zle_Qle 0). lia.
Qed.

(** [rnd] sends equal rationals to the same representation. *)
Lemma rnd_comp (p q : Q) : (p == q)%Q -> B64.rnd p = B64.rnd q.
Proof.
  intros H. unfold B64.rnd.
  assert (Hc : Qcompare p 0 = Qcompare q 0) by (rewrite H; reflexivity).
  rewrite Hc. destruct (Qcompare q 0).
  - reflexivity.
  - assert (E : Qred (- p) = Qred (- q)) by (apply Qred_complete; rewrite H; reflexivity).
    rewrite E. reflexivity.
  - rewrite (Qred_complete _ _ H). reflexivity.
Qed.

(** ** Histogram prefix sums *)

Lemma sumZ_app (l1 l2 : list Z) : sumZ (l1 ++ l2) = sumZ l1 + sumZ l2.
Proof. induction l1 as [| a l1 IH]; simpl; [reflexivity | rewrite IH; lia]. Qed.

(** Facts about one histogram [h], whose counts are not negative. *)
Section PrefixSums.

Variable h : list Z.
Hypothesis Hnn : Forall (fun c => 0 <= c) h.

Lemma weight_below_S (k : nat) :
  weight_below h (S k) = weight_below h k + nth k h 0.
Proof using Type.
  unfold weight_below. rewrite seq_S, map_app, sumZ_app. simpl. lia.
Qed.

Lemma sum_below_S (k : nat) :
  sum_below h (S k) = sum_below h k + Z.of_nat k * nth k h 0.
Proof using Type.
  unfold sum_below. rewrite seq_S, map_app, sumZ_app. simpl. lia.
Qed.

Lemma nth_nonneg (k : nat) : 0 <= nth k h 0.
Proof using Hnn.
  destruct (Nat.lt_ge_cases k (length h)) as [Hk | Hk].
  - rewrite List.Forall_forall in Hnn. apply Hnn. apply nth_In. assumption.
  - rewrite nth_overflow by assumption. lia.
Qed.

Lemma weight_below_nonneg (k : nat) : 0 <= weight_below h k.
Proof using Hnn.
  induction k as [| k IH]; [reflexivity |].
  rewrite weight_below_S. pose proof (nth_nonneg k). lia.
Qed.

Lemma sum_below_nonneg (k : nat) : 0 <= sum_below h k.
Proof using Hnn.
  induction k as [| k IH]; [reflexivity |].
  rewrite sum_below_S. pose proof (nth_nonneg k). nia.
Qed.

Lemma weight_below_mono (k m : nat) :
  (k <= m)%nat -> weight_below h k <= weight_below h m.
Proof using Hnn.
  intros Hkm. induction Hkm as [| m Hkm IH]; [lia |].
  rewrite weight_below_S. pose proof (nth_nonneg m). lia.
Qed.

(** The background sum is at most [k] times the weight of the
    background [0..k]. *)
Lemma sum_below_upper (k : nat) :
  sum_below h (S k) <= Z.of_nat k * weight_below h (S k).
Proof using Hnn.
  induction k as [| k IH].
  - rewrite sum_below_S, weight_below_S. unfold sum_below, weight_below. simpl. lia.
  - rewrite sum_below_S, weight_below_S.
    pose proof (nth_nonneg (S k)). pose proof (weight_below_nonneg (S k)).
    nia.
Qed.

(** The sum of the buckets from [k] on is at least [k] times their
    weight. *)
Lemma sum_below_lower (k m : nat) :
  (k <= m)%nat ->
  Z.of_nat k * (weight_below h m - weight_below h k) <= sum_below h m - sum_below h k.
Proof using Hnn.
  intros Hkm. induction Hkm as [| m Hkm IH]; [lia |].
  rewrite sum_below_S, weight_below_S. pose proof (nth_nonneg m). nia.
Qed.

End PrefixSums.

Lemma Qdiv_le_int (a b k : Z) :
  0 < b -> a <= k * b -> (inject_Z a / inject_Z b <= inject_Z k)%Q.
Proof.
  intros Hb H. apply Qle_shift_div_r.
  - rewrite <- (Zlt_Qlt 0). assumption.
  - rewrite <- inject_Z_mult, <- Zle_Qle. assumption.
Qed.

Lemma Qdiv_ge_int (a b k : Z) :
  0 < b -> k * b <= a -> (inject_Z k <= inject_Z a / inject_Z b)%Q.
Proof.
  intros Hb H. apply Qle_shift_div_l.
  - rewrite <- (Zlt_Qlt 0). assumption.
  - rewrite <- inject_Z_mult, <- Zle_Qle. assumption.
Qed.

Lemma Qdiv_nonneg_int (a b : Z) :
  0 < b -> 0 <= a -> (0 <= inject_Z a / inject_Z b)%Q.
Proof.
  intros Hb H. apply (Qdiv_ge_int a b 0); lia.
Qed.

(** The variance computed for a threshold that cuts between two
    non-empty classes is positive: the rounded background mean is at most
    [t], the rounded foreground mean at least [t + 1]. *)
Lemma otsu_variance_pos (total_pixels total_sum weight_bg sum_bg t : Z) :
  0 <= t <= 255 ->
  0 < weight_bg < total_pixels ->
  0 <= sum_bg <= t * weight_bg ->
  (t + 1) * (total_pixels - weight_bg) <= total_sum - sum_bg ->
  (0 < Backend.otsu_variance total_pixels total_sum weight_bg sum_bg)%Q.
Proof.
  intros Ht Hw Hs Hf. unfold Backend.otsu_variance.
  set (mean_bg := B64.rnd (inject_Z sum_bg / inject_Z weight_bg)).
  set (mean_fg := B64.rnd (inject_Z (total_sum - sum_bg) / inject_Z (total_pixels - weight_bg))).
  assert (Hbg : (mean_bg <= inject_Z t)%Q).
  { apply rnd_le_int.
    - change (2 ^ 53) with 9007199254740992. lia.
    - apply Qdiv_nonneg_int; lia.
    - apply Qdiv_le_int; lia. }
  assert (Hfg : (inject_Z (t + 1) <= mean_fg)%Q).
  { apply rnd_ge_int.
    - change (2 ^ 52) with 4503599627370496. lia.
    - apply Qdiv_ge_int; lia. }
  assert (Hd : (mean_bg - mean_fg < 0)%Q).
  { rewrite inject_Z_plus in Hfg. change (inject_Z 1) with 1%Q in Hfg. lra. }
  unfold B64.int_mul, B64.mul, B64.sqr, B64.mul, B64.sub, B64.of_int.
  apply rnd_neg in Hd. set (d := B64.rnd (mean_bg - mean_fg)) in *.
  apply rnd_pos. apply Qmult_lt_0_compat.
  - apply rnd_pos. rewrite <- (Zlt_Qlt 0). nia.
  - apply rnd_pos. nra.
Qed.

Lemma score_pos (h : list Z) (total t : Z) :
  histogram_ok h total -> splits h total t -> (0 < score h total t)%Q.
Proof.
  intros (Hlen & Hnn & Htot) (Ht & Hw1 & Hw2). unfold score.
  assert (Ek : (Z.to_nat t + 1)%nat = S (Z.to_nat t)) by lia. rewrite Ek in *.
  apply (otsu_variance_pos _ _ _ _ t); try assumption; try lia.
  - split; [apply sum_below_nonneg; assumption |].
    pose proof (sum_below_upper h Hnn (Z.to_nat t)) as H.
    rewrite Z2Nat.id in H by lia. exact H.
  - pose proof (sum_below_lower h Hnn (S (Z.to_nat t)) 256 ltac:(lia)) as H.
    rewrite Htot, Nat2Z.inj_succ, Z2Nat.id in H by lia.
    replace (Z.succ t) with (t + 1) in H by lia. exact H.
Qed.

(** ** The threshold loop *)

Lemma score_of_nat (h : list Z) (total : Z) (i : nat) :
  score h total (Z.of_nat i)
  = Backend.otsu_variance total (sum_below h 256)
      (weight_below h (S i)) (sum_below h (S i)).
Proof.
  unfold score. rewrite Nat2Z.id. replace (i + 1)%nat with (S i) by lia. reflexivity.
Qed.

Lemma splits_of_nat (h : list Z) (total : Z) (i : nat) :
  splits h total (Z.of_nat i)
  <-> (i <= 255)%nat /\ 0 < weight_below h (S i) < total.
Proof.
  unfold splits. rewrite Nat2Z.id. replace (i + 1)%nat with (S i) by lia.
  split; intros H; repeat split; try lia.
Qed.

Lemma otsu_loop_spec (h : list Z) (total : Z) :
  histogram_ok h total ->
  forall (n i0 : nat) (st : Backend.otsu_state),
    (i0 + n = 256)%nat ->
    Backend.weight_bg st = weight_below h i0 ->
    Backend.sum_bg st = sum_below h i0 ->
    loop_post h total i0 st
      (Backend.otsu_loop h total (sum_below h 256) (map Z.of_nat (seq i0 n)) st).
Proof.
  intros (Hlen & Hnn & Htot).
  induction n as [| n IH]; intros i0 st Hi Hw Hs.
  - simpl. left. split; [reflexivity | split; [reflexivity |]].
    intros t Ht (Ht' & _). lia.
  - cbn [seq map Backend.otsu_loop]. rewrite Nat2Z.id.
    rewrite Hw, Hs, <- weight_below_S, <- sum_below_S.
    pose proof (weight_below_nonneg h Hnn (S i0)) as Wnn.
    pose proof (weight_below_mono h Hnn (S i0) 256 ltac:(lia)) as Wle.
    rewrite Htot in Wle.
    destruct (weight_below h (S i0) =? 0) eqn:E0.
    + (* continue *)
      apply Z.eqb_eq in E0.
      assert (Hz : nth i0 h 0 = 0).
      { pose proof (weight_below_nonneg h Hnn i0). pose proof (nth_nonneg h Hnn i0).
        rewrite weight_below_S in E0. lia. }
      assert (Hs' : sum_below h i0 = sum_below h (S i0)).
      { rewrite sum_below_S, Hz. lia. }
      rewrite <- Hs.
      specialize (IH (S i0)
        (Backend.OtsuState (Backend.best_threshold st) (Backend.best_variance st)
           (weight_below h (S i0)) (Backend.sum_bg st))
        ltac:(lia) eq_refl ltac:(cbn [Backend.sum_bg]; congruence)).
      assert (Hnot : ~ splits h total (Z.of_nat i0)).
      { rewrite splits_of_nat. lia. }
      destruct IH as [(A1 & A2 & A3) | (B1 & B2 & B3 & B4 & B5 & B6)];
        cbn [Backend.best_threshold Backend.best_variance] in *.
      * left. split; [assumption | split; [assumption |]].
        intros t Ht Hsp. destruct (Z.eq_dec t (Z.of_nat i0)) as [-> | Hne];
          [contradiction | apply A3; [lia | assumption]].
      * right. split; [lia | split; [assumption | split; [assumption | split; [assumption | split]]]].
        -- intros t Ht Hsp. destruct (Z.eq_dec t (Z.of_nat i0)) as [-> | Hne];
             [contradiction | apply B5; [lia | assumption]].
        -- intros t Ht Hsp. destruct (Z.eq_dec t (Z.of_nat i0)) as [-> | Hne];
             [contradiction | apply B6; [lia | assumption]].
    + apply Z.eqb_neq in E0.
      destruct (total - weight_below h (S i0) =? 0) eqn:E1.
      * (* break *)
        apply Z.eqb_eq in E1. left. split; [reflexivity | split; [reflexivity |]].
        intros t Ht (Ht1 & Ht2 & Ht3).
        pose proof (weight_below_mono h Hnn (S i0) (Z.to_nat t + 1) ltac:(lia)). lia.
      * apply Z.eqb_neq in E1.
        assert (Hsp0 : splits h total (Z.of_nat i0)).
        { rewrite splits_of_nat. lia. }
        rewrite <- score_of_nat.
        set (v := score h total (Z.of_nat i0)).
        destruct (Qle_bool v (Backend.best_variance st)) eqn:Ev; cbn [negb].
        -- apply Qle_bool_iff in Ev.
           specialize (IH (S i0)
             (Backend.OtsuState (Backend.best_threshold st) (Backend.best_variance st)
                (weight_below h (S i0)) (sum_below h (S i0)))
             ltac:(lia) eq_refl eq_refl).
           destruct IH as [(A1 & A2 & A3) | (B1 & B2 & B3 & B4 & B5 & B6)];
             cbn [Backend.best_threshold Backend.best_variance] in *.
           ++ left. split; [assumption | split; [assumption |]].
              intros t Ht Hsp. destruct (Z.eq_dec t (Z.of_nat i0)) as [-> | Hne];
                [exact Ev | apply A3; [lia | assumption]].
           ++ right. split; [lia | split; [assumption | split; [assumption | split; [assumption | split]]]].
              ** intros t Ht Hsp. destruct (Z.eq_dec t (Z.of_nat i0)) as [-> | Hne];
                   [fold v; lra | apply B5; [lia | assumption]].
              ** intros t Ht Hsp. destruct (Z.eq_dec t (Z.of_nat i0)) as [-> | Hne];
                   [fold v; lra | apply B6; [lia | assumption]].
        -- assert (Hgt : (Backend.best_variance st < v)%Q).
           { apply Qnot_le_lt. intro Hc. apply Qle_bool_iff in Hc. congruence. }
           specialize (IH (S i0)
             (Backend.OtsuState (Z.of_nat i0) v
                (weight_below h (S i0)) (sum_below h (S i0)))
             ltac:(lia) eq_refl eq_refl).
           destruct IH as [(A1 & A2 & A3) | (B1 & B2 & B3 & B4 & B5 & B6)];
             cbn [Backend.best_threshold Backend.best_variance] in *.
           ++ right. rewrite A1.
              split; [lia | split; [assumption | split; [assumption | split; [assumption | split]]]].
              ** intros t Ht Hsp. lia.
              ** intros t Ht Hsp. destruct (Z.eq_dec t (Z.of_nat i0)) as [-> | Hne];
                   [apply Qle_refl | apply A3; [lia | assumption]].
           ++ right. split; [lia | split; [assumption | split; [assumption | split; [| split]]]].
              ** fold v in B4. lra.
              ** intros t Ht Hsp. destruct (Z.eq_dec t (Z.of_nat i0)) as [-> | Hne];
                   [exact B4 | apply B5; [lia | assumption]].
              ** intros t Ht Hsp. destruct (Z.eq_dec t (Z.of_nat i0)) as [-> | Hne];
                   [apply Qlt_le_weak; exact B4 | apply B6; [lia | assumption]].
Qed.

Lemma range_length (n : nat) : length (range n) = n.
Proof. unfold range. rewrite length_map, length_seq. reflexivity. Qed.

Lemma range_nth (n i : nat) : (i < n)%nat -> nth i (range n) 0 = Z.of_nat i.
Proof.
  intros H. unfold range.
  rewrite (nth_indep _ 0 (Z.of_nat 0)) by (rewrite length_map, length_seq; assumption).
  rewrite map_nth, seq_nth by assumption. reflexivity.
Qed.

Lemma histogram_length (im : image8) : length (PIL.histogram im) = 256%nat.
Proof. unfold PIL.histogram. rewrite length_map. apply range_length. Qed.

Lemma histogram_nth (im : image8) (i : nat) :
  (i < 256)%nat ->
  nth i (PIL.histogram im) 0 = PIL.count_value (Z.of_nat i) (concat (rows im)).
Proof.
  intros H. unfold PIL.histogram.
  rewrite (nth_indep _ 0 (PIL.count_value 0 (concat (rows im))))
    by (rewrite length_map, range_length; assumption).
  rewrite (map_nth (fun v => PIL.count_value v (concat (rows im)))).
  rewrite range_nth by assumption. reflexivity.
Qed.

Lemma count_value_nonneg (v : Z) (l : list Z) : 0 <= PIL.count_value v l.
Proof. unfold PIL.count_value. lia. Qed.

Lemma histogram_nonneg (im : image8) : Forall (fun c => 0 <= c) (PIL.histogram im).
Proof.
  unfold PIL.histogram. apply List.Forall_forall. intros c Hc.
  apply in_map_iff in Hc. destruct Hc as (v & <- & _). apply count_value_nonneg.
Qed.

(** Counting the values below [k + 1]: those below [k], and those equal
    to [k]. *)
Lemma count_below_S (l : list Z) (k : Z) :
  length (List.filter (fun p => p <? k + 1) l)
  = (length (List.filter (fun p => (p <? k)%Z) l)
     + length (List.filter (Z.eqb k) l))%nat.
Proof.
  induction l as [| p l IH]; [reflexivity |]. cbn [List.filter].
  destruct (p <? k + 1) eqn:E1, (p <? k) eqn:E2, (k =? p) eqn:E3; cbn [length];
    try lia.
Qed.

(** The weight below [k] counts the pixels whose value is below [k]. *)
Lemma weight_below_histogram (im : image8) (k : nat) :
  (k <= 256)%nat ->
  Forall (fun p => 0 <= p) (concat (rows im)) ->
  weight_below (PIL.histogram im) k
  = Z.of_nat (length (List.filter (fun p => p <? Z.of_nat k) (concat (rows im)))).
Proof.
  intros Hk Hnn. induction k as [| k IH].
  - cbn [weight_below seq map sumZ fold_right]. 
    induction (concat (rows im)) as [| p l IHl]; [reflexivity |].
    inversion Hnn as [| ? ? Hp Hl]; subst. cbn [List.filter].
    destruct (Z.ltb_spec p (Z.of_nat 0)); [lia | apply IHl; assumption].
  - rewrite weight_below_S, IH by lia. rewrite histogram_nth by lia.
    unfold PIL.count_value.
    replace (Z.of_nat (S k)) with (Z.of_nat k + 1) by lia.
    rewrite count_below_S. lia.
Qed.

Lemma filter_all {A : Type} (f : A -> bool) (l : list A) :
  Forall (fun a => f a = true) l -> List.filter f l = l.
Proof.
  induction 1 as [| a l Ha Hl IH]; [reflexivity |].
  cbn [List.filter]. rewrite Ha, IH. reflexivity.
Qed.

(** What [raster_ok] says about the pixels, read row by row. *)
Lemma raster_ok_concat {A : Type} (ok : A -> bool) (w h : nat) (px : list (list A)) :
  raster_ok ok w h px = true ->
  length px = h
  /\ Forall (fun r => length r = w) px
  /\ Forall (fun p => ok p = true) (concat px)
  /\ length (concat px) = (w * h)%nat.
Proof.
  unfold raster_ok. intros H. apply andb_true_iff in H. destruct H as [H1 H2].
  apply Nat.eqb_eq in H1. subst h. split; [reflexivity |].
  induction px as [| r px IH].
  - repeat split; try constructor. cbn. lia.
  - cbn [forallb] in H2. apply andb_true_iff in H2. destruct H2 as [Hr Hpx].
    apply andb_true_iff in Hr. destruct Hr as [Hl Hok].
    apply Nat.eqb_eq in Hl. destruct (IH Hpx) as (F1 & F2 & F3).
    split; [constructor; assumption |]. split.
    + cbn [concat]. apply List.Forall_app. split; [| assumption].
      apply List.Forall_forall. intros p Hp.
      rewrite forallb_forall in Hok. apply Hok. assumption.
    + cbn [concat length]. rewrite length_app, F3, Hl. lia.
Qed.

Lemma byte_ok_range (p : Z) : byte_ok p = true <-> 0 <= p <= 255.
Proof. unfold byte_ok. rewrite andb_true_iff, !Z.leb_le. reflexivity. Qed.

Lemma image8_ok_pixels (im : image8) :
  image8_ok im = true ->
  Forall (fun p => 0 <= p <= 255) (concat (rows im))
  /\ Z.of_nat (length (concat (rows im))) = Z.of_nat (xsize im) * Z.of_nat (ysize im).
Proof.
  intros H. apply raster_ok_concat in H. destruct H as (_ & _ & F & E). split.
  - eapply List.Forall_impl; [| exact F]. intros p Hp. apply byte_ok_range. exact Hp.
  - rewrite E. lia.
Qed.

(** The histogram of a well-formed image accounts for every pixel. *)
Lemma histogram_ok_image (im : image8) :
  image8_ok im = true ->
  histogram_ok (PIL.histogram im) (Z.of_nat (xsize im) * Z.of_nat (ysize im)).
Proof.
  intros H. destruct (image8_ok_pixels im H) as [F E].
  split; [apply histogram_length |]. split; [apply histogram_nonneg |].
  rewrite weight_below_histogram.
  - rewrite filter_all; [exact E |].
    eapply List.Forall_impl; [| exact F]. intros p Hp. cbv beta in *. apply Z.ltb_lt. lia.
  - lia.
  - eapply List.Forall_impl; [| exact F]. intros p Hp. cbv beta in *. lia.
Qed.

Lemma total_sum_eq (h : list Z) :
  sumZ (map (fun i => i * nth (Z.to_nat i) h 0) (range 256)) = sum_below h 256.
Proof.
  unfold sum_below, range. rewrite map_map.
  rewrite (map_ext _ (fun i => Z.of_nat i * nth i h 0)); [reflexivity |].
  intros i. rewrite Nat2Z.id. reflexivity.
Qed.

(** The threshold chosen for a histogram: 128 when no threshold splits
    the pixels, and otherwise the first split that attains the maximal
    score. *)
Lemma otsu_of_histogram_spec (h : list Z) (total : Z) :
  histogram_ok h total ->
  let t := Backend.otsu_of_histogram h total in
  ((forall u, ~ splits h total u) /\ t = 128)
  \/ (splits h total t
      /\ (forall u, splits h total u -> (score h total u <= score h total t)%Q)
      /\ (forall u, splits h total u -> u < t -> (score h total u < score h total t)%Q)).
Proof.
  intros Hok t. unfold t, Backend.otsu_of_histogram. rewrite total_sum_eq.
  pose proof (otsu_loop_spec h total Hok 256 0 (Backend.OtsuState 128 0 0 0)
                eq_refl eq_refl eq_refl) as H.
  change (map Z.of_nat (seq 0 256)) with (range 256) in H.
  destruct H as [(A1 & A2 & A3) | (B1 & B2 & B3 & B4 & B5 & B6)];
    cbn [Backend.best_threshold Backend.best_variance] in *.
  - left. split; [| exact A1].
    intros u Hu. pose proof (score_pos h total u Hok Hu) as Hp.
    assert (Hle : (score h total u <= 0)%Q).
    { apply A3; [destruct Hu; lia | exact Hu]. }
    lra.
  - right. split; [exact B2 |]. split.
    + intros u Hu. apply B6; [destruct Hu; lia | exact Hu].
    + intros u Hu Hlt. apply B5; [destruct Hu; lia | exact Hu].
Qed.

(** ** Pixels of an image, through its rows *)

Lemma forallb_rows {A : Type} (f : A -> bool) (px : list (list A)) :
  forallb (forallb f) px = true <-> Forall (fun p => f p = true) (concat px).
Proof.
  induction px as [| r px IH]; cbn [forallb concat].
  - split; [constructor | reflexivity].
  - rewrite andb_true_iff, List.Forall_app, IH, forallb_forall.
    rewrite (List.Forall_forall (fun p => f p = true) r). reflexivity.
Qed.

Lemma existsb_rows {A : Type} (f : A -> bool) (px : list (list A)) :
  existsb (existsb f) px = true <-> exists p, In p (concat px) /\ f p = true.
Proof.
  induction px as [| r px IH]; cbn [existsb concat].
  - split; [discriminate | intros (p & [] & _)].
  - rewrite orb_true_iff, IH, existsb_exists. split.
    + intros [(p & Hp & Hf) | (p & Hp & Hf)]; exists p; rewrite in_app_iff; tauto.
    + intros (p & Hp & Hf). rewrite in_app_iff in Hp.
      destruct Hp; [left | right]; exists p; tauto.
Qed.

Lemma filter_none {A : Type} (f : A -> bool) (l : list A) :
  Forall (fun a => f a = false) l -> List.filter f l = [].
Proof.
  induction 1 as [| a l Ha Hl IH]; [reflexivity |].
  cbn [List.filter]. rewrite Ha, IH. reflexivity.
Qed.

Lemma filter_length_le {A : Type} (f : A -> bool) (l : list A) :
  (length (List.filter f l) <= length l)%nat.
Proof.
  induction l as [| a l IH]; [constructor |].
  cbn [List.filter]. destruct (f a); cbn [length]; lia.
Qed.

Lemma filter_length_lt {A : Type} (f : A -> bool) (l : list A) (a : A) :
  In a l -> f a = false -> (length (List.filter f l) < length l)%nat.
Proof.
  induction l as [| b l IH]; [intros [] |].
  intros [-> | Hin] Hf; cbn [List.filter].
  - rewrite Hf. pose proof (filter_length_le f l). cbn [length]. lia.
  - specialize (IH Hin Hf). destruct (f b); cbn [length]; lia.
Qed.

Lemma filter_length_lt_inv {A : Type} (f : A -> bool) (l : list A) :
  (length (List.filter f l) < length l)%nat -> exists a, In a l /\ f a = false.
Proof.
  induction l as [| b l IH]; cbn [List.filter length]; [lia |].
  destruct (f b) eqn:Eb; cbn [length]; intros H.
  - destruct IH as (a & Ha & Hf); [lia |]. exists a. split; [right |]; assumption.
  - exists b. split; [left; reflexivity | assumption].
Qed.

Lemma filter_length_pos {A : Type} (f : A -> bool) (l : list A) (a : A) :
  In a l -> f a = true -> (0 < length (List.filter f l))%nat.
Proof.
  intros Hin Hf.
  assert (H : In a (List.filter f l)) by (apply filter_In; tauto).
  destruct (List.filter f l); [destruct H | cbn [length]; lia].
Qed.

Lemma sumZ_below_S (l : list Z) (k : Z) :
  sumZ (List.filter (fun p => p <? k + 1) l)
  = sumZ (List.filter (fun p => p <? k) l)
    + k * Z.of_nat (length (List.filter (Z.eqb k) l)).
Proof.
  induction l as [| p l IH]; [cbn; lia |]. cbn [List.filter].
  destruct (Z.ltb_spec p (k + 1)), (Z.ltb_spec p k), (Z.eqb_spec k p);
    cbn [sumZ fold_right length]; fold (sumZ (List.filter (fun p => p <? k + 1) l));
    fold (sumZ (List.filter (fun p => p <? k) l)); try lia.
Qed.

(** The sum below [k] adds up the pixel values that are below [k]. *)
Lemma sum_below_histogram (im : image8) (k : nat) :
  (k <= 256)%nat ->
  Forall (fun p => 0 <= p) (concat (rows im)) ->
  sum_below (PIL.histogram im) k
  = sumZ (List.filter (fun p => p <? Z.of_nat k) (concat (rows im))).
Proof.
  intros Hk Hnn. induction k as [| k IH].
  - rewrite filter_none; [reflexivity |].
    eapply List.Forall_impl; [| exact Hnn]. intros p Hp. cbv beta in *.
    apply Z.ltb_ge. lia.
  - rewrite sum_below_S, IH by lia. rewrite histogram_nth by lia.
    unfold PIL.count_value.
    replace (Z.of_nat (S k)) with (Z.of_nat k + 1) by lia.
    rewrite sumZ_below_S. reflexivity.
Qed.

(** Two thresholds that leave the same pixels below them have the same
    score. *)
Lemma score_same_class (im : image8) (n t u : Z) :
  Forall (fun p => 0 <= p) (concat (rows im)) ->
  0 <= t <= 255 -> 0 <= u <= 255 ->
  (forall p, In p (concat (rows im)) -> (p <? t + 1) = (p <? u + 1)) ->
  score (PIL.histogram im) n t = score (PIL.histogram im) n u.
Proof.
  intros Hnn Ht Hu Hsame. unfold score.
  rewrite !weight_below_histogram, !sum_below_histogram by (assumption || lia).
  replace (Z.of_nat (Z.to_nat t + 1)) with (t + 1) by lia.
  replace (Z.of_nat (Z.to_nat u + 1)) with (u + 1) by lia.
  rewrite (filter_ext_in (fun p => p <? t + 1) (fun p => p <? u + 1)) by exact Hsame.
  reflexivity.
Qed.

Lemma splits_image (im : image8) (t : Z) :
  image8_ok im = true ->
  splits (PIL.histogram im) (Z.of_nat (xsize im) * Z.of_nat (ysize im)) t
  <-> 0 <= t <= 255
      /\ (exists p, In p (concat (rows im)) /\ p <= t)
      /\ (exists p, In p (concat (rows im)) /\ t < p).
Proof.
  intros Hok. destruct (image8_ok_pixels im Hok) as [F E].
  assert (Hnn : Forall (fun p => 0 <= p) (concat (rows im))).
  { eapply List.Forall_impl; [| exact F]. intros p Hp. cbv beta in *. lia. }
  unfold splits. split.
  - intros (Ht & H1 & H2). split; [exact Ht |].
    rewrite weight_below_histogram in H1, H2 by (assumption || lia).
    replace (Z.of_nat (Z.to_nat t + 1)) with (t + 1) in H1, H2 by lia.
    rewrite <- E in H2. split.
    + destruct (List.filter (fun p => p <? t + 1) (concat (rows im))) as [| p l] eqn:Ef;
        [cbn in H1; lia |].
      assert (Hin : In p (List.filter (fun p => p <? t + 1) (concat (rows im))))
        by (rewrite Ef; left; reflexivity).
      apply filter_In in Hin. destruct Hin as [Hin Hlt]. apply Z.ltb_lt in Hlt.
      exists p. split; [assumption | lia].
    + destruct (filter_length_lt_inv (fun p => p <? t + 1) (concat (rows im)))
        as (p & Hin & Hp); [lia |].
      apply Z.ltb_ge in Hp. exists p. split; [assumption | lia].
  - intros (Ht & (p & Hp & Hle) & (q & Hq & Hlt)). split; [exact Ht |].
    rewrite weight_below_histogram by (assumption || lia).
    replace (Z.of_nat (Z.to_nat t + 1)) with (t + 1) by lia.
    rewrite <- E. split.
    + pose proof (filter_length_pos (fun p => p <? t + 1) _ p Hp) as H.
      specialize (H ltac:(apply Z.ltb_lt; lia)). lia.
    + pose proof (filter_length_lt (fun p => p <? t + 1) _ q Hq) as H.
      specialize (H ltac:(apply Z.ltb_ge; lia)). lia.
Qed.

(** ** The threshold of an image *)

Lemma otsu_threshold_cases (im : image8) :
  image8_ok im = true ->
  let h := PIL.histogram im in
  let n := Z.of_nat (xsize im) * Z.of_nat (ysize im) in
  let t := Backend._otsu_threshold im in
  ((forall u, ~ splits h n u) /\ t = 128)
  \/ (splits h n t
      /\ (forall u, splits h n u -> (score h n u <= score h n t)%Q)
      /\ (forall u, splits h n u -> u < t -> (score h n u < score h n t)%Q)).
Proof.
  intros Hok. apply otsu_of_histogram_spec. apply histogram_ok_image. exact Hok.
Qed.

(** The threshold never reaches 255: a split leaves a pixel above it. *)
Lemma otsu_threshold_range (im : image8) :
  image8_ok im = true -> 0 <= Backend._otsu_threshold im <= 254.
Proof.
  intros Hok. destruct (image8_ok_pixels im Hok) as [F _].
  destruct (otsu_threshold_cases im Hok) as [[_ ->] | [Hs _]]; [lia |].
  apply splits_image in Hs; [| exact Hok].
  destruct Hs as (Ht & _ & (p & Hp & Hlt)).
  rewrite List.Forall_forall in F. specialize (F p Hp). cbv beta in F. lia.
Qed.

(** [point] applies the function to every pixel that is a byte. *)
Lemma point_lut (f : Z -> Z) (p : Z) :
  0 <= p <= 255 -> nth (Z.to_nat p) (map f (range 256)) 0 = f p.
Proof.
  intros Hp.
  rewrite (nth_indep _ 0 (f 0)) by (rewrite length_map, range_length; lia).
  rewrite map_nth, range_nth by lia. f_equal. lia.
Qed.

Lemma point_rows (f : Z -> Z) (im : image8) :
  Forall (fun p => 0 <= p <= 255) (concat (rows im)) ->
  rows (PIL.point f im) = map (map f) (rows im).
Proof.
  intros F. unfold PIL.point. cbn [rows].
  induction (rows im) as [| r px IH]; [reflexivity |].
  cbn [concat] in F. apply List.Forall_app in F. destruct F as [Fr Fpx].
  cbn [map]. rewrite IH by assumption. f_equal.
  apply map_ext_in. intros p Hp. apply point_lut.
  rewrite List.Forall_forall in Fr. apply Fr. assumption.
Qed.

Lemma map_rows_id (f : Z -> Z) (px : list (list Z)) :
  (forall p, In p (concat px) -> f p = p) -> map (map f) px = px.
Proof.
  intros H. induction px as [| r px IH]; [reflexivity |].
  cbn [map concat] in *. rewrite IH by (intros p Hp; apply H, in_app_iff; tauto).
  f_equal. rewrite <- (map_id r) at 2. apply map_ext_in.
  intros p Hp. apply H, in_app_iff. tauto.
Qed.


(** C4. Step 6 leaves a binary image unchanged, so applying it twice
    gives what applying it once gives. *)
Theorem binarization_idempotent (im : image8) :
  image8_ok im = true -> is_binary im = true ->
  Backend.step6 im = im
  /\ Backend.step6 (Backend.step6 im) = Backend.step6 im.
Proof.
  intros Hok Hbin.
  assert (E : Backend.step6 im = im).
  { destruct (image8_ok_pixels im Hok) as [F _].
    pose proof (otsu_threshold_range im Hok) as Ht.
    unfold Backend.step6. set (t := Backend._otsu_threshold im) in *.
    pose proof (point_rows (fun p => if p >? t then 255 else 0) im F) as Hr.
    unfold is_binary in Hbin. rewrite forallb_rows, List.Forall_forall in Hbin.
    rewrite map_rows_id in Hr.
    - destruct im as [w hh px]. unfold PIL.point in *. cbn [rows xsize ysize] in *.
      rewrite Hr. reflexivity.
    - intros p Hp. specialize (Hbin p Hp). cbv beta in Hbin.
      apply orb_true_iff in Hbin. destruct Hbin as [E | E]; apply Z.eqb_eq in E; subst p.
      + destruct (Z.gtb_spec 0 t); [lia | reflexivity].
      + destruct (Z.gtb_spec 255 t); [reflexivity | lia]. }
  split; [exact E | rewrite E; exact E].
Qed.

(** C8 (amended). When all pixels have one of two values [a < b] and
    both values occur, the threshold is the lower value [a] itself: it
    separates the two peaks ([a <= t < b]) without lying strictly above
    the lower one. *)
Theorem otsu_two_peaks (im : image8) (a b : Z) :
  image8_ok im = true -> two_valued im a b = true -> a < b ->
  Backend._otsu_threshold im = a
  /\ a <= Backend._otsu_threshold im < b.
Proof.
  intros Hok Htwo Hab.
  assert (Backend._otsu_threshold im = a) as E; [| rewrite E; lia].
  destruct (image8_ok_pixels im Hok) as [F _].
  assert (Hnn : Forall (fun p => 0 <= p) (concat (rows im))).
  { eapply List.Forall_impl; [| exact F]. intros p Hp. cbv beta in *. lia. }
  unfold two_valued in Htwo. rewrite !andb_true_iff in Htwo.
  destruct Htwo as [[Hall Ha] Hb].
  rewrite forallb_rows, List.Forall_forall in Hall.
  apply existsb_rows in Ha, Hb.
  destruct Ha as (pa & Hina & Ea). destruct Hb as (pb & Hinb & Eb).
  apply Z.eqb_eq in Ea, Eb. subst pa pb.
  rewrite List.Forall_forall in F.
  pose proof (F a Hina) as Ra. pose proof (F b Hinb) as Rb. cbv beta in Ra, Rb.
  assert (Hsa : splits (PIL.histogram im) (Z.of_nat (xsize im) * Z.of_nat (ysize im)) a).
  { apply splits_image; [exact Hok |]. split; [lia |]. split.
    - exists a. split; [assumption | lia].
    - exists b. split; [assumption | lia]. }
  destruct (otsu_threshold_cases im Hok) as [[Hno _] | (Hs & _ & Hfirst)];
    [destruct (Hno _ Hsa) |].
  set (t := Backend._otsu_threshold im) in *.
  pose proof Hs as Hs'. apply splits_image in Hs'; [| exact Hok].
  destruct Hs' as (Ht & (p & Hp & Hle) & (q & Hq & Hlt)).
  assert (Hpa : p = a \/ p = b).
  { specialize (Hall p Hp). cbv beta in Hall. apply orb_true_iff in Hall.
    destruct Hall as [H | H]; apply Z.eqb_eq in H; tauto. }
  assert (Hqb : q = a \/ q = b).
  { specialize (Hall q Hq). cbv beta in Hall. apply orb_true_iff in Hall.
    destruct Hall as [H | H]; apply Z.eqb_eq in H; tauto. }
  assert (Hrange : a <= t < b) by lia.
  destruct (Z.eq_dec t a) as [Eq | Hne]; [exact Eq | exfalso].
  specialize (Hfirst a Hsa ltac:(lia)).
  rewrite (score_same_class im _ a t) in Hfirst; try assumption; try lia.
  - lra.
  - intros r Hr. specialize (Hall r Hr). cbv beta in Hall.
    apply orb_true_iff in Hall.
    destruct Hall as [H | H]; apply Z.eqb_eq in H; subst r.
    + destruct (Z.ltb_spec a (a + 1)), (Z.ltb_spec a (t + 1)); try reflexivity; lia.
    + destruct (Z.ltb_spec b (a + 1)), (Z.ltb_spec b (t + 1)); try reflexivity; lia.
Qed.

(** ** Steps 8 and 9: sizes *)

Lemma resize_size_agrees (im : image8) (size : Z * Z) :
  size_agrees (PIL.resize im size)
    (resize_size (Z.of_nat (xsize im), Z.of_nat (ysize im)) size).
Proof.
  destruct size as [w h]. unfold PIL.resize, resize_size, size_agrees.
  destruct ((w =? Z.of_nat (xsize im)) && (h =? Z.of_nat (ysize im))); [split; reflexivity |].
  destruct ((w <? 1) || (h <? 1)) eqn:E; [reflexivity |].
  apply orb_false_iff in E. destruct E as [E1 E2]. apply Z.ltb_ge in E1, E2.
  cbn [PIL.ImagingResample xsize ysize]. lia.
Qed.

Lemma step9_size_agrees (im : image8) :
  size_agrees (Backend.step9 im)
    (step9_size (Z.of_nat (xsize im)) (Z.of_nat (ysize im))).
Proof.
  unfold Backend.step9, step9_size.
  set (w := Z.of_nat (xsize im)). set (h := Z.of_nat (ysize im)).
  destruct (Z.min w h <? 400).
  - destruct (B64.truediv 400 (Z.min w h)) as [scale | e]; cbn [rbind]; [| reflexivity].
    pose proof (resize_size_agrees im
      (B64.trunc (B64.int_mul w scale), B64.trunc (B64.int_mul h scale))) as H1.
    fold w h in H1.
    destruct (PIL.resize im _) as [im1 | e1], (resize_size (w, h) _) as [[w1 h1] | e1'];
      cbn [size_agrees rbind fst snd] in *; try contradiction; [| exact H1].
    destruct H1 as [<- <-].
    destruct (Z.max (Z.of_nat (xsize im1)) (Z.of_nat (ysize im1)) >? 1500).
    + destruct (B64.truediv 1500 _) as [scale2 | e2]; cbn [rbind]; [| reflexivity].
      apply resize_size_agrees.
    + split; reflexivity.
  - cbn [rbind].
    destruct (Z.max w h >? 1500).
    + destruct (B64.truediv 1500 _) as [scale2 | e2]; cbn [rbind]; [| reflexivity].
      apply resize_size_agrees.
    + split; reflexivity.
Qed.

(** Step 9 returns exactly when its size arithmetic does, and then the
    image has the computed size. *)
Lemma step9_returns (im : image8) (w h : Z) :
  step9_size (Z.of_nat (xsize im)) (Z.of_nat (ysize im)) = Ok (w, h) ->
  exists out, Backend.step9 im = Ok out
              /\ Z.of_nat (xsize out) = w /\ Z.of_nat (ysize out) = h.
Proof.
  intros E. pose proof (step9_size_agrees im) as H. rewrite E in H.
  destruct (Backend.step9 im) as [out | e]; [| destruct H].
  exists out. split; [reflexivity | exact H].
Qed.

Lemma step8_size (im : image8) :
  let cropped := ((16 <? xsize im) && (16 <? ysize im))%nat in
  xsize (Backend.step8 im) = (if cropped then xsize im - 6 + 30 else xsize im + 30)%nat
  /\ ysize (Backend.step8 im) = (if cropped then ysize im - 6 + 30 else ysize im + 30)%nat.
Proof.
  unfold Backend.step8. cbn -[Nat.ltb PIL.crop].
  destruct ((16 <? xsize im)%nat && (16 <? ysize im)%nat);
    cbn [PIL.crop xsize ysize]; lia.
Qed.

Lemma truediv_nonzero (a b : Z) : b <> 0 -> exists q, B64.truediv a b = Ok q.
Proof.
  intros H. unfold B64.truediv. destruct (Z.eqb_spec b 0); [contradiction | eauto].
Qed.

Lemma resize_raises (im : image8) (size : Z * Z) (e : exn) :
  PIL.resize im size = Raise e -> e = ValueError.
Proof.
  destruct size as [w h]. unfold PIL.resize.
  destruct (_ && _); [discriminate |]. destruct (_ || _); [| discriminate].
  intros H. injection H as <-. reflexivity.
Qed.

(** Step 9 divides by a dimension that is not zero. *)
Lemma step9_no_zero_division (im : image8) :
  (0 < xsize im)%nat -> (0 < ysize im)%nat ->
  Backend.step9 im <> Raise ZeroDivisionError.
Proof.
  intros Hx Hy. unfold Backend.step9.
  set (w := Z.of_nat (xsize im)). set (h := Z.of_nat (ysize im)).
  assert (Hmin : Z.min w h <> 0) by (unfold w, h; lia).
  destruct (Z.min w h <? 400).
  - destruct (truediv_nonzero 400 _ Hmin) as [scale ->]. cbn [rbind].
    destruct (PIL.resize im _) as [im1 | e1] eqn:E1; cbn [rbind].
    + destruct (Z.gtb_spec (Z.max (Z.of_nat (xsize im1)) (Z.of_nat (ysize im1))) 1500) as [Hgt | Hle];
        [| discriminate].
      destruct (truediv_nonzero 1500 (Z.max (Z.of_nat (xsize im1)) (Z.of_nat (ysize im1))))
        as [scale2 ->]; [lia |]. cbn [rbind].
      destruct (PIL.resize im1 _) as [im2 | e2] eqn:E2; [discriminate |].
      apply resize_raises in E2. subst e2. discriminate.
    + apply resize_raises in E1. subst e1. discriminate.
  - cbn [rbind].
    destruct (Z.gtb_spec (Z.max w h) 1500) as [Hgt | Hle]; [| discriminate].
    destruct (truediv_nonzero 1500 (Z.max w h)) as [scale2 ->]; [lia |]. cbn [rbind].
    destruct (PIL.resize im _) as [im2 | e2] eqn:E2; [discriminate |].
    apply resize_raises in E2. subst e2. discriminate.
Qed.

(** C10. For every image with positive width and height entering step
    8, the crop box (when the crop happens) keeps at least 11 pixels in
    each direction, both dimensions are at least 31 when step 9 runs, and
    step 9 does not raise [ZeroDivisionError]. *)
Theorem step9_never_divides_by_zero (im : image8) :
  (0 < xsize im)%nat -> (0 < ysize im)%nat ->
  (((16 <? xsize im) && (16 <? ysize im))%nat = true ->
     (11 <= xsize im - 3 - 3 /\ 11 <= ysize im - 3 - 3)%nat)
  /\ (31 <= xsize (Backend.step8 im))%nat
  /\ (31 <= ysize (Backend.step8 im))%nat
  /\ 0 < Z.min (Z.of_nat (xsize (Backend.step8 im))) (Z.of_nat (ysize (Backend.step8 im)))
  /\ Backend.step9 (Backend.step8 im) <> Raise ZeroDivisionError.
Proof.
  intros Hx Hy. destruct (step8_size im) as [Ex Ey]. cbv zeta in Ex, Ey.
  assert (H31 : (31 <= xsize (Backend.step8 im) /\ 31 <= ysize (Backend.step8 im))%nat).
  { rewrite Ex, Ey.
    destruct ((16 <? xsize im)%nat && (16 <? ysize im)%nat) eqn:E; [| lia].
    apply andb_true_iff in E. destruct E as [E1 E2]. apply Nat.ltb_lt in E1, E2. lia. }
  split; [| split; [lia | split; [lia | split; [lia |]]]].
  - intros E. apply andb_true_iff in E. destruct E as [E1 E2].
    apply Nat.ltb_lt in E1, E2. lia.
  - apply step9_no_zero_division; lia.
Qed.

Lemma sizes_with_in (w lo : Z) (n : nat) (a b : Z) :
  (a = w /\ lo <= b < lo + Z.of_nat n) \/ (b = w /\ lo <= a < lo + Z.of_nat n) ->
  In (a, b) (sizes_with w lo n).
Proof.
  intros H. unfold sizes_with. apply in_flat_map.
  destruct H as [[-> Hb] | [-> Ha]].
  - exists (Z.to_nat (b - lo)). split; [apply in_seq; lia |].
    left. f_equal. lia.
  - exists (Z.to_nat (a - lo)). split; [apply in_seq; lia |].
    right. left. f_equal. lia.
Qed.

(** Sizes with the smaller dimension 100 and the larger at most 375:
    both dimensions are multiplied by 4. *)
Lemma step9_size_upscale_100 :
  forallb (fun s => match step9_size (fst s) (snd s) with
                    | Ok (w, h) => (w =? 4 * fst s) && (h =? 4 * snd s)
                    | Raise _ => false
                    end)
    (sizes_with 100 100 276) = true.
Proof. vm_compute. reflexivity. Qed.

(** Sizes with the larger dimension 3000 and the smaller at least 400:
    both dimensions are halved. *)
Lemma step9_size_downscale_3000 :
  forallb (fun s => match step9_size (fst s) (snd s) with
                    | Ok (w, h) => (w =? fst s / 2) && (h =? snd s / 2)
                    | Raise _ => false
                    end)
    (sizes_with 3000 400 2601) = true.
Proof. vm_compute. reflexivity. Qed.

(** The products are truncated, not rounded: for a 97 x 97 image the
    factor [400 / 97] times 97 is just below 400, and the image is resized
    to 399 x 399. *)
Lemma step9_size_97 : step9_size 97 97 = Ok (399, 399).
Proof. vm_compute. reflexivity. Qed.

(** C2, as stated, fails: an image that enters step 9 with
    [min_dim = 100] and [max_dim = 1000] is upscaled to 400 x 4000 and
    then, measured on the upscaled image, downscaled to 150 x 1500: it
    leaves with [min_dim = 150], not 400. *)
Lemma resolution_min_dim_100_counterexample :
  let im := PIL.new8 100 1000 255 in
  Z.min (Z.of_nat (xsize im)) (Z.of_nat (ysize im)) = 100
  /\ exists out, Backend.step9 im = Ok out
       /\ Z.min (Z.of_nat (xsize out)) (Z.of_nat (ysize out)) = 150
       /\ Z.min (Z.of_nat (xsize out)) (Z.of_nat (ysize out)) <> 400.
Proof.
  cbv zeta. split; [reflexivity |].
  destruct (step9_returns (PIL.new8 100 1000 255) 150 1500) as (out & Eo & Ex & Ey).
  - cbn [PIL.new8 xsize ysize]. vm_compute. reflexivity.
  - exists out. rewrite Ex, Ey. split; [exact Eo |]. split; [reflexivity | discriminate].
Qed.

(** ** Resampling: one pixel at a time *)

Lemma nth_error_seq0 (n i : nat) : (i < n)%nat -> nth_error (seq 0 n) i = Some i.
Proof.
  intros H. rewrite (nth_error_nth' _ 0%nat) by (rewrite length_seq; assumption).
  rewrite seq_nth by assumption. reflexivity.
Qed.

Lemma nth_error_map_seq {A : Type} (f : nat -> A) (n i : nat) :
  (i < n)%nat -> nth_error (map f (seq 0 n)) i = Some (f i).
Proof.
  intros H. rewrite nth_error_map, nth_error_seq0 by assumption. reflexivity.
Qed.

Lemma column_resample_line (coeffs : list (Z * list Z)) (xx : nat) (c : Z * list Z)
    (px : list (list Z)) :
  nth_error coeffs xx = Some c ->
  PIL.column xx (map (PIL.resample_line coeffs) px) = map (PIL.resample_pixel c) px.
Proof.
  intros Hc. unfold PIL.column. rewrite map_map. apply map_ext. intros r.
  apply nth_error_nth. unfold PIL.resample_line.
  rewrite nth_error_map, Hc. reflexivity.
Qed.

(** A pixel of the resampled image, when both dimensions change: the
    vertical sum over the horizontal sums. *)
Lemma ImagingResample_pixel (im : image8) (w h xx yy : nat) :
  w <> xsize im -> h <> ysize im -> (xx < w)%nat -> (yy < h)%nat ->
  getpixel (PIL.ImagingResample im w h) xx yy
  = Some (PIL.resample_pixel (PIL.coeff_8bpc (ysize im) h yy)
            (map (PIL.resample_pixel (PIL.coeff_8bpc (xsize im) w xx)) (rows im))).
Proof.
  intros Hw Hh Hx Hy. unfold getpixel, PIL.ImagingResample. cbn [rows].
  destruct (Nat.eqb_spec w (xsize im)); [contradiction |].
  destruct (Nat.eqb_spec h (ysize im)); [contradiction |].
  unfold PIL.resample_vertical.
  rewrite nth_error_map.
  assert (Ev : nth_error (PIL.coeffs_8bpc (ysize im) h) yy
               = Some (PIL.coeff_8bpc (ysize im) h yy)).
  { unfold PIL.coeffs_8bpc. apply nth_error_map_seq. assumption. }
  rewrite Ev. cbn [option_map].
  rewrite nth_error_map_seq by assumption.
  rewrite (column_resample_line _ xx (PIL.coeff_8bpc (xsize im) w xx)).
  - reflexivity.
  - unfold PIL.coeffs_8bpc. apply nth_error_map_seq. assumption.
Qed.

(** Step 9 when only the upscaling applies. *)
Lemma step9_upscale (im : image8) (scale : Q) (w' h' : Z) :
  Z.min (Z.of_nat (xsize im)) (Z.of_nat (ysize im)) < 400 ->
  B64.truediv 400 (Z.min (Z.of_nat (xsize im)) (Z.of_nat (ysize im))) = Ok scale ->
  B64.trunc (B64.int_mul (Z.of_nat (xsize im)) scale) = w' ->
  B64.trunc (B64.int_mul (Z.of_nat (ysize im)) scale) = h' ->
  w' <> Z.of_nat (xsize im) -> 1 <= w' -> 1 <= h' -> Z.max w' h' <= 1500 ->
  Backend.step9 im = Ok (PIL.ImagingResample im (Z.to_nat w') (Z.to_nat h')).
Proof.
  intros Hmin Hs Ew Eh Hne Hw Hh Hmax. unfold Backend.step9.
  destruct (Z.ltb_spec (Z.min (Z.of_nat (xsize im)) (Z.of_nat (ysize im))) 400); [| lia].
  rewrite Hs. cbn [rbind]. rewrite Ew, Eh. unfold PIL.resize.
  destruct (Z.eqb_spec w' (Z.of_nat (xsize im))); [contradiction |]. cbn [andb].
  destruct (Z.ltb_spec w' 1); [lia |]. destruct (Z.ltb_spec h' 1); [lia |].
  cbn [orb rbind PIL.ImagingResample xsize ysize].
  rewrite !Z2Nat.id by lia.
  destruct (Z.gtb_spec (Z.max w' h') 1500); [lia | reflexivity].
Qed.

(** ** Binary images through steps 6 to 8 *)

Lemma is_binary_rows (im : image8) :
  is_binary im = true <-> Forall (Forall bw) (rows im).
Proof.
  unfold is_binary. induction (rows im) as [| r px IH]; cbn [forallb].
  - split; [constructor | reflexivity].
  - rewrite andb_true_iff, IH, List.Forall_cons_iff, forallb_forall.
    rewrite (List.Forall_forall bw r). unfold bw.
    split; intros [H1 H2]; (split; [| exact H2]); intros p Hp; specialize (H1 p Hp).
    + apply orb_true_iff in H1. rewrite !Z.eqb_eq in H1. exact H1.
    + apply orb_true_iff. rewrite !Z.eqb_eq. exact H1.
Qed.

Lemma point_binary (f : Z -> Z) (im : image8) :
  (forall p, bw (f p)) -> is_binary (PIL.point f im) = true.
Proof.
  intros Hf. apply is_binary_rows. unfold PIL.point. cbn [rows].
  apply List.Forall_forall. intros r Hr. apply in_map_iff in Hr.
  destruct Hr as (r0 & <- & _). apply List.Forall_forall. intros q Hq.
  apply in_map_iff in Hq. destruct Hq as (p & <- & _).
  destruct (Nat.lt_ge_cases (Z.to_nat p) (length (map f (range 256)))) as [Hlt | Hge].
  - pose proof (nth_In (map f (range 256)) 0 Hlt) as Hin.
    apply in_map_iff in Hin. destruct Hin as (v & <- & _). apply Hf.
  - rewrite nth_overflow by assumption. left. reflexivity.
Qed.

Lemma step6_binary (im : image8) : is_binary (Backend.step6 im) = true.
Proof.
  unfold Backend.step6. apply point_binary. intros p. unfold bw.
  destruct (p >? _); tauto.
Qed.

Lemma insert_sorted_In (a x : Z) (l : list Z) :
  In x (insert_sorted a l) <-> x = a \/ In x l.
Proof.
  induction l as [| b l IH]; cbn [insert_sorted In].
  - intuition congruence.
  - destruct (a <=? b); cbn [In]; rewrite ?IH; intuition congruence.
Qed.

Lemma sort_In (x : Z) (l : list Z) : In x (sort l) <-> In x l.
Proof.
  induction l as [| a l IH]; cbn [sort In]; [reflexivity |].
  rewrite insert_sorted_In, IH. intuition congruence.
Qed.

Lemma windows3_In {A : Type} (l : list A) (a b c : A) :
  In (a, b, c) (PIL.windows3 l) -> In a l /\ In b l /\ In c l.
Proof.
  induction l as [| x l IH]; [intros [] |].
  destruct l as [| y [| z l']]; [intros [] | intros [] |].
  change (PIL.windows3 (x :: y :: z :: l'))
    with ((x, y, z) :: PIL.windows3 (y :: z :: l')).
  intros [E | Hin].
  - injection E as <- <- <-. cbn. tauto.
  - specialize (IH Hin). cbn [In] in *. tauto.
Qed.

Lemma rank_window_bw (rank : nat) (w : (Z * Z * Z) * (Z * Z * Z) * (Z * Z * Z)) :
  (let '((a0, a1, a2), (b0, b1, b2), (c0, c1, c2)) := w in
   bw a0 /\ bw a1 /\ bw a2 /\ bw b0 /\ bw b1 /\ bw b2 /\ bw c0 /\ bw c1 /\ bw c2) ->
  bw (PIL.rank_window rank w).
Proof.
  destruct w as [[[[a0 a1] a2] [[b0 b1] b2]] [[c0 c1] c2]]. intros H.
  unfold PIL.rank_window.
  set (l := [a0; a1; a2; b0; b1; b2; c0; c1; c2]).
  destruct (Nat.lt_ge_cases rank (length (sort l))) as [Hlt | Hge].
  - pose proof (nth_In (sort l) 0 Hlt) as Hin. apply (proj1 (sort_In _ _)) in Hin.
    generalize dependent (nth rank (sort l) 0). intros x Hin.
    unfold l in Hin. cbn [In] in Hin.
    destruct Hin as [E | [E | [E | [E | [E | [E | [E | [E | [E | []]]]]]]]]];
      rewrite <- E; tauto.
  - rewrite nth_overflow by assumption. left. reflexivity.
Qed.

(** A run of one value satisfies what the value satisfies. *)
Lemma repeat_all {A : Type} (P : A -> Prop) (n : nat) (a : A) :
  P a -> Forall P (repeat a n).
Proof.
  intros H. induction n as [| n IH]; cbn [repeat]; constructor; assumption.
Qed.

Lemma expand_edge_row_bw (margin : nat) (r : list Z) :
  Forall bw r -> Forall bw (PIL.expand_edge_row margin r).
Proof.
  intros H. unfold PIL.expand_edge_row.
  assert (Hhd : bw (hd 0 r)).
  { destruct H; [left; reflexivity | assumption]. }
  assert (Hlast : bw (List.last r 0)).
  { destruct r as [| a r]; [left; reflexivity |].
    rewrite List.Forall_forall in H. apply H.
    destruct (exists_last (l := a :: r) ltac:(discriminate)) as (l' & z & E).
    rewrite E, last_last. apply in_or_app. right. left. reflexivity. }
  rewrite !List.Forall_app. repeat split; try assumption.
  - apply repeat_all. assumption.
  - apply repeat_all. assumption.
Qed.

Lemma expand_edge_bw (margin : nat) (px : list (list Z)) :
  Forall (Forall bw) px -> Forall (Forall bw) (PIL.expand_edge margin px).
Proof.
  intros H. unfold PIL.expand_edge.
  set (px' := map (PIL.expand_edge_row margin) px).
  assert (H' : Forall (Forall bw) px').
  { unfold px'. apply List.Forall_forall. intros r Hr. apply in_map_iff in Hr.
    destruct Hr as (r0 & <- & Hr0). apply expand_edge_row_bw.
    rewrite List.Forall_forall in H. apply H. assumption. }
  assert (Hhd : Forall bw (hd [] px')).
  { destruct H'; [constructor | assumption]. }
  assert (Hlast : Forall bw (List.last px' [])).
  { destruct px' as [| a r]; [constructor |].
    rewrite List.Forall_forall in H'. apply H'.
    destruct (exists_last (l := a :: r) ltac:(discriminate)) as (l' & z & E).
    rewrite E, last_last. apply in_or_app. right. left. reflexivity. }
  rewrite !List.Forall_app. repeat split; try assumption.
  - apply repeat_all. assumption.
  - apply repeat_all. assumption.
Qed.

Lemma rankfilter3_bw (rank : nat) (px : list (list Z)) :
  Forall (Forall bw) px -> Forall (Forall bw) (PIL.rankfilter3 rank px).
Proof.
  intros H. rewrite List.Forall_forall in H. unfold PIL.rankfilter3.
  apply List.Forall_forall. intros r Hr. apply in_map_iff in Hr.
  destruct Hr as ([[r0 r1] r2] & <- & Hw). apply windows3_In in Hw.
  destruct Hw as (H0 & H1 & H2). apply H in H0, H1, H2.
  rewrite List.Forall_forall in H0, H1, H2.
  unfold PIL.rank_rows. apply List.Forall_forall. intros q Hq.
  apply in_map_iff in Hq. destruct Hq as (w & <- & Hw).
  destruct w as [[[[a0 a1] a2] [[b0 b1] b2]] [[c0 c1] c2]].
  apply in_combine_l in Hw as Hab. apply in_combine_r in Hw as Hc.
  apply in_combine_l in Hab as Ha. apply in_combine_r in Hab as Hb.
  apply windows3_In in Ha, Hb, Hc.
  apply rank_window_bw. intuition auto.
Qed.

Lemma step7_binary (im : image8) :
  is_binary im = true -> is_binary (Backend.step7 im) = true.
Proof.
  rewrite !is_binary_rows. intros H. unfold Backend.step7, PIL.median_filter3.
  cbn [rows]. apply rankfilter3_bw, expand_edge_bw. exact H.
Qed.

Lemma In_firstn {A : Type} (n : nat) (l : list A) (x : A) :
  In x (firstn n l) -> In x l.
Proof.
  revert l. induction n as [| n IH]; intros [| a l]; cbn [firstn In]; try tauto.
  intros [-> | H]; [left; reflexivity | right; apply IH; exact H].
Qed.

Lemma In_skipn {A : Type} (n : nat) (l : list A) (x : A) :
  In x (skipn n l) -> In x l.
Proof.
  revert l. induction n as [| n IH]; intros [| a l]; cbn [skipn In]; try tauto.
  intros H. right. apply IH. exact H.
Qed.

Lemma Forall_firstn_skipn {A : Type} (P : A -> Prop) (n m : nat) (l : list A) :
  Forall P l -> Forall P (firstn n (skipn m l)).
Proof.
  intros H. rewrite List.Forall_forall in *. intros x Hx.
  apply H. eapply In_skipn. eapply In_firstn. exact Hx.
Qed.

Lemma crop_bw (im : image8) (box : nat * nat * nat * nat) :
  Forall (Forall bw) (rows im) -> Forall (Forall bw) (rows (PIL.crop im box)).
Proof.
  intros H. destruct box as [[[x0 y0] x1] y1]. unfold PIL.crop. cbn [rows].
  apply List.Forall_forall. intros r Hr. apply in_map_iff in Hr.
  destruct Hr as (r0 & <- & Hr0). apply Forall_firstn_skipn.
  pose proof (Forall_firstn_skipn (Forall bw) (y1 - y0) y0 (rows im) H) as Hf.
  rewrite List.Forall_forall in Hf. apply Hf. exact Hr0.
Qed.

Lemma expand_bw (im : image8) (border : nat) (fill : Z) :
  bw fill -> Forall (Forall bw) (rows im) ->
  Forall (Forall bw) (rows (PIL.expand im border fill)).
Proof.
  intros Hw Hc. unfold PIL.expand. cbn [rows].
  assert (Hrep : forall n, Forall bw (repeat fill n))
    by (intros n; apply repeat_all; exact Hw).
  rewrite !List.Forall_app. repeat split.
  - apply repeat_all. apply Hrep.
  - apply List.Forall_forall. intros r Hr. apply in_map_iff in Hr.
    destruct Hr as (r0 & <- & Hr0). rewrite !List.Forall_app.
    rewrite List.Forall_forall in Hc. repeat split; try apply Hrep. apply Hc. exact Hr0.
  - apply repeat_all. apply Hrep.
Qed.

Lemma step8_binary (im : image8) :
  is_binary im = true -> is_binary (Backend.step8 im) = true.
Proof.
  rewrite !is_binary_rows. intros H. unfold Backend.step8.
  apply expand_bw; [right; reflexivity |].
  destruct (_ && _)%bool; [apply crop_bw |]; exact H.
Qed.

(** Whatever enters, the image that leaves step 8 is binary. *)
Lemma steps1_8_binary (img : Image) (g : image8) :
  Backend.steps1_8 img = Ok g -> is_binary g = true.
Proof.
  unfold Backend.steps1_8.
  destruct (Backend.step3 _) as [im3 | e]; cbn [rbind]; [| discriminate].
  destruct (Backend.step5 _) as [im5 | e]; cbn [rbind]; [| discriminate].
  intros E. injection E as <-.
  apply step8_binary, step7_binary, step6_binary.
Qed.

Lemma step9_identity (im : image8) :
  400 <= Z.min (Z.of_nat (xsize im)) (Z.of_nat (ysize im)) ->
  Z.max (Z.of_nat (xsize im)) (Z.of_nat (ysize im)) <= 1500 ->
  Backend.step9 im = Ok im.
Proof.
  intros Hmin Hmax. unfold Backend.step9.
  destruct (Z.ltb_spec (Z.min (Z.of_nat (xsize im)) (Z.of_nat (ysize im))) 400); [lia |].
  cbn [rbind].
  destruct (Z.gtb_spec (Z.max (Z.of_nat (xsize im)) (Z.of_nat (ysize im))) 1500);
    [lia | reflexivity].
Qed.

(** C1 (amended). Whenever the pipeline returns, the result is a
    single-channel (mode [L]) image; the image that enters step 9 is
    binary, and it is the result when step 9 does not resample, that is
    when its smaller dimension is at least 400 and its larger at most
    1500. *)
Theorem preprocess_output_binary_unless_resampled (img out : Image) :
  Backend.preprocess_image img = Ok out ->
  image_mode out = L
  /\ exists g, Backend.steps1_8 img = Ok g
       /\ is_binary g = true
       /\ (400 <= Z.min (Z.of_nat (xsize g)) (Z.of_nat (ysize g)) ->
           Z.max (Z.of_nat (xsize g)) (Z.of_nat (ysize g)) <= 1500 ->
           out = ImageL g).
Proof.
  unfold Backend.preprocess_image.
  destruct (Backend.steps1_8 img) as [g | e] eqn:E18; cbn [rbind]; [| discriminate].
  destruct (Backend.step9 g) as [g9 | e] eqn:E9; cbn [rbind]; [| discriminate].
  intros E. injection E as <-. split; [reflexivity |].
  exists g. split; [reflexivity |]. split; [eapply steps1_8_binary; exact E18 |].
  intros Hmin Hmax. rewrite step9_identity in E9 by assumption.
  injection E9 as <-. reflexivity.
Qed.

Lemma two_columns_steps1_8 : Backend.steps1_8 two_columns = Ok two_columns_padded.
Proof. vm_compute. reflexivity. Qed.

Lemma two_columns_step9 :
  Backend.step9 two_columns_padded
  = Ok (PIL.ImagingResample two_columns_padded 400 400).
Proof.
  apply (step9_upscale two_columns_padded (25 # 2) 400 400);
    try (vm_compute; reflexivity); try lia.
  vm_compute. discriminate.
Qed.

Lemma two_columns_preprocess :
  Backend.preprocess_image two_columns
  = Ok (ImageL (PIL.ImagingResample two_columns_padded 400 400)).
Proof.
  unfold Backend.preprocess_image.
  rewrite two_columns_steps1_8. cbn [rbind]. rewrite two_columns_step9. reflexivity.
Qed.

(** C1, as stated, fails: on a 2 x 2 grayscale image with a white and a
    black column the pipeline upscales the binary 32 x 32 image of step 8
    to 400 x 400 with the Lanczos filter, and the pixel at (187, 187) of
    the result is the gray value 181. *)
Lemma preprocess_output_gray_counterexample :
  image_ok two_columns = true
  /\ image_mode two_columns = L
  /\ exists out, Backend.preprocess_image two_columns = Ok (ImageL out)
       /\ getpixel out 187 187 = Some 181
       /\ is_binary out = false.
Proof.
  split; [reflexivity |]. split; [reflexivity |].
  exists (PIL.ImagingResample two_columns_padded 400 400).
  split; [exact two_columns_preprocess |].
  assert (Hp : getpixel (PIL.ImagingResample two_columns_padded 400 400) 187 187 = Some 181).
  { rewrite ImagingResample_pixel; [| cbn; lia ..]. vm_compute. reflexivity. }
  split; [exact Hp |].
  destruct (is_binary _) eqn:Eb; [| reflexivity].
  apply is_binary_rows in Eb. unfold getpixel in Hp.
  destruct (nth_error (rows _) 187) as [r |] eqn:Er; [| discriminate].
  apply nth_error_In in Er, Hp. rewrite List.Forall_forall in Eb.
  specialize (Eb r Er). rewrite List.Forall_forall in Eb. specialize (Eb 181 Hp).
  destruct Eb; discriminate.
Qed.

(** A witness for [preprocess_output_binary_unless_resampled]. *)
Lemma preprocess_output_witness :
  image_mode (ImageL (PIL.ImagingResample two_columns_padded 400 400)) = L
  /\ exists g, Backend.steps1_8 two_columns = Ok g /\ is_binary g = true.
Proof.
  destruct (preprocess_output_binary_unless_resampled two_columns _ two_columns_preprocess)
    as (Hm & g & E & Hb & _).
  split; [exact Hm |]. exists g. split; assumption.
Defined.

(** ** Step 5: contrast *)

Lemma trunc_floor (a : Q) : (0 <= a)%Q -> B64.trunc a = Qfloor a.
Proof.
  intros H. destruct a as [n d]. unfold B64.trunc, Qfloor. cbn [Qnum Qden].
  unfold Qle in H. cbn in H. apply Z.quot_div_nonneg; lia.
Qed.

Lemma blend_pixel_formula (m p : Z) :
  PIL.blend_pixel (3 # 2) m p = contrast_formula m p.
Proof.
  unfold PIL.blend_pixel, contrast_formula.
  set (temp := (inject_Z m + (3 # 2) * (inject_Z p - inject_Z m))%Q).
  change (Qle_bool 0 (3 # 2) && Qle_bool (3 # 2) 1) with false. cbv iota.
  unfold clip8.
  destruct (Qle_bool temp 0) eqn:E0.
  - apply Qle_bool_iff in E0. apply Qfloor_resp_le in E0.
    change (Qfloor 0) with 0 in E0. lia.
  - assert (H0 : (0 < temp)%Q).
    { apply Qnot_le_lt. intro Hc. apply Qle_bool_iff in Hc. congruence. }
    destruct (Qle_bool 255 temp) eqn:E1.
    + apply Qle_bool_iff in E1. apply Qfloor_resp_le in E1.
      change (Qfloor 255) with 255 in E1. lia.
    + assert (H1 : (temp < 255)%Q).
      { apply Qnot_le_lt. intro Hc. apply Qle_bool_iff in Hc. congruence. }
      rewrite trunc_floor by lra.
      assert (0 <= Qfloor temp).
      { change 0 with (Qfloor 0). apply Qfloor_resp_le. lra. }
      assert (Qfloor temp <= 255).
      { change 255 with (Qfloor 255). apply Qfloor_resp_le. lra. }
      lia.
Qed.

Lemma combine_repeat_map {A B : Type} (f : Z -> A -> B) (m : Z) (n : nat) (r : list A) :
  length r = n ->
  map (fun '(p1, p2) => f p1 p2) (combine (repeat m n) r) = map (f m) r.
Proof.
  intros <-. induction r as [| a r IH]; [reflexivity |].
  cbn [length repeat combine map]. rewrite IH. reflexivity.
Qed.

Lemma blend_degenerate_rows (m : Z) (w h : nat) (px : list (list Z)) :
  length px = h -> Forall (fun r => length r = w) px ->
  map (fun '(r1, r2) =>
         map (fun '(p1, p2) => PIL.blend_pixel (3 # 2) p1 p2) (combine r1 r2))
    (combine (repeat (repeat m w) h) px)
  = map (map (contrast_formula m)) px.
Proof.
  intros <- F. induction F as [| r px Hr F IH]; [reflexivity |].
  cbn [length repeat combine map]. rewrite IH. f_equal.
  rewrite (combine_repeat_map (PIL.blend_pixel (3 # 2))) by exact Hr.
  apply map_ext. intros p. apply blend_pixel_formula.
Qed.

(** C5, as stated, fails: in a row of three white pixels and one pixel
    of value 100 the rounded mean is 216, and step 5 maps the dark pixel
    to 42, whereas scaling its deviation from 128 gives 86. *)
Lemma contrast_mid_gray_counterexample :
  image8_ok one_dark_pixel = true
  /\ Backend.steps1_8 (ImageL one_dark_pixel)
     = (let! im5 := Backend.step5 one_dark_pixel in
        Ok (Backend.step8 (Backend.step7 (Backend.step6 im5))))
  /\ getpixel one_dark_pixel 3 0 = Some 100
  /\ PIL.contrast_mean one_dark_pixel = Ok 216
  /\ (exists out, Backend.step5 one_dark_pixel = Ok out /\ getpixel out 3 0 = Some 42)
  /\ contrast_formula 128 100 = 86.
Proof.
  split; [reflexivity |]. split; [vm_compute; reflexivity |].
  split; [reflexivity |]. split; [vm_compute; reflexivity |].
  split; [| vm_compute; reflexivity].
  eexists. split; [vm_compute; reflexivity | reflexivity].
Qed.

(** ** The two preprocessing variants *)

Lemma backend_output_mode (img out : Image) :
  Backend.preprocess_image img = Ok out -> image_mode out = L.
Proof.
  unfold Backend.preprocess_image.
  destruct (Backend.steps1_8 img); cbn [rbind]; [| discriminate].
  destruct (Backend.step9 _); cbn [rbind]; [| discriminate].
  intros E. injection E as <-. reflexivity.
Qed.

Lemma minimal_output_mode (img : Image) :
  image_mode (Minimal.preprocess_image img) = RGB.
Proof.
  unfold Minimal.preprocess_image. destruct img as [im | im pal | w h px | w h px];
    cbn [image_mode]; try reflexivity;
    unfold PIL.convert_RGB; cbn [image_size]; reflexivity.
Qed.

(** On no input do the two variants return the same image. *)
Lemma variants_differ_everywhere (img out : Image) :
  Backend.preprocess_image img = Ok out -> out <> Minimal.preprocess_image img.
Proof.
  intros E Heq. apply backend_output_mode in E.
  rewrite Heq, minimal_output_mode in E. discriminate.
Qed.

Lemma two_columns_rgb_preprocess :
  exists out, Backend.preprocess_image two_columns_rgb = Ok (ImageL out).
Proof.
  unfold Backend.preprocess_image.
  assert (E : Backend.steps1_8 two_columns_rgb = Ok two_columns_padded)
    by (vm_compute; reflexivity).
  rewrite E. cbn [rbind]. rewrite two_columns_step9. cbn [rbind]. eauto.
Qed.

(** C9. The two preprocessing variants are not equivalent: on an RGB
    image with a white and a black column the minimal variant returns the
    RGB image unchanged and the full pipeline returns a single-channel
    image, so the outputs differ. *)
Theorem preprocessing_variants_differ :
  exists img out,
    image_ok img = true
    /\ image_mode img = RGB
    /\ Minimal.preprocess_image img = img
    /\ Backend.preprocess_image img = Ok out
    /\ image_mode out = L
    /\ out <> Minimal.preprocess_image img.
Proof.
  destruct two_columns_rgb_preprocess as (g & E).
  exists two_columns_rgb, (ImageL g).
  split; [reflexivity |]. split; [reflexivity |]. split; [reflexivity |].
  split; [exact E |]. split; [reflexivity |].
  apply variants_differ_everywhere. exact E.
Qed.

(** ** The adapter and the handler *)

(** The adapter logs one invocation and raises nothing that is an
    [Exception]. *)
Lemma recognize_spec (E : env) (p : path) (w : world) :
  exists r files,
    Backend.recognize_molecule_with_osra E p w
    = (r, World files (Backend.osra_argv p :: spawned w))
    /\ (forall e, r = Raise e -> is_Exception e = false).
Proof.
  unfold Backend.recognize_molecule_with_osra, try_except, bind, subprocess_run, ret.
  destruct (run_process E (Backend.osra_argv p) (fs w)) as [[cp | e] files].
  - exists (Ok (Backend.parse_osra cp)), files. split; [reflexivity | discriminate].
  - destruct e; cbn;
      try (exists (Ok None), files; split; [reflexivity | discriminate]).
    exists (Raise KeyboardInterrupt), files. split; [reflexivity |].
    intros e He. injection He as <-. reflexivity.
Qed.

(** When the engine fails, the adapter returns [None]. *)
Lemma recognize_failure (E : env) (p : path) (w : world) :
  engine_failed (fst (run_process E (Backend.osra_argv p) (fs w))) ->
  exists files,
    Backend.recognize_molecule_with_osra E p w
    = (Ok None, World files (Backend.osra_argv p :: spawned w)).
Proof.
  unfold Backend.recognize_molecule_with_osra, try_except, bind, subprocess_run, ret.
  destruct (run_process E (Backend.osra_argv p) (fs w)) as [[cp | e] files];
    cbn [fst engine_failed]; intros H.
  - exists files. f_equal. f_equal. unfold Backend.parse_osra.
    destruct H as [H | H].
    + destruct (Z.eqb_spec (returncode cp) 0); [contradiction | reflexivity].
    + rewrite H. destruct (returncode cp =? 0); reflexivity.
  - exists files. destruct e; first [discriminate H | reflexivity].
Qed.

(** The cleanup of the handler removes the file and raises nothing. *)
Lemma cleanup_spec (p : path) (w : world) :
  exists files,
    Backend.remove_temp_file p w = (Ok tt, World files (spawned w))
    /\ p ∉ files.
Proof.
  unfold Backend.remove_temp_file, bind, os_path_exists, os_unlink, ret.
  destruct (bool_decide (p ∈ fs w)) eqn:Ep.
  - rewrite Ep. exists (fs w ∖ {[ p ]}). split; [reflexivity |].
    apply not_elem_of_difference. right. apply elem_of_singleton. reflexivity.
  - exists (fs w). apply bool_decide_eq_false in Ep.
    destruct w as [files0 log]. split; [reflexivity | exact Ep].
Qed.

(** The guarded recognition: whatever the engine does, one invocation is
    logged, the temporary file is gone afterwards, and only an exception
    that is not an [Exception] can escape. *)
Lemma guarded_recognition_spec (E : env) (p : path) (w : world) :
  exists r files,
    try_finally (Backend.recognize_and_respond E p) (Backend.remove_temp_file p) w
    = (r, World files (Backend.osra_argv p :: spawned w))
    /\ (p ∉ files)
    /\ (forall e, r = Raise e -> is_Exception e = false).
Proof.
  destruct (recognize_spec E p w) as (r & files & Er & Hr).
  unfold try_finally, Backend.recognize_and_respond, bind. rewrite Er.
  destruct r as [smiles | e].
  - destruct (cleanup_spec p (World files (Backend.osra_argv p :: spawned w)))
      as (files' & Ec & Hp).
    destruct smiles as [smiles |]; [destruct (Str.truthy smiles) |];
      unfold ret; rewrite Ec; eexists _, files';
      (split; [reflexivity | split; [exact Hp | discriminate]]).
  - destruct (cleanup_spec p (World files (Backend.osra_argv p :: spawned w)))
      as (files' & Ec & Hp).
    rewrite Ec. exists (Raise e), files'.
    split; [reflexivity | split; [exact Hp |]].
    intros e0 He. injection He as <-. apply Hr. reflexivity.
Qed.

Lemma guarded_recognition_failure (E : env) (p : path) (w : world) :
  engine_failed (fst (run_process E (Backend.osra_argv p) (fs w))) ->
  exists files,
    try_finally (Backend.recognize_and_respond E p) (Backend.remove_temp_file p) w
    = (Ok (jsonify failure_body 200), World files (Backend.osra_argv p :: spawned w))
    /\ p ∉ files.
Proof.
  intros H. destruct (recognize_failure E p w H) as (files & Er).
  unfold try_finally, Backend.recognize_and_respond, bind. rewrite Er.
  destruct (cleanup_spec p (World files (Backend.osra_argv p :: spawned w)))
    as (files' & Ec & Hp).
  unfold ret. rewrite Ec. exists files'. split; [reflexivity | exact Hp].
Qed.

(** C6. Whenever the handler reaches the recognition call (the call is
    logged), the temporary file it was called on does not exist when the
    handler returns, whatever the outcome: a response after a recognized
    or an unrecognized structure, or an exception that escapes.  When the
    call is not reached nothing is logged. *)
Theorem temp_file_removed_on_every_exit (E : env) (req : request) (w : world) :
  let '(r, w') := Backend.analyze_molecule E req w in
  spawned w' = spawned w
  \/ exists temp_path,
       spawned w' = Backend.osra_argv temp_path :: spawned w
       /\ temp_path ∉ fs w'.
Proof.
  unfold Backend.analyze_molecule, try_except.
  destruct (files req !! "image") as [image_file |]; [| left; reflexivity].
  unfold bind at 1, lift at 1.
  destruct (Image_open E image_file) as [raw | e];
    [| destruct (is_Exception e); left; reflexivity].
  unfold bind at 1, lift at 1.
  destruct (Backend.preprocess_image raw) as [img | e];
    [| destruct (is_Exception e); left; reflexivity].
  unfold bind at 1, NamedTemporaryFile at 1.
  unfold bind at 1, Image_save at 1.
  set (temp_path := temp_name E (fs w)).
  destruct (save_image E img temp_path) as [saved | e];
    [| destruct (is_Exception e); left; reflexivity].
  set (w2 := World _ _).
  destruct (guarded_recognition_spec E temp_path w2) as (r & files & Eg & Hp & Hr).
  rewrite Eg. destruct r as [resp | e].
  - right. exists temp_path. split; [reflexivity | exact Hp].
  - rewrite (Hr e eq_refl). right. exists temp_path. split; [reflexivity | exact Hp].
Qed.

(** A request with a decodable image on which the preprocessing returns
    and which is saved reaches the recognition call. *)
Lemma analyze_reaches_engine (E : env) (req : request) (w : world)
    (image_file : string) (raw img : Image) :
  files req !! "image" = Some image_file ->
  Image_open E image_file = Ok raw ->
  Backend.preprocess_image raw = Ok img ->
  save_image E img (temp_name E (fs w)) = Ok tt ->
  exists r files,
    Backend.analyze_molecule E req w
    = (r, World files (Backend.osra_argv (temp_name E (fs w)) :: spawned w)).
Proof.
  intros Hf Ho Hp Hs. unfold Backend.analyze_molecule, try_except. rewrite Hf.
  unfold bind at 1, lift at 1. rewrite Ho.
  unfold bind at 1, lift at 1. rewrite Hp.
  unfold bind at 1, NamedTemporaryFile at 1.
  unfold bind at 1, Image_save at 1.
  set (temp_path := temp_name E (fs w)) in *. rewrite Hs.
  set (w2 := World _ _).
  destruct (guarded_recognition_spec E temp_path w2) as (r & files & Eg & _ & Hr).
  rewrite Eg. destruct r as [resp | e].
  - eexists _, files. reflexivity.
  - rewrite (Hr e eq_refl). eexists _, files. reflexivity.
Qed.

(** An instance of [temp_file_removed_on_every_exit] in which the call
    is reached: the engine is not installed, and the temporary file is
    gone when the handler returns. *)
Lemma temp_file_removed_witness :
  exists r w',
    Backend.analyze_molecule no_engine upload empty_world = (r, w')
    /\ spawned w' = [Backend.osra_argv "/tmp/tmpk3v9.png"]
    /\ "/tmp/tmpk3v9.png" ∉ fs w'.
Proof.
  pose proof (temp_file_removed_on_every_exit no_engine upload empty_world) as H.
  destruct (analyze_reaches_engine no_engine upload empty_world "PNG" two_columns _
              eq_refl eq_refl two_columns_preprocess eq_refl) as (r & files & E).
  rewrite E in H. exists r, (World files [Backend.osra_argv "/tmp/tmpk3v9.png"]).
  split; [exact E |]. split; [reflexivity |].
  destruct H as [H | (p & Hs & Hp)]; [discriminate H |].
  cbn [spawned empty_world] in Hs. injection Hs as <-. exact Hp.
Defined.

(** C7 (amended). For a request that carries a decodable image on which
    the preprocessing returns and which is saved to the temporary file, if
    the engine invocation fails (it times out, the executable is missing,
    it raises another [Exception], it exits with a non-zero status, or
    its standard output is empty), the adapter returns [None] and the
    handler answers with status 200 and the body [success: false] with
    an error string. *)
Theorem engine_failure_is_not_an_http_error (E : env) (req : request) (w : world)
    (image_file : string) (raw img : Image) :
  files req !! "image" = Some image_file ->
  Image_open E image_file = Ok raw ->
  Backend.preprocess_image raw = Ok img ->
  let temp_path := temp_name E (fs w) in
  save_image E img temp_path = Ok tt ->
  let at_call := World ({[ temp_path ]} ∪ ({[ temp_path ]} ∪ fs w)) (spawned w) in
  engine_failed (fst (run_process E (Backend.osra_argv temp_path) (fs at_call))) ->
  (exists w1, Backend.recognize_molecule_with_osra E temp_path at_call = (Ok None, w1))
  /\ (exists w', Backend.analyze_molecule E req w
                 = (Ok (Response failure_body 200), w'))
  /\ status (Response failure_body 200) = 200
  /\ In ("success", JBool false) failure_body
  /\ exists msg, In ("error", JStr msg) failure_body.
Proof.
  intros Hf Ho Hp temp_path Hs at_call Hfail. split; [| split; [| split; [| split]]].
  - destruct (recognize_failure E temp_path at_call Hfail) as (files & Er).
    eexists. exact Er.
  - unfold Backend.analyze_molecule, try_except. rewrite Hf.
    unfold bind at 1, lift at 1. rewrite Ho.
    unfold bind at 1, lift at 1. rewrite Hp.
    unfold bind at 1, NamedTemporaryFile at 1.
    unfold bind at 1, Image_save at 1.
    fold temp_path. rewrite Hs. cbn [fs spawned]. fold at_call.
    destruct (guarded_recognition_failure E temp_path at_call Hfail) as (files & Eg & _).
    rewrite Eg. eexists. reflexivity.
  - reflexivity.
  - left. reflexivity.
  - exists Backend.not_recognized. right. left. reflexivity.
Qed.

(** A witness for [engine_failure_is_not_an_http_error]: the engine is
    not installed. *)
Lemma engine_failure_witness :
  exists w', Backend.analyze_molecule no_engine upload empty_world
             = (Ok (Response failure_body 200), w').
Proof.
  apply (engine_failure_is_not_an_http_error no_engine upload empty_world
           "PNG" two_columns _ eq_refl eq_refl two_columns_preprocess eq_refl).
  reflexivity.
Defined.

(** ** Witnesses and counterexamples of the threshold claims *)




(** A witness for [binarization_idempotent]. *)
Lemma binarization_idempotent_witness :
  Backend.step6 (Image8 2 2 [[0; 255]; [255; 0]]) = Image8 2 2 [[0; 255]; [255; 0]].
Proof.
  apply (binarization_idempotent (Image8 2 2 [[0; 255]; [255; 0]])); reflexivity.
Defined.

(** C8, as stated, fails: for the two peaks 50 and 200 the threshold is
    50, which is not strictly above the lower peak. *)
Lemma otsu_strictly_between_counterexample :
  let im := Image8 2 1 [[50; 200]] in
  image8_ok im = true
  /\ two_valued im 50 200 = true
  /\ Backend._otsu_threshold im = 50
  /\ ~ (50 < Backend._otsu_threshold im < 200).
Proof.
  cbv zeta. split; [reflexivity |]. split; [reflexivity |].
  assert (E : Backend._otsu_threshold (Image8 2 1 [[50; 200]]) = 50)
    by (vm_compute; reflexivity).
  split; [exact E |]. rewrite E. lia.
Qed.

(** A witness for [otsu_two_peaks]. *)
Lemma otsu_two_peaks_witness :
  Backend._otsu_threshold (Image8 3 1 [[200; 50; 200]]) = 50.
Proof.
  apply (otsu_two_peaks (Image8 3 1 [[200; 50; 200]]) 50 200); [reflexivity .. | lia].
Defined.

(** A witness for [step9_never_divides_by_zero]: a single pixel. *)
Lemma step9_never_divides_by_zero_witness :
  (31 <= xsize (Backend.step8 one_pixel))%nat
  /\ Backend.step9 (Backend.step8 one_pixel) <> Raise ZeroDivisionError.
Proof.
  destruct (step9_never_divides_by_zero one_pixel) as (_ & H1 & _ & _ & H2);
    [cbn; lia | cbn; lia |].
  split; assumption.
Defined.

(** ** The rounding model against the Standard Library's IEEE-754
    specification *)

(** On the products [m * (400 / m)] and [m * (1500 / m)] for [m] from 1
    to 400, [B64] computes what [SpecFloat]'s binary64 operations
    compute. *)
Lemma B64_agrees_with_SpecFloat :
  forallb
    (fun m =>
       Qeq_bool (B64.int_mul m (B64.rnd (400 / inject_Z m)))
         (SF2Q (SFmul 53 1024 (Z2SF m) (SFdiv 53 1024 (Z2SF 400) (Z2SF m))))
       && Qeq_bool (B64.int_mul m (B64.rnd (1500 / inject_Z m)))
            (SF2Q (SFmul 53 1024 (Z2SF m) (SFdiv 53 1024 (Z2SF 1500) (Z2SF m)))))
    (map (fun i => Z.of_nat i + 1) (seq 0 400)) = true.
Proof. vm_compute. reflexivity. Qed.

(** ** Python strings: [strip] and [split] *)

Lemma lstrip_decompose (l : text) :
  exists ws, l = ws ++ Str.lstrip l /\ Forall (fun c => Str.isspace c = true) ws.
Proof.
  induction l as [| c l IH].
  - exists []. split; [reflexivity | constructor].
  - cbn [Str.lstrip]. destruct (Str.isspace c) eqn:Ec.
    + destruct IH as (ws & E & F). exists (c :: ws). split.
      * cbn [app]. f_equal. exact E.
      * constructor; assumption.
    + exists []. split; [reflexivity | constructor].
Qed.

(** Whitespace in front of the text changes no token. *)
Lemma split_aux_leading (ws l : text) :
  Forall (fun c => Str.isspace c = true) ws ->
  Str.split_aux (ws ++ l) [] = Str.split_aux l [].
Proof.
  induction 1 as [| c ws Hc F IH]; [reflexivity |].
  cbn [app Str.split_aux]. rewrite Hc. exact IH.
Qed.

Lemma split_aux_blank (ws : text) :
  Forall (fun c => Str.isspace c = true) ws -> Str.split_aux ws [] = [].
Proof.
  intros F. rewrite <- (app_nil_r ws). rewrite split_aux_leading by exact F. reflexivity.
Qed.

(** Whitespace behind the text changes no token. *)
Lemma split_aux_trailing (l ws word : text) :
  Forall (fun c => Str.isspace c = true) ws ->
  Str.split_aux (l ++ ws) word = Str.split_aux l word.
Proof.
  intros F. revert word. induction l as [| c l IH]; intros word.
  - cbn [app]. destruct F as [| d ws Hd F]; [reflexivity |].
    cbn [Str.split_aux]. rewrite Hd. rewrite (split_aux_blank ws F).
    destruct word; reflexivity.
  - cbn [app Str.split_aux]. destruct (Str.isspace c).
    + rewrite IH. reflexivity.
    + apply IH.
Qed.

(** Stripping a string changes none of its tokens. *)
Lemma split_strip (s : text) : Str.split (Str.strip s) = Str.split s.
Proof.
  unfold Str.split, Str.strip.
  destruct (lstrip_decompose s) as (ws1 & E1 & F1).
  destruct (lstrip_decompose (rev (Str.lstrip s))) as (ws2 & E2 & F2).
  set (core := rev (Str.lstrip (rev (Str.lstrip s)))) in *.
  assert (E : s = ws1 ++ core ++ rev ws2).
  { rewrite E1 at 1. f_equal. unfold core.
    rewrite <- (rev_involutive (Str.lstrip s)) at 1. rewrite E2 at 1.
    apply rev_app_distr. }
  clearbody core. rewrite E, split_aux_leading by exact F1.
  rewrite split_aux_trailing; [reflexivity |].
  apply List.Forall_forall. intros c Hc. apply in_rev in Hc.
  rewrite List.Forall_forall in F2. apply F2. exact Hc.
Qed.

(** The accumulated word comes out as a token. *)
Lemma split_aux_something (l word : text) :
  word <> [] \/ (exists c, In c l /\ Str.isspace c = false) ->
  Str.split_aux l word <> [].
Proof.
  revert word. induction l as [| c l IH]; intros word H.
  - cbn [Str.split_aux]. destruct H as [H | (c & [] & _)].
    destruct word; [contradiction | discriminate].
  - cbn [Str.split_aux]. destruct (Str.isspace c) eqn:Ec.
    + destruct word as [| d word]; [| discriminate].
      apply IH. right. destruct H as [H | (d & [-> | Hd] & Hs)];
        [contradiction | congruence | eauto].
    + apply IH. left. discriminate.
Qed.

(** ** The adapter: what is returned *)

(** [parse_osra] returns the first whitespace-delimited token of the
    standard output of a process that exited with status 0. *)
Lemma parse_osra_head (r : CompletedProcess) :
  Backend.parse_osra r
  = if returncode r =? 0 then hd_error (Str.split (stdout r)) else None.
Proof.
  unfold Backend.parse_osra. destruct (returncode r =? 0); [| reflexivity].
  destruct (Str.truthy (Str.strip (stdout r))) eqn:Et.
  - rewrite split_strip. destruct (Str.split (stdout r)); reflexivity.
  - rewrite <- split_strip.
    destruct (Str.strip (stdout r)) as [| c t]; [reflexivity | discriminate Et].
Qed.

Lemma rev_nonempty {A : Type} (l : list A) : l <> [] -> rev l <> [].
Proof.
  intros H E. apply H. rewrite <- (rev_involutive l), E. reflexivity.
Qed.

Lemma split_aux_tokens (l word : text) :
  Forall (fun c => Str.isspace c = false) word ->
  Forall is_token (Str.split_aux l word).
Proof.
  assert (Htok : forall w : text,
             w <> [] -> Forall (fun c => Str.isspace c = false) w -> is_token (rev w)).
  { intros w Hne Hw. split; [apply rev_nonempty; exact Hne |].
    apply List.Forall_forall. intros c Hc. apply in_rev in Hc.
    rewrite List.Forall_forall in Hw. apply Hw. exact Hc. }
  revert word. induction l as [| c l IH]; intros word Hw; cbn [Str.split_aux].
  - destruct word as [| d word]; [constructor |].
    constructor; [apply Htok; [discriminate | exact Hw] | constructor].
  - destruct (Str.isspace c) eqn:Ec.
    + destruct word as [| d word]; [apply IH; constructor |].
      constructor; [apply Htok; [discriminate | exact Hw] | apply IH; constructor].
    + apply IH. constructor; assumption.
Qed.

Lemma split_tokens (s : text) : Forall is_token (Str.split s).
Proof. apply split_aux_tokens. constructor. Qed.

Lemma split_aux_word (t l word : text) :
  Forall (fun c => Str.isspace c = false) t ->
  Str.split_aux (t ++ l) word = Str.split_aux l (rev t ++ word).
Proof.
  intros F. revert word. induction F as [| c t Hc F IH]; intros word; [reflexivity |].
  cbn [app Str.split_aux rev]. rewrite Hc, IH, <- app_assoc. reflexivity.
Qed.

(** The tokens of a token followed by whitespace and more text. *)
Lemma split_token_first (t : text) (c : N) (rest : text) :
  is_token t -> Str.isspace c = true ->
  Str.split (t ++ c :: rest) = t :: Str.split rest.
Proof.
  intros [Hne Ht] Hc. unfold Str.split.
  rewrite split_aux_word by exact Ht.
  cbn [Str.split_aux]. rewrite Hc, app_nil_r.
  pose proof (rev_nonempty t Hne) as Hr.
  destruct (rev t) as [| d w] eqn:Er; [contradiction |].
  rewrite <- Er, rev_involutive. reflexivity.
Qed.

Lemma split_token_alone (t : text) : is_token t -> Str.split t = [t].
Proof.
  intros [Hne Ht]. unfold Str.split.
  rewrite <- (app_nil_r t) at 1. rewrite split_aux_word by exact Ht.
  cbn [Str.split_aux]. rewrite app_nil_r.
  pose proof (rev_nonempty t Hne) as Hr.
  destruct (rev t) as [| d w] eqn:Er; [contradiction |].
  rewrite <- Er, rev_involutive. reflexivity.
Qed.

Lemma split_nil_blank (s : text) : Str.split s = [] <-> is_blank s.
Proof.
  unfold Str.split, is_blank. split.
  - intros E. apply List.Forall_forall. intros c Hc.
    destruct (Str.isspace c) eqn:Ec; [reflexivity | exfalso].
    apply (split_aux_something s []); [| exact E].
    right. exists c. split; assumption.
  - apply split_aux_blank.
Qed.

(** The adapter on a given outcome of the engine. *)
Lemma recognize_completed (E : env) (p : path) (w : world)
    (cp : CompletedProcess) (files : gset path) :
  run_process E (Backend.osra_argv p) (fs w) = (Ok cp, files) ->
  Backend.recognize_molecule_with_osra E p w
  = (Ok (Backend.parse_osra cp), World files (Backend.osra_argv p :: spawned w)).
Proof.
  intros H.
  unfold Backend.recognize_molecule_with_osra, try_except, bind, subprocess_run, ret.
  rewrite H. reflexivity.
Qed.

Lemma recognize_raised (E : env) (p : path) (w : world) (e : exn) (files : gset path) :
  run_process E (Backend.osra_argv p) (fs w) = (Raise e, files) ->
  Backend.recognize_molecule_with_osra E p w
  = (if is_Exception e then Ok None else Raise e,
     World files (Backend.osra_argv p :: spawned w)).
Proof.
  intros H.
  unfold Backend.recognize_molecule_with_osra, try_except, bind, subprocess_run, ret.
  rewrite H. destruct e; reflexivity.
Qed.

(** X1. A string returned by the adapter is the first
    whitespace-delimited token of the standard output of an engine run
    that exited with status 0; it is not empty and holds no whitespace,
    in the sense of [str.isspace]. *)
Theorem recognized_smiles_is_first_token (E : env) (p : path) (w w' : world)
    (smiles : text) :
  Backend.recognize_molecule_with_osra E p w = (Ok (Some smiles), w') ->
  exists result,
    fst (run_process E (Backend.osra_argv p) (fs w)) = Ok result
    /\ returncode result = 0
    /\ hd_error (Str.split (stdout result)) = Some smiles
    /\ is_token smiles.
Proof.
  intros H.
  destruct (run_process E (Backend.osra_argv p) (fs w)) as [[cp | e] files] eqn:Er.
  - rewrite (recognize_completed E p w cp files Er) in H.
    injection H as Hp _. rewrite parse_osra_head in Hp.
    exists cp. split; [reflexivity |].
    destruct (Z.eqb_spec (returncode cp) 0) as [E0 | N0]; [| discriminate].
    split; [exact E0 |]. split; [exact Hp |].
    pose proof (split_tokens (stdout cp)) as F.
    destruct (Str.split (stdout cp)) as [| t ts]; [discriminate |].
    injection Hp as <-. inversion F. assumption.
  - rewrite (recognize_raised E p w e files Er) in H.
    destruct (is_Exception e); discriminate.
Qed.

(** A witness for [recognized_smiles_is_first_token]: a no-break space
    ends the first token. *)
Lemma recognized_smiles_witness :
  exists result,
    fst (run_process (engine_prints no_break_line)
           (Backend.osra_argv "/tmp/a.png") (fs empty_world)) = Ok result
    /\ returncode result = 0
    /\ hd_error (Str.split (stdout result)) = Some (Str.of_ascii "CC")
    /\ is_token (Str.of_ascii "CC").
Proof.
  apply (recognized_smiles_is_first_token (engine_prints no_break_line) "/tmp/a.png"
           empty_world (World ∅ [Backend.osra_argv "/tmp/a.png"])).
  reflexivity.
Defined.

(** X2. When the engine run completes, the adapter returns [None]
    exactly when the exit status is not 0 or the standard output holds
    nothing but whitespace, in the sense of [str.isspace]. *)
Theorem nothing_recognized_iff (E : env) (p : path) (w : world)
    (result : CompletedProcess) :
  fst (run_process E (Backend.osra_argv p) (fs w)) = Ok result ->
  fst (Backend.recognize_molecule_with_osra E p w) = Ok None
  <-> returncode result <> 0 \/ is_blank (stdout result).
Proof.
  intros H.
  destruct (run_process E (Backend.osra_argv p) (fs w)) as [r files] eqn:Er.
  cbn [fst] in H. subst r.
  rewrite (recognize_completed E p w result files Er). cbn [fst].
  rewrite parse_osra_head, <- split_nil_blank.
  destruct (Z.eqb_spec (returncode result) 0) as [E0 | N0].
  - destruct (Str.split (stdout result)) as [| t ts]; cbn [hd_error].
    + split; [intros _; right; reflexivity | reflexivity].
    + split; [discriminate | intros [Hc | Hc]; [contradiction | discriminate]].
  - split; [intros _; left; exact N0 | reflexivity].
Qed.

(** A witness for [nothing_recognized_iff]: the engine prints a
    no-break space and a newline. *)
Lemma nothing_recognized_witness :
  fst (Backend.recognize_molecule_with_osra (engine_prints [160; 10]%N) "/tmp/a.png"
         empty_world)
  = Ok None.
Proof.
  apply (nothing_recognized_iff (engine_prints [160; 10]%N) "/tmp/a.png" empty_world
           (Completed 0 [160; 10]%N []) eq_refl).
  right. repeat constructor.
Defined.

(** X3. When the engine exits with status 0 and prints a token (a
    non-empty run without whitespace in the sense of [str.isspace])
    followed by whitespace and anything else (OSRA's "SMILES name"
    line), or the token alone, the adapter returns the token. *)
Theorem smiles_part_is_extracted (E : env) (p : path) (w : world)
    (result : CompletedProcess) (smiles : text) :
  fst (run_process E (Backend.osra_argv p) (fs w)) = Ok result ->
  returncode result = 0 ->
  is_token smiles ->
  (stdout result = smiles
   \/ exists c rest, Str.isspace c = true /\ stdout result = smiles ++ c :: rest) ->
  fst (Backend.recognize_molecule_with_osra E p w) = Ok (Some smiles).
Proof.
  intros H Hrc Ht Hout.
  destruct (run_process E (Backend.osra_argv p) (fs w)) as [r files] eqn:Er.
  cbn [fst] in H. subst r.
  rewrite (recognize_completed E p w result files Er). cbn [fst].
  rewrite parse_osra_head, Hrc. cbn [Z.eqb].
  destruct Hout as [-> | (c & rest & Hc & ->)].
  - rewrite split_token_alone by exact Ht. reflexivity.
  - rewrite split_token_first by assumption. reflexivity.
Qed.

(** A witness for [smiles_part_is_extracted]. *)
Lemma smiles_part_witness :
  fst (Backend.recognize_molecule_with_osra (engine_prints ethanol_line) "/tmp/a.png"
         empty_world)
  = Ok (Some (Str.of_ascii "CCO")).
Proof.
  apply (smiles_part_is_extracted (engine_prints ethanol_line) "/tmp/a.png" empty_world
           (Completed 0 ethanol_line []) (Str.of_ascii "CCO") eq_refl eq_refl).
  - split; [discriminate | repeat constructor].
  - right. exists 32%N, (Str.of_ascii "ethanol
"). split; reflexivity.
Defined.

(** X4. The adapter runs the engine exactly once, on the command line
    [osra -f smi <path>], leaves the file system as the engine left it,
    and lets no [Exception] escape: what it raises was raised by the
    engine and is not an [Exception]. *)
Theorem adapter_runs_engine_once (E : env) (p : path) (w : world) :
  let '(r, w') := Backend.recognize_molecule_with_osra E p w in
  spawned w' = ["osra"; "-f"; "smi"; p] :: spawned w
  /\ fs w' = snd (run_process E ["osra"; "-f"; "smi"; p] (fs w))
  /\ forall e, r = Raise e ->
       is_Exception e = false
       /\ fst (run_process E ["osra"; "-f"; "smi"; p] (fs w)) = Raise e.
Proof.
  change ["osra"; "-f"; "smi"; p] with (Backend.osra_argv p).
  destruct (run_process E (Backend.osra_argv p) (fs w)) as [[cp | e] files] eqn:Er.
  - rewrite (recognize_completed E p w cp files Er).
    split; [reflexivity | split; [reflexivity | discriminate]].
  - rewrite (recognize_raised E p w e files Er).
    split; [reflexivity | split; [reflexivity |]].
    intros e0 He. destruct (is_Exception e) eqn:Ee; [discriminate |].
    injection He as <-. split; [exact Ee | reflexivity].
Qed.

(** ** The handlers, case by case *)

(** The cleanup of the handler, exactly: the path is removed from the
    file system and nothing else changes. *)
Lemma cleanup_exact (p : path) (w : world) :
  Backend.remove_temp_file p w = (Ok tt, World (fs w ∖ {[ p ]}) (spawned w)).
Proof.
  unfold Backend.remove_temp_file, bind, os_path_exists, os_unlink, ret.
  destruct (bool_decide (p ∈ fs w)) eqn:Ep.
  - rewrite Ep. reflexivity.
  - apply bool_decide_eq_false in Ep. destruct w as [files0 log].
    cbn [fs spawned] in *. f_equal. f_equal.
    apply set_eq. intros x. rewrite elem_of_difference, elem_of_singleton.
    split; [| intros [H _]; exact H].
    intros H. split; [exact H |]. intros ->. contradiction.
Qed.

(** The guarded recognition in terms of the adapter's outcome. *)
Lemma guarded_recognition_exact (E : env) (p : path) (w : world) :
  try_finally (Backend.recognize_and_respond E p) (Backend.remove_temp_file p) w
  = let '(r, w1) := Backend.recognize_molecule_with_osra E p w in
    (match r with
     | Ok (Some smiles) =>
         if Str.truthy smiles
         then Ok (jsonify [("success", JBool true); ("smiles", JStr smiles)] 200)
         else Ok (jsonify failure_body 200)
     | Ok None => Ok (jsonify failure_body 200)
     | Raise e => Raise e
     end,
     World (fs w1 ∖ {[ p ]}) (spawned w1)).
Proof.
  unfold try_finally, Backend.recognize_and_respond, bind.
  destruct (Backend.recognize_molecule_with_osra E p w) as [[[smiles |] | e] w1].
  - destruct (Str.truthy smiles); unfold ret; rewrite cleanup_exact; reflexivity.
  - unfold ret. rewrite cleanup_exact. reflexivity.
  - rewrite cleanup_exact. reflexivity.
Qed.

(** The handler once the image is decoded, preprocessed and saved: the
    guarded recognition on the world that holds the temporary file, with
    the outer [except Exception] around it. *)
Lemma analyze_after_preprocessing (E : env) (req : request) (w : world)
    (image_file : string) (raw img : Image) :
  files req !! "image" = Some image_file ->
  Image_open E image_file = Ok raw ->
  Backend.preprocess_image raw = Ok img ->
  let temp_path := temp_name E (fs w) in
  save_image E img temp_path = Ok tt ->
  let at_call := World ({[ temp_path ]} ∪ ({[ temp_path ]} ∪ fs w)) (spawned w) in
  Backend.analyze_molecule E req w
  = match try_finally (Backend.recognize_and_respond E temp_path)
            (Backend.remove_temp_file temp_path) at_call with
    | (Ok resp, w') => (Ok resp, w')
    | (Raise e, w') =>
        if is_Exception e
        then (Ok (jsonify [("error", JStr (exn_str e))] 500), w')
        else (Raise e, w')
    end.
Proof.
  intros Hf Ho Hp temp_path Hs at_call.
  unfold Backend.analyze_molecule, try_except. rewrite Hf.
  unfold bind at 1, lift at 1. rewrite Ho.
  unfold bind at 1, lift at 1. rewrite Hp.
  unfold bind at 1, NamedTemporaryFile at 1.
  unfold bind at 1, Image_save at 1.
  fold temp_path. rewrite Hs. cbn [fs spawned]. fold at_call.
  destruct (try_finally _ _ at_call) as [[resp | e] w']; [reflexivity |].
  destruct (is_Exception e); reflexivity.
Qed.

(** The handler when [image.save] raises: the temporary file exists
    already, the guarded recognition is not entered. *)
Lemma analyze_save_raises (E : env) (req : request) (w : world)
    (image_file : string) (raw img : Image) (e : exn) :
  files req !! "image" = Some image_file ->
  Image_open E image_file = Ok raw ->
  Backend.preprocess_image raw = Ok img ->
  let temp_path := temp_name E (fs w) in
  save_image E img temp_path = Raise e ->
  Backend.analyze_molecule E req w
  = (if is_Exception e
     then Ok (jsonify [("error", JStr (exn_str e))] 500)
     else Raise e,
     World ({[ temp_path ]} ∪ fs w) (spawned w)).
Proof.
  intros Hf Ho Hp temp_path Hs.
  unfold Backend.analyze_molecule, try_except. rewrite Hf.
  unfold bind at 1, lift at 1. rewrite Ho.
  unfold bind at 1, lift at 1. rewrite Hp.
  unfold bind at 1, NamedTemporaryFile at 1.
  unfold bind at 1, Image_save at 1.
  fold temp_path. rewrite Hs. destruct (is_Exception e); reflexivity.
Qed.

Lemma minimal_analyze_after_decoding (E : env) (req : request) (w : world)
    (image_file : string) (raw : Image) :
  files req !! "image" = Some image_file ->
  Image_open E image_file = Ok raw ->
  let temp_path := temp_name E (fs w) in
  save_image E (Minimal.preprocess_image raw) temp_path = Ok tt ->
  let at_call := World ({[ temp_path ]} ∪ ({[ temp_path ]} ∪ fs w)) (spawned w) in
  Minimal.analyze_molecule E req w
  = match try_finally (Backend.recognize_and_respond E temp_path)
            (Backend.remove_temp_file temp_path) at_call with
    | (Ok resp, w') => (Ok resp, w')
    | (Raise e, w') =>
        if is_Exception e
        then (Ok (jsonify [("error", JStr (exn_str e))] 500), w')
        else (Raise e, w')
    end.
Proof.
  intros Hf Ho temp_path Hs at_call.
  unfold Minimal.analyze_molecule, try_except. rewrite Hf.
  unfold bind at 1, lift at 1. rewrite Ho. cbv zeta.
  unfold bind at 1, NamedTemporaryFile at 1.
  unfold bind at 1, Image_save at 1.
  fold temp_path. rewrite Hs. cbn [fs spawned]. fold at_call.
  change (Minimal.recognize_and_respond E temp_path)
    with (Backend.recognize_and_respond E temp_path).
  change (Minimal.remove_temp_file temp_path)
    with (Backend.remove_temp_file temp_path).
  destruct (try_finally _ _ at_call) as [[resp | e] w']; [reflexivity |].
  destruct (is_Exception e); reflexivity.
Qed.

Lemma minimal_analyze_save_raises (E : env) (req : request) (w : world)
    (image_file : string) (raw : Image) (e : exn) :
  files req !! "image" = Some image_file ->
  Image_open E image_file = Ok raw ->
  let temp_path := temp_name E (fs w) in
  save_image E (Minimal.preprocess_image raw) temp_path = Raise e ->
  Minimal.analyze_molecule E req w
  = (if is_Exception e
     then Ok (jsonify [("error", JStr (exn_str e))] 500)
     else Raise e,
     World ({[ temp_path ]} ∪ fs w) (spawned w)).
Proof.
  intros Hf Ho temp_path Hs.
  unfold Minimal.analyze_molecule, try_except. rewrite Hf.
  unfold bind at 1, lift at 1. rewrite Ho. cbv zeta.
  unfold bind at 1, NamedTemporaryFile at 1.
  unfold bind at 1, Image_save at 1.
  fold temp_path. rewrite Hs. destruct (is_Exception e); reflexivity.
Qed.

(** The one exception of the preprocessing: a resize to an empty size.
    Steps 3 and 5 return on every image, and the sides that enter step 9
    are at least 30. *)
Lemma step3_returns (g : image8) : exists out, Backend.step3 g = Ok out.
Proof.
  unfold Backend.step3, PIL.stat_mean.
  destruct (PIL.stat_count g =? 0); cbn [rbind]; destruct (negb _); eexists; reflexivity.
Qed.

Lemma step5_returns (g : image8) : exists out, Backend.step5 g = Ok out.
Proof.
  unfold Backend.step5, PIL.contrast_enhance, PIL.contrast_mean, PIL.stat_mean.
  destruct (PIL.stat_count g =? 0); cbn [rbind]; eexists; reflexivity.
Qed.

Lemma truediv_raises_only (a b : Z) (e : exn) :
  B64.truediv a b = Raise e -> e = ZeroDivisionError.
Proof.
  unfold B64.truediv. destruct (b =? 0); [congruence | discriminate].
Qed.

Lemma step9_raises_only (g : image8) (e : exn) :
  Backend.step9 g = Raise e -> e = ZeroDivisionError \/ e = ValueError.
Proof.
  unfold Backend.step9.
  set (w := Z.of_nat (xsize g)). set (h := Z.of_nat (ysize g)).
  destruct (Z.min w h <? 400).
  - destruct (B64.truediv 400 (Z.min w h)) as [s1 | e1] eqn:E1; cbn [rbind];
      [| intros H; injection H as <-; left; exact (truediv_raises_only _ _ _ E1)].
    destruct (PIL.resize g _) as [g1 | e1] eqn:E2; cbn [rbind];
      [| intros H; injection H as <-; right; exact (resize_raises _ _ _ E2)].
    destruct (_ >? 1500); [| discriminate].
    destruct (B64.truediv 1500 _) as [s2 | e2] eqn:E3; cbn [rbind];
      [| intros H; injection H as <-; left; exact (truediv_raises_only _ _ _ E3)].
    intros H. right. exact (resize_raises _ _ _ H).
  - cbn [rbind]. destruct (_ >? 1500); [| discriminate].
    destruct (B64.truediv 1500 _) as [s2 | e2] eqn:E3; cbn [rbind];
      [| intros H; injection H as <-; left; exact (truediv_raises_only _ _ _ E3)].
    intros H. right. exact (resize_raises _ _ _ H).
Qed.

Lemma preprocess_raises_only (img : Image) (e : exn) :
  Backend.preprocess_image img = Raise e -> e = ValueError.
Proof.
  unfold Backend.preprocess_image, Backend.steps1_8.
  destruct (step3_returns (Backend.step2 (Backend.step1 img))) as (g3 & ->).
  cbn [rbind].
  destruct (step5_returns (Backend.step4 g3)) as (g5 & ->). cbn [rbind].
  set (g8 := Backend.step8 _).
  destruct (Backend.step9 g8) as [g9 | e9] eqn:E9; cbn [rbind]; [discriminate |].
  intros H; injection H as <-.
  destruct (step9_raises_only _ _ E9) as [-> | ->]; [| reflexivity].
  exfalso. revert E9. apply step9_no_zero_division.
  - unfold g8. destruct (step8_size (Backend.step7 (Backend.step6 g5))) as [Ex _].
    rewrite Ex. destruct (_ && _)%bool; lia.
  - unfold g8. destruct (step8_size (Backend.step7 (Backend.step6 g5))) as [_ Ey].
    rewrite Ey. destruct (_ && _)%bool; lia.
Qed.

Lemma parse_osra_token (result : CompletedProcess) (smiles : text) :
  Backend.parse_osra result = Some smiles ->
  returncode result = 0
  /\ hd_error (Str.split (stdout result)) = Some smiles
  /\ is_token smiles.
Proof.
  rewrite parse_osra_head.
  destruct (Z.eqb_spec (returncode result) 0) as [E0 | N0]; [| discriminate].
  intros H. split; [exact E0 |]. split; [exact H |].
  pose proof (split_tokens (stdout result)) as F.
  destruct (Str.split (stdout result)) as [| t ts]; [discriminate |].
  injection H as <-. inversion F. assumption.
Qed.

Lemma token_truthy (s : text) : is_token s -> Str.truthy s = true.
Proof.
  intros [Hne _]. destruct s; [contradiction | reflexivity].
Qed.

(** X5. A request without an [image] part is answered with status 400
    and the body [error: No image provided], by both servers; nothing is
    decoded, no file is created and the engine is not run. *)
Theorem missing_image_is_bad_request (E : env) (req : request) (w : world) :
  files req !! "image" = None ->
  Backend.analyze_molecule E req w
  = (Ok (Response [("error", JStr "No image provided")] 400), w)
  /\ Minimal.analyze_molecule E req w
     = (Ok (Response [("error", JStr "No image provided")] 400), w).
Proof.
  intros H. unfold Backend.analyze_molecule, Minimal.analyze_molecule, try_except.
  rewrite H. split; reflexivity.
Qed.

(** A witness for [missing_image_is_bad_request]. *)
Lemma missing_image_witness :
  Backend.analyze_molecule no_engine no_upload empty_world
  = (Ok (Response [("error", JStr "No image provided")] 400), empty_world)
  /\ Minimal.analyze_molecule no_engine no_upload empty_world
     = (Ok (Response [("error", JStr "No image provided")] 400), empty_world).
Proof.
  apply (missing_image_is_bad_request no_engine no_upload empty_world).
  reflexivity.
Defined.

(** X6. When the decoder rejects the upload with an [Exception], both
    servers answer with status 500 and the text of the exception; no
    file is created and the engine is not run. *)
Theorem undecodable_upload_is_server_error (E : env) (req : request) (w : world)
    (image_file : string) (e : exn) :
  files req !! "image" = Some image_file ->
  Image_open E image_file = Raise e ->
  is_Exception e = true ->
  Backend.analyze_molecule E req w
  = (Ok (Response [("error", JStr (exn_str e))] 500), w)
  /\ Minimal.analyze_molecule E req w
     = (Ok (Response [("error", JStr (exn_str e))] 500), w).
Proof.
  intros Hf Ho He. split.
  - unfold Backend.analyze_molecule, try_except. rewrite Hf.
    unfold bind at 1, lift at 1. rewrite Ho, He. reflexivity.
  - unfold Minimal.analyze_molecule, try_except. rewrite Hf.
    unfold bind at 1, lift at 1. rewrite Ho, He. reflexivity.
Qed.

(** A witness for [undecodable_upload_is_server_error]. *)
Lemma undecodable_upload_witness :
  Backend.analyze_molecule no_decoder upload empty_world
  = (Ok (Response [("error", JStr (exn_str OSError))] 500), empty_world)
  /\ Minimal.analyze_molecule no_decoder upload empty_world
     = (Ok (Response [("error", JStr (exn_str OSError))] 500), empty_world).
Proof.
  apply (undecodable_upload_is_server_error no_decoder upload empty_world "PNG" OSError);
    reflexivity.
Defined.

(** X8. For a request whose image is decoded, preprocessed and saved,
    when the engine exits with status 0 and its standard output has a
    first token, the handler answers with status 200, [success: true]
    and that token as [smiles], and the temporary file is gone. *)
Theorem recognized_structure_response (E : env) (req : request) (w : world)
    (image_file : string) (raw img : Image) (result : CompletedProcess)
    (smiles : text) :
  files req !! "image" = Some image_file ->
  Image_open E image_file = Ok raw ->
  Backend.preprocess_image raw = Ok img ->
  let temp_path := temp_name E (fs w) in
  save_image E img temp_path = Ok tt ->
  let at_call := World ({[ temp_path ]} ∪ ({[ temp_path ]} ∪ fs w)) (spawned w) in
  fst (run_process E (Backend.osra_argv temp_path) (fs at_call)) = Ok result ->
  returncode result = 0 ->
  hd_error (Str.split (stdout result)) = Some smiles ->
  exists w',
    Backend.analyze_molecule E req w
    = (Ok (Response [("success", JBool true); ("smiles", JStr smiles)] 200), w')
    /\ temp_path ∉ fs w'.
Proof.
  intros Hf Ho Hp temp_path Hsave at_call Hr Hrc Hs.
  rewrite (analyze_after_preprocessing E req w image_file raw img Hf Ho Hp Hsave).
  fold temp_path. fold at_call. rewrite guarded_recognition_exact.
  destruct (run_process E (Backend.osra_argv temp_path) (fs at_call))
    as [r files] eqn:Er. cbn [fst] in Hr. subst r.
  rewrite (recognize_completed E temp_path at_call result files Er).
  assert (Hparse : Backend.parse_osra result = Some smiles)
    by (rewrite parse_osra_head, Hrc; exact Hs).
  rewrite Hparse.
  rewrite (token_truthy smiles (proj2 (proj2 (parse_osra_token _ _ Hparse)))).
  eexists. split; [reflexivity |]. cbn [fs].
  apply not_elem_of_difference. right. apply elem_of_singleton. reflexivity.
Qed.

(** A witness for [recognized_structure_response]: the engine prints a
    line whose first word holds a no-break space, which ends the
    token. *)
Lemma recognized_structure_witness :
  exists w',
    Backend.analyze_molecule (engine_prints no_break_line) upload empty_world
    = (Ok (Response [("success", JBool true); ("smiles", JStr "CC")] 200), w')
    /\ "/tmp/tmpk3v9.png" ∉ fs w'.
Proof.
  apply (recognized_structure_response (engine_prints no_break_line) upload empty_world
           "PNG" two_columns _ (Completed 0 no_break_line []) (Str.of_ascii "CC")
           eq_refl eq_refl two_columns_preprocess eq_refl eq_refl eq_refl eq_refl).
Defined.

(** X9. Every response of the full server's handler is one of four: 400
    for a missing image, 500 with the text of an [Exception], 200 with
    [success: false], or 200 with [success: true] and a [smiles] that is
    a non-empty string without whitespace.  An exception that escapes
    the handler is not an [Exception]. *)
Theorem handler_responses (E : env) (req : request) (w : world) :
  match fst (Backend.analyze_molecule E req w) with
  | Ok resp =>
      resp = Response [("error", JStr "No image provided")] 400
      \/ (exists e, is_Exception e = true
                    /\ resp = Response [("error", JStr (exn_str e))] 500)
      \/ resp = Response failure_body 200
      \/ (exists smiles, is_token smiles
                         /\ resp = Response [("success", JBool true);
                                              ("smiles", JStr smiles)] 200)
  | Raise e => is_Exception e = false
  end.
Proof.
  destruct (files req !! "image") as [image_file |] eqn:Hf.
  2: { unfold Backend.analyze_molecule, try_except. rewrite Hf. left. reflexivity. }
  destruct (Image_open E image_file) as [raw | e] eqn:Ho.
  2: { unfold Backend.analyze_molecule, try_except. rewrite Hf.
       unfold bind at 1, lift at 1. rewrite Ho.
       destruct (is_Exception e) eqn:Ee; cbn [fst]; [| exact Ee].
       right. left. exists e. split; [exact Ee | reflexivity]. }
  destruct (Backend.preprocess_image raw) as [img | e] eqn:Hp.
  2: { unfold Backend.analyze_molecule, try_except. rewrite Hf.
       unfold bind at 1, lift at 1. rewrite Ho.
       unfold bind at 1, lift at 1. rewrite Hp.
       destruct (is_Exception e) eqn:Ee; cbn [fst]; [| exact Ee].
       right. left. exists e. split; [exact Ee | reflexivity]. }
  destruct (save_image E img (temp_name E (fs w))) as [[] | e] eqn:Hs.
  2: { rewrite (analyze_save_raises E req w image_file raw img e Hf Ho Hp Hs).
       destruct (is_Exception e) eqn:Ee; cbn [fst]; [| exact Ee].
       right. left. exists e. split; [exact Ee | reflexivity]. }
  rewrite (analyze_after_preprocessing E req w image_file raw img Hf Ho Hp Hs).
  rewrite guarded_recognition_exact.
  set (temp_path := temp_name E (fs w)). set (at_call := World _ _).
  destruct (run_process E (Backend.osra_argv temp_path) (fs at_call))
    as [[cp | e] files0] eqn:Er.
  - rewrite (recognize_completed E temp_path at_call cp files0 Er).
    destruct (Backend.parse_osra cp) as [smiles |] eqn:Hparse; cbn [fst].
    + destruct (parse_osra_token cp smiles Hparse) as (_ & _ & Ht).
      rewrite (token_truthy smiles Ht). cbn [fst].
      right. right. right. exists smiles. split; [exact Ht | reflexivity].
    + right. right. left. reflexivity.
  - rewrite (recognize_raised E temp_path at_call e files0 Er).
    destruct (is_Exception e) eqn:Ee; cbn [fst].
    + right. right. left. reflexivity.
    + rewrite Ee. exact Ee.
Qed.



(** X11. The health check of either server never raises, whatever the
    engine does: it runs [osra --version] once and answers with status
    200 and [status: ok]; [osra_available] is true exactly when that run
    completed with exit status 0. *)
Theorem health_always_answers (E : env) (w : world) :
  exists available files,
    Backend.health E w
    = (Ok (Response [("status", JStr "ok");
                     ("message", JStr "Molecule detector backend is running");
                     ("osra_available", JBool available)] 200),
       World files (["osra"; "--version"] :: spawned w))
    /\ Minimal.health E w = Backend.health E w
    /\ (available = true
        <-> exists result,
              fst (run_process E ["osra"; "--version"] (fs w)) = Ok result
              /\ returncode result = 0).
Proof.
  unfold Backend.health, Minimal.health, bind, try_except, subprocess_run, ret.
  destruct (run_process E ["osra"; "--version"] (fs w)) as [[cp | e] files0].
  - exists (returncode cp =? 0), files0.
    split; [reflexivity | split; [reflexivity |]]. cbn [fst]. split.
    + intros H. exists cp. split; [reflexivity | apply Z.eqb_eq; exact H].
    + intros (cp' & Hc & H0). injection Hc as <-. apply Z.eqb_eq. exact H0.
  - exists false, files0. split; [reflexivity | split; [reflexivity |]].
    cbn [fst]. split; [discriminate | intros (cp' & Hc & _); discriminate].
Qed.

(** X12. In the minimal server an upload that is decoded goes one of two
    ways.  When [image.save] writes the temporary file, the engine is
    run once on it, the file is gone afterwards, and a response has
    status 200.  When [image.save] raises, the engine is not run, the
    temporary file is left behind, and the answer is status 500 with the
    text of the exception.  An exception that escapes is not an
    [Exception]. *)
Theorem minimal_handler_outcomes (E : env) (req : request) (w : world)
    (image_file : string) (raw : Image) :
  files req !! "image" = Some image_file ->
  Image_open E image_file = Ok raw ->
  let temp_path := temp_name E (fs w) in
  let '(r, w') := Minimal.analyze_molecule E req w in
  match save_image E (Minimal.preprocess_image raw) temp_path with
  | Ok _ =>
      spawned w' = ["osra"; "-f"; "smi"; temp_path] :: spawned w
      /\ (temp_path ∉ fs w')
      /\ match r with
         | Ok resp => status resp = 200
         | Raise e => is_Exception e = false
         end
  | Raise e =>
      spawned w' = spawned w
      /\ (temp_path ∈ fs w')
      /\ match r with
         | Ok resp =>
             is_Exception e = true
             /\ resp = Response [("error", JStr (exn_str e))] 500
         | Raise e' => e' = e /\ is_Exception e = false
         end
  end.
Proof.
  intros Hf Ho temp_path.
  destruct (save_image E (Minimal.preprocess_image raw) temp_path) as [[] | e] eqn:Hs.
  - rewrite (minimal_analyze_after_decoding E req w image_file raw Hf Ho Hs).
    fold temp_path. set (at_call := World _ _).
    destruct (guarded_recognition_spec E temp_path at_call)
      as (r & files0 & Eg & Hp & Hr).
    rewrite Eg. destruct r as [resp | e].
    + split; [reflexivity | split; [exact Hp |]].
      revert Eg. rewrite guarded_recognition_exact.
      destruct (Backend.recognize_molecule_with_osra E temp_path at_call)
        as [[[smiles |] | e] w1].
      * destruct (Str.truthy smiles); intros H; injection H as <- _; reflexivity.
      * intros H; injection H as <- _; reflexivity.
      * discriminate.
    + rewrite (Hr e eq_refl). split; [reflexivity | split; [exact Hp |]].
      exact (Hr e eq_refl).
  - rewrite (minimal_analyze_save_raises E req w image_file raw e Hf Ho Hs).
    fold temp_path. cbn [spawned fs]. split; [reflexivity |].
    split; [apply elem_of_union_l, elem_of_singleton; reflexivity |].
    destruct (is_Exception e); split; reflexivity.
Qed.

(** A witness for [minimal_handler_outcomes]: the encoder cannot write
    the image, the upload never reaches the engine and the file stays. *)
Lemma minimal_handler_outcomes_witness :
  let '(r, w') := Minimal.analyze_molecule cannot_save upload empty_world in
  spawned w' = []
  /\ ("/tmp/tmpk3v9.png" ∈ fs w')
  /\ match r with
     | Ok resp =>
         is_Exception OSError = true
         /\ resp = Response [("error", JStr (exn_str OSError))] 500
     | Raise e' => e' = OSError /\ is_Exception OSError = false
     end.
Proof.
  apply (minimal_handler_outcomes cannot_save upload empty_world "PNG" two_columns
           eq_refl eq_refl).
Defined.

(** ** Binary64 rounding: scaling, exact integers and the relative error *)

Lemma rne_comp (s t : Q) : (s == t)%Q -> B64.rne s = B64.rne t.
Proof.
  intros H. unfold B64.rne.
  assert (Hf : Qfloor s = Qfloor t) by (rewrite H; reflexivity).
  assert (Hc : Qcompare (s - inject_Z (Qfloor s)) (1 # 2)
               = Qcompare (t - inject_Z (Qfloor t)) (1 # 2))
    by (rewrite Hf, H; reflexivity).
  rewrite Hc, Hf. reflexivity.
Qed.

Lemma flog2_unique (q : Q) (e : Z) :
  (2 ^ e <= q)%Q -> (q < 2 ^ (e + 1))%Q -> B64.flog2 q = e.
Proof.
  intros Hlo Hhi.
  assert (Hq : (0 < q)%Q) by (eapply Qlt_le_trans; [apply (pow2_pos e) | exact Hlo]).
  destruct (flog2_spec q Hq) as [Flo Fhi].
  assert (H1 : e < B64.flog2 q + 1).
  { apply pow2_lt_inv. eapply Qle_lt_trans; [exact Hlo | exact Fhi]. }
  assert (H2 : B64.flog2 q < e + 1).
  { apply pow2_lt_inv. eapply Qle_lt_trans; [exact Flo | exact Hhi]. }
  lia.
Qed.

Lemma flog2_comp (p q : Q) : (0 < p)%Q -> (p == q)%Q -> B64.flog2 p = B64.flog2 q.
Proof.
  intros Hp H. assert (Hq : (0 < q)%Q) by (rewrite <- H; exact Hp).
  destruct (flog2_spec q Hq) as [Flo Fhi].
  apply flog2_unique; rewrite H; assumption.
Qed.

Lemma round_pos_comp (p q : Q) :
  (0 < p)%Q -> (p == q)%Q -> (B64.round_pos p == B64.round_pos q)%Q.
Proof.
  intros Hp H. unfold B64.round_pos. rewrite (flog2_comp p q Hp H).
  rewrite (rne_comp (p / 2 ^ (B64.flog2 q - (B64.prec - 1)))
             (q / 2 ^ (B64.flog2 q - (B64.prec - 1)))) by (rewrite H; reflexivity).
  reflexivity.
Qed.

Lemma pow2_nonzero (e : Z) : ~ (2 ^ e == 0)%Q.
Proof. pose proof (pow2_pos e). lra. Qed.

(** Rounding commutes with a scaling by a power of two. *)
Lemma round_pos_scale (q : Q) (j : Z) :
  (0 < q)%Q -> (B64.round_pos (q * 2 ^ j) == B64.round_pos q * 2 ^ j)%Q.
Proof.
  intros Hq. destruct (flog2_spec q Hq) as [Flo Fhi].
  pose proof (pow2_pos j) as Pj.
  assert (Ef : B64.flog2 (q * 2 ^ j) = B64.flog2 q + j).
  { apply flog2_unique.
    - rewrite pow2_add. apply Qmult_le_r; assumption.
    - replace (B64.flog2 q + j + 1) with (B64.flog2 q + 1 + j) by lia.
      rewrite pow2_add. apply Qmult_lt_r; assumption. }
  unfold B64.round_pos. rewrite Ef.
  set (c := B64.flog2 q - (B64.prec - 1)).
  replace (B64.flog2 q + j - (B64.prec - 1)) with (c + j) by (unfold c; lia).
  rewrite (rne_comp (q * 2 ^ j / 2 ^ (c + j)) (q / 2 ^ c)).
  - rewrite pow2_add. ring.
  - rewrite pow2_add. field. split; apply pow2_nonzero.
Qed.

Lemma rnd_scale (q : Q) (j : Z) : (B64.rnd (q * 2 ^ j) == B64.rnd q * 2 ^ j)%Q.
Proof.
  pose proof (pow2_pos j) as Pj.
  destruct (Q_dec q 0) as [[Hn | Hp] | Hz].
  - assert (Hn' : (q * 2 ^ j < 0)%Q) by nra.
    rewrite (rnd_of_neg _ Hn'), (rnd_of_neg _ Hn).
    rewrite (round_pos_comp (Qred (- (q * 2 ^ j))) ((- q) * 2 ^ j)).
    + rewrite round_pos_scale by lra.
      rewrite (round_pos_comp (Qred (- q)) (- q)).
      * ring.
      * rewrite Qred_correct. lra.
      * apply Qred_correct.
    + rewrite Qred_correct. lra.
    + rewrite Qred_correct. ring.
  - assert (Hp' : (0 < q * 2 ^ j)%Q) by nra.
    rewrite (rnd_of_pos _ Hp'), (rnd_of_pos _ Hp).
    rewrite (round_pos_comp (Qred (q * 2 ^ j)) (q * 2 ^ j)).
    + rewrite round_pos_scale by assumption.
      rewrite (round_pos_comp (Qred q) q).
      * reflexivity.
      * rewrite Qred_correct. assumption.
      * apply Qred_correct.
    + rewrite Qred_correct. assumption.
    + apply Qred_correct.
  - rewrite (rnd_zero q Hz). rewrite rnd_zero by (rewrite Hz; ring). ring.
Qed.

Lemma pow2_cancel (j : Z) : (2 ^ j * 2 ^ (- j) == 1)%Q.
Proof.
  rewrite <- pow2_add. replace (j + - j) with 0 by lia. reflexivity.
Qed.

(** A dyadic number with a numerator of at most 53 bits that bounds [q]
    from below (from above) also bounds the rounding of [q]. *)
Lemma rnd_ge_dyadic (q : Q) (k j : Z) :
  0 < k <= 2 ^ 52 -> (inject_Z k * 2 ^ j <= q)%Q ->
  (inject_Z k * 2 ^ j <= B64.rnd q)%Q.
Proof.
  intros Hk Hq. pose proof (pow2_pos j) as Pj. pose proof (pow2_pos (- j)) as Pn.
  pose proof (pow2_cancel j) as Ec.
  assert (H1 : (inject_Z k <= q * 2 ^ (- j))%Q).
  { apply Qle_trans with (inject_Z k * 2 ^ j * 2 ^ (- j))%Q.
    - rewrite <- Qmult_assoc, Ec. lra.
    - apply Qmult_le_r; assumption. }
  apply (rnd_ge_int _ k Hk) in H1. rewrite rnd_scale in H1.
  apply Qle_trans with (B64.rnd q * 2 ^ (- j) * 2 ^ j)%Q.
  - apply Qmult_le_r; assumption.
  - rewrite <- Qmult_assoc, (Qmult_comm (2 ^ (- j))), Ec. lra.
Qed.

Lemma rnd_le_dyadic (q : Q) (k j : Z) :
  0 <= k < 2 ^ 53 -> (0 <= q)%Q -> (q <= inject_Z k * 2 ^ j)%Q ->
  (B64.rnd q <= inject_Z k * 2 ^ j)%Q.
Proof.
  intros Hk Hq0 Hq. pose proof (pow2_pos j) as Pj. pose proof (pow2_pos (- j)) as Pn.
  pose proof (pow2_cancel j) as Ec.
  assert (H1 : (q * 2 ^ (- j) <= inject_Z k)%Q).
  { apply Qle_trans with (inject_Z k * 2 ^ j * 2 ^ (- j))%Q.
    - apply Qmult_le_r; assumption.
    - rewrite <- Qmult_assoc, Ec. lra. }
  assert (H0 : (0 <= q * 2 ^ (- j))%Q) by nra.
  apply (rnd_le_int _ k Hk H0) in H1. rewrite rnd_scale in H1.
  apply Qle_trans with (B64.rnd q * 2 ^ (- j) * 2 ^ j)%Q.
  - rewrite <- Qmult_assoc, (Qmult_comm (2 ^ (- j))), Ec. lra.
  - apply Qmult_le_r; assumption.
Qed.

Lemma rnd_canonical (q : Q) : Qred (B64.rnd q) = B64.rnd q.
Proof.
  unfold B64.rnd.
  destruct (Qcompare q 0); [reflexivity | |]; apply Qred_complete, Qred_correct.
Qed.

Lemma Qred_inject_Z (n : Z) : Qred (inject_Z n) = inject_Z n.
Proof.
  unfold Qred, inject_Z.
  pose proof (Z.ggcd_gcd n 1) as G. pose proof (Z.ggcd_correct_divisors n 1) as D.
  destruct (Z.ggcd n 1) as [g [a b]]. cbn [fst snd] in *.
  rewrite Z.gcd_1_r in G. subst g. destruct D as [D1 D2].
  assert (Ea : a = n) by lia. assert (Eb : b = 1) by lia. subst a b. reflexivity.
Qed.

(** Integers of at most 53 bits are binary64 numbers. *)
Lemma rnd_int (n : Z) : 0 <= n <= 2 ^ 52 -> B64.rnd (inject_Z n) = inject_Z n.
Proof.
  intros Hn. rewrite <- rnd_canonical.
  replace (inject_Z n) with (Qred (inject_Z n)) at 2.
  - apply Qred_complete. apply Qle_antisym.
    + apply rnd_le_int; [lia | | apply Qle_refl]. rewrite <- (Zle_Qle 0). lia.
    + destruct (Z.eq_dec n 0) as [-> | Hz].
      * rewrite rnd_zero by reflexivity. apply Qle_refl.
      * apply rnd_ge_int; [lia | apply Qle_refl].
  - apply Qred_inject_Z.
Qed.

(** The relative error of a rounding is at most [2^-52]. *)
Lemma round_pos_rel (q : Q) :
  (0 < q)%Q ->
  (q * (1 - 2 ^ (-52)) <= B64.round_pos q)%Q
  /\ (B64.round_pos q <= q * (1 + 2 ^ (-52)))%Q.
Proof.
  intros Hq. destruct (flog2_spec q Hq) as [Hlo _].
  unfold B64.round_pos, B64.prec. set (e := B64.flog2 q) in *.
  set (c := e - (53 - 1)).
  pose proof (pow2_pos c) as Pc.
  set (s := (q / 2 ^ c)%Q).
  assert (Es : (s * 2 ^ c == q)%Q) by (unfold s; field; apply pow2_nonzero).
  assert (Hs : (2 ^ 52 <= s)%Q).
  { unfold s. apply Qle_shift_div_l; [assumption |].
    rewrite <- pow2_add. replace (52 + c) with e by (unfold c; lia). assumption. }
  assert (Hu : (1 <= s * 2 ^ (-52))%Q).
  { apply Qle_trans with (2 ^ 52 * 2 ^ (-52))%Q.
    - rewrite (pow2_cancel 52). apply Qle_refl.
    - apply Qmult_le_r; [apply pow2_pos | assumption]. }
  pose proof (Qfloor_le s) as F1. pose proof (Qlt_floor s) as F2.
  pose proof (rne_ge_floor s) as R1. pose proof (rne_le_floor_succ s) as R2.
  rewrite Zle_Qle in R1, R2. rewrite inject_Z_plus in R2, F2.
  change (inject_Z 1) with 1%Q in *.
  set (r := inject_Z (B64.rne s)) in *. set (f := inject_Z (Qfloor s)) in *.
  set (u := (2 ^ (-52))%Q) in *.
  split.
  - apply Qle_trans with (s * (1 - u) * 2 ^ c)%Q.
    + rewrite <- Es at 1. lra.
    + apply Qmult_le_r; [assumption | lra].
  - apply Qle_trans with (s * (1 + u) * 2 ^ c)%Q.
    + apply Qmult_le_r; [assumption | lra].
    + rewrite <- Es at 1. lra.
Qed.

Lemma rnd_rel (q : Q) :
  (0 < q)%Q ->
  (q * (1 - 2 ^ (-52)) <= B64.rnd q)%Q /\ (B64.rnd q <= q * (1 + 2 ^ (-52)))%Q.
Proof.
  intros Hq. rewrite (rnd_of_pos q Hq).
  assert (Hr : (0 < Qred q)%Q) by (rewrite Qred_correct; assumption).
  destruct (round_pos_rel (Qred q) Hr) as [L U]. split.
  - eapply Qle_trans; [| exact L]. rewrite (Qred_correct q). apply Qle_refl.
  - eapply Qle_trans; [exact U |]. rewrite (Qred_correct q). apply Qle_refl.
Qed.

(** ** The sizes that step 9 requests *)

(** [int(w * scale)] for [scale = T / m]: bounds in integers, valid
    whatever the two roundings do. *)
Lemma scaled_dim_nonneg (T m w : Z) :
  0 < T -> 0 < m -> 0 <= w <= 2 ^ 52 ->
  0 <= B64.trunc (B64.int_mul w (B64.rnd (inject_Z T / inject_Z m))).
Proof.
  intros HT Hm Hw. unfold B64.int_mul, B64.mul, B64.of_int.
  rewrite rnd_int by assumption.
  assert (Hs : (0 < B64.rnd (inject_Z T / inject_Z m))%Q).
  { apply rnd_pos. apply Qlt_shift_div_l.
    - rewrite <- (Zlt_Qlt 0). assumption.
    - rewrite Qmult_0_l. rewrite <- (Zlt_Qlt 0). assumption. }
  assert (Hw0 : (0 <= inject_Z w)%Q) by (rewrite <- (Zle_Qle 0); lia).
  set (s := B64.rnd (inject_Z T / inject_Z m)) in *.
  assert (Hq : (0 <= inject_Z w * s)%Q) by nra.
  assert (Hr : (0 <= B64.rnd (inject_Z w * s))%Q).
  { destruct (Qlt_le_dec 0 (inject_Z w * s)) as [Hp | Hz].
    - apply Qlt_le_weak. apply rnd_pos. assumption.
    - rewrite rnd_zero by lra. apply Qle_refl. }
  rewrite trunc_floor by assumption.
  rewrite <- (Qfloor_Z 0). apply Qfloor_resp_le. assumption.
Qed.

Lemma scaled_dim_upper (T m w B : Z) :
  0 < T -> 0 < m -> 0 <= w <= 2 ^ 52 -> 0 < B <= 2 ^ 40 ->
  w * T <= B * m ->
  B64.trunc (B64.int_mul w (B64.rnd (inject_Z T / inject_Z m))) <= B.
Proof.
  intros HT Hm Hw HB H. unfold B64.int_mul, B64.mul, B64.of_int.
  rewrite rnd_int by assumption.
  assert (HTq : (0 < inject_Z T)%Q) by (rewrite <- (Zlt_Qlt 0); assumption).
  assert (Hmq : (0 < inject_Z m)%Q) by (rewrite <- (Zlt_Qlt 0); assumption).
  assert (Hwq : (0 <= inject_Z w)%Q) by (rewrite <- (Zle_Qle 0); lia).
  assert (HBq : (inject_Z B <= inject_Z (2 ^ 40))%Q) by (rewrite <- Zle_Qle; lia).
  assert (Hr : (0 < inject_Z T / inject_Z m)%Q).
  { apply Qlt_shift_div_l; [assumption |]. rewrite Qmult_0_l. assumption. }
  destruct (rnd_rel _ Hr) as [_ U].
  pose proof (rnd_pos _ Hr) as Hs.
  assert (Hwr : (inject_Z w * (inject_Z T / inject_Z m) <= inject_Z B)%Q).
  { assert (E : (inject_Z w * (inject_Z T / inject_Z m)
                 == inject_Z (w * T) / inject_Z m)%Q)
      by (rewrite inject_Z_mult; field; lra).
    rewrite E. apply Qdiv_le_int; assumption. }
  set (r := (inject_Z T / inject_Z m)%Q) in *. set (s := B64.rnd r) in *.
  change (2 ^ (-52))%Q with (1 # 4503599627370496)%Q in U.
  change (inject_Z (2 ^ 40)) with (1099511627776 # 1)%Q in HBq.
  set (W := inject_Z w) in *. set (Bq := inject_Z B) in *.
  assert (Hq0 : (0 <= W * s)%Q) by nra.
  assert (Hq : (W * s <= Bq + (1 # 4096))%Q).
  { assert (H1 : (W * s <= W * (r * (1 + (1 # 4503599627370496))))%Q) by nra.
    assert (H2 : (W * (r * (1 + (1 # 4503599627370496)))
                  == W * r + W * r * (1 # 4503599627370496))%Q) by ring.
    assert (H3 : (0 <= W * r)%Q) by nra.
    lra. }
  assert (Hd : (Bq + (1 # 4096) == inject_Z (B * 4096 + 1) * 2 ^ (-12))%Q).
  { rewrite inject_Z_plus, inject_Z_mult. fold Bq.
    change (2 ^ (-12))%Q with (1 # 4096)%Q.
    change (inject_Z 4096) with (4096 # 1)%Q. change (inject_Z 1) with 1%Q. ring. }
  rewrite Hd in Hq.
  apply rnd_le_dyadic in Hq; [| lia | assumption].
  rewrite <- Hd in Hq.
  assert (Hr0 : (0 <= B64.rnd (W * s))%Q).
  { destruct (Qlt_le_dec 0 (W * s)) as [Hp | Hz].
    - apply Qlt_le_weak. apply rnd_pos. assumption.
    - rewrite rnd_zero by lra. apply Qle_refl. }
  rewrite trunc_floor by assumption.
  assert (Hf : Qfloor (B64.rnd (W * s)) < B + 1); [| lia].
  rewrite Zlt_Qlt. pose proof (Qfloor_le (B64.rnd (W * s))) as Hfl.
  rewrite inject_Z_plus. fold Bq. change (inject_Z 1) with 1%Q. lra.
Qed.

Lemma scaled_dim_lower (T m w A : Z) :
  0 < T -> 0 < m -> 0 <= w <= 2 ^ 52 -> 0 < A <= 2 ^ 39 ->
  A * m <= w * T ->
  A - 1 <= B64.trunc (B64.int_mul w (B64.rnd (inject_Z T / inject_Z m))).
Proof.
  intros HT Hm Hw HA H. unfold B64.int_mul, B64.mul, B64.of_int.
  rewrite rnd_int by assumption.
  assert (HTq : (0 < inject_Z T)%Q) by (rewrite <- (Zlt_Qlt 0); assumption).
  assert (Hmq : (0 < inject_Z m)%Q) by (rewrite <- (Zlt_Qlt 0); assumption).
  assert (Hwq : (0 <= inject_Z w)%Q) by (rewrite <- (Zle_Qle 0); lia).
  assert (HAq : (inject_Z A <= inject_Z (2 ^ 39))%Q) by (rewrite <- Zle_Qle; lia).
  assert (HA1 : (1 <= inject_Z A)%Q) by (rewrite <- (Zle_Qle 1); lia).
  assert (Hr : (0 < inject_Z T / inject_Z m)%Q).
  { apply Qlt_shift_div_l; [assumption |]. rewrite Qmult_0_l. assumption. }
  destruct (rnd_rel _ Hr) as [Lo _].
  assert (Hwr : (inject_Z A <= inject_Z w * (inject_Z T / inject_Z m))%Q).
  { assert (E : (inject_Z w * (inject_Z T / inject_Z m)
                 == inject_Z (w * T) / inject_Z m)%Q)
      by (rewrite inject_Z_mult; field; lra).
    rewrite E. apply Qdiv_ge_int; assumption. }
  set (r := (inject_Z T / inject_Z m)%Q) in *. set (s := B64.rnd r) in *.
  change (2 ^ (-52))%Q with (1 # 4503599627370496)%Q in Lo.
  change (inject_Z (2 ^ 39)) with (549755813888 # 1)%Q in HAq.
  set (W := inject_Z w) in *. set (Aq := inject_Z A) in *.
  assert (Hq : (Aq - (1 # 4096) <= W * s)%Q).
  { assert (H1 : (W * (r * (1 - (1 # 4503599627370496))) <= W * s)%Q) by nra.
    assert (H2 : (W * (r * (1 - (1 # 4503599627370496)))
                  == W * r * (1 - (1 # 4503599627370496)))%Q) by ring.
    assert (H3 : (Aq * (1 - (1 # 4503599627370496))
                  <= W * r * (1 - (1 # 4503599627370496)))%Q) by nra.
    lra. }
  assert (Hd : (Aq - (1 # 4096) == inject_Z (A * 4096 - 1) * 2 ^ (-12))%Q).
  { unfold Z.sub. rewrite inject_Z_plus, inject_Z_mult. fold Aq.
    change (2 ^ (-12))%Q with (1 # 4096)%Q.
    change (inject_Z 4096) with (4096 # 1)%Q. change (inject_Z (- (1))) with (- (1))%Q.
    ring. }
  rewrite Hd in Hq.
  apply rnd_ge_dyadic in Hq; [| lia].
  rewrite <- Hd in Hq.
  assert (Hr0 : (0 <= B64.rnd (W * s))%Q) by lra.
  rewrite trunc_floor by assumption.
  assert (Hf : A - 1 <= Qfloor (B64.rnd (W * s))); [| lia].
  rewrite <- (Qfloor_Z (A - 1)). apply Qfloor_resp_le.
  unfold Z.sub. rewrite inject_Z_plus. fold Aq. change (inject_Z (- (1))) with (- (1))%Q.
  lra.
Qed.

Lemma truediv_ok (a b : Z) :
  b <> 0 -> B64.truediv a b = Ok (B64.rnd (inject_Z a / inject_Z b)).
Proof.
  intros H. unfold B64.truediv. destruct (Z.eqb_spec b 0); [contradiction | reflexivity].
Qed.

(** The second resize of step 9: whatever it is given, what it returns
    has no dimension above 1500. *)
Lemma step9_downscale_bound (w h w' h' : Z) :
  0 < w <= 2 ^ 40 -> 0 < h <= 2 ^ 40 ->
  (if Z.max w h >? 1500 then
     let! scale := B64.truediv 1500 (Z.max w h) in
     resize_size (w, h)
       (B64.trunc (B64.int_mul w scale), B64.trunc (B64.int_mul h scale))
   else Ok (w, h)) = Ok (w', h') ->
  0 < w' /\ 0 < h' /\ Z.max w' h' <= 1500.
Proof.
  intros Hw Hh. destruct (Z.gtb_spec (Z.max w h) 1500) as [G | G].
  - rewrite truediv_ok by lia. cbn [rbind].
    set (s := B64.rnd (inject_Z 1500 / inject_Z (Z.max w h))).
    pose proof (scaled_dim_upper 1500 (Z.max w h) w 1500) as Uw.
    pose proof (scaled_dim_upper 1500 (Z.max w h) h 1500) as Uh.
    fold s in Uw, Uh.
    assert (Uw' : B64.trunc (B64.int_mul w s) <= 1500) by (apply Uw; lia).
    assert (Uh' : B64.trunc (B64.int_mul h s) <= 1500) by (apply Uh; lia).
    unfold resize_size.
    destruct ((_ =? w) && (_ =? h)) eqn:Eq.
    + intros E. injection E as <- <-. lia.
    + destruct ((_ <? 1) || (_ <? 1)) eqn:El; [discriminate |].
      apply orb_false_iff in El. destruct El as [E1 E2]. apply Z.ltb_ge in E1, E2.
      intros E. injection E as <- <-. lia.
  - intros E. injection E as <- <-. lia.
Qed.

(** Whatever step 9 returns has no dimension above 1500. *)
Lemma step9_size_bound (w h w' h' : Z) :
  0 <= w <= 2 ^ 31 -> 0 <= h <= 2 ^ 31 ->
  step9_size w h = Ok (w', h') ->
  0 < w' /\ 0 < h' /\ Z.max w' h' <= 1500.
Proof.
  intros Hw Hh. unfold step9_size.
  destruct (Z.ltb_spec (Z.min w h) 400) as [L | L].
  - unfold B64.truediv at 1. destruct (Z.eqb_spec (Z.min w h) 0) as [Z0 | NZ];
      [discriminate |].
    cbn [rbind].
    set (s := B64.rnd (inject_Z 400 / inject_Z (Z.min w h))).
    assert (Hm : 0 < Z.min w h) by lia.
    pose proof (scaled_dim_upper 400 (Z.min w h) w (400 * w)) as Uw.
    pose proof (scaled_dim_upper 400 (Z.min w h) h (400 * h)) as Uh.
    fold s in Uw, Uh.
    assert (Uw' : B64.trunc (B64.int_mul w s) <= 400 * w) by (apply Uw; nia).
    assert (Uh' : B64.trunc (B64.int_mul h s) <= 400 * h) by (apply Uh; nia).
    unfold resize_size at 1.
    destruct ((_ =? w) && (_ =? h)) eqn:Eq; cbn [rbind fst snd].
    + apply step9_downscale_bound; lia.
    + destruct ((_ <? 1) || (_ <? 1)) eqn:El; cbn [rbind fst snd]; [discriminate |].
      apply orb_false_iff in El. destruct El as [E1 E2]. apply Z.ltb_ge in E1, E2.
      apply step9_downscale_bound; lia.
  - cbn [rbind]. apply step9_downscale_bound; lia.
Qed.

(** The second resize returns when no dimension shrinks below one
    pixel: the larger side is at most 750 times the smaller. *)
Lemma step9_downscale_returns (w h : Z) :
  0 < w <= 2 ^ 40 -> 0 < h <= 2 ^ 40 ->
  2 * Z.max w h <= 1500 * Z.min w h ->
  exists w' h',
    (if Z.max w h >? 1500 then
       let! scale := B64.truediv 1500 (Z.max w h) in
       resize_size (w, h)
         (B64.trunc (B64.int_mul w scale), B64.trunc (B64.int_mul h scale))
     else Ok (w, h)) = Ok (w', h').
Proof.
  intros Hw Hh Hr. destruct (Z.gtb_spec (Z.max w h) 1500) as [G | G].
  - rewrite truediv_ok by lia. cbn [rbind].
    set (s := B64.rnd (inject_Z 1500 / inject_Z (Z.max w h))).
    pose proof (scaled_dim_lower 1500 (Z.max w h) w 2) as Lw.
    pose proof (scaled_dim_lower 1500 (Z.max w h) h 2) as Lh.
    fold s in Lw, Lh.
    assert (Lw' : 1 <= B64.trunc (B64.int_mul w s)) by (apply Lw; lia).
    assert (Lh' : 1 <= B64.trunc (B64.int_mul h s)) by (apply Lh; lia).
    unfold resize_size.
    destruct ((_ =? w) && (_ =? h)); [eexists _, _; reflexivity |].
    destruct (Z.ltb_spec (B64.trunc (B64.int_mul w s)) 1); [lia |].
    destruct (Z.ltb_spec (B64.trunc (B64.int_mul h s)) 1); [lia |].
    eexists _, _; reflexivity.
  - eexists _, _; reflexivity.
Qed.

(** The first resize: both requested dimensions are at least 399, and
    the one of the smaller side is at most 400. *)
Lemma step9_upscale_dims (w h : Z) :
  0 < Z.min w h -> Z.max w h <= 2 ^ 31 ->
  let s := B64.rnd (inject_Z 400 / inject_Z (Z.min w h)) in
  let dw := B64.trunc (B64.int_mul w s) in
  let dh := B64.trunc (B64.int_mul h s) in
  399 <= Z.min dw dh <= 400
  /\ resize_size (w, h) (dw, dh) = Ok (dw, dh)
  /\ forall B, 0 < B <= 2 ^ 40 -> Z.max w h * 400 <= B * Z.min w h ->
               Z.max dw dh <= B.
Proof.
  intros Hm HM s dw dh.
  pose proof (scaled_dim_lower 400 (Z.min w h) w 400) as Lw.
  pose proof (scaled_dim_lower 400 (Z.min w h) h 400) as Lh.
  fold s in Lw, Lh. fold dw in Lw. fold dh in Lh.
  assert (Lw' : 399 <= dw) by (apply Lw; lia).
  assert (Lh' : 399 <= dh) by (apply Lh; lia).
  assert (Um : Z.min dw dh <= 400).
  { destruct (Z_le_gt_dec w h) as [C | C].
    - pose proof (scaled_dim_upper 400 (Z.min w h) w 400) as U.
      fold s in U. fold dw in U. assert (dw <= 400) by (apply U; lia). lia.
    - pose proof (scaled_dim_upper 400 (Z.min w h) h 400) as U.
      fold s in U. fold dh in U. assert (dh <= 400) by (apply U; lia). lia. }
  split; [lia |]. split.
  - unfold resize_size.
    destruct (Z.eqb_spec dw w) as [-> | Nw]; cbn [andb].
    + destruct (Z.eqb_spec dh h) as [-> | Nh]; [reflexivity |].
      destruct (Z.ltb_spec w 1); [lia |]. destruct (Z.ltb_spec dh 1); [lia |].
      reflexivity.
    + destruct (Z.ltb_spec dw 1); [lia |]. destruct (Z.ltb_spec dh 1); [lia |].
      reflexivity.
  - intros B HB Hr.
    pose proof (scaled_dim_upper 400 (Z.min w h) w B) as Uw.
    pose proof (scaled_dim_upper 400 (Z.min w h) h B) as Uh.
    fold s in Uw, Uh. fold dw in Uw. fold dh in Uh.
    assert (dw <= B) by (apply Uw; nia).
    assert (dh <= B) by (apply Uh; nia).
    lia.
Qed.

Lemma step9_size_min_lt_400 (w h : Z) :
  0 < Z.min w h < 400 ->
  step9_size w h
  = (let s := B64.rnd (inject_Z 400 / inject_Z (Z.min w h)) in
     let! size :=
       resize_size (w, h) (B64.trunc (B64.int_mul w s), B64.trunc (B64.int_mul h s)) in
     let '(w1, h1) := size in
     if Z.max w1 h1 >? 1500 then
       let! scale := B64.truediv 1500 (Z.max w1 h1) in
       resize_size (w1, h1)
         (B64.trunc (B64.int_mul w1 scale), B64.trunc (B64.int_mul h1 scale))
     else Ok (w1, h1)).
Proof.
  intros Hm. unfold step9_size.
  destruct (Z.ltb_spec (Z.min w h) 400); [| lia].
  rewrite truediv_ok by lia. cbn [rbind]. cbv zeta.
  destruct (resize_size (w, h) _) as [[w1 h1] | e]; reflexivity.
Qed.

(** Upscaling: when the smaller side is below 400 and the larger side
    is at most 3.75 times the smaller, the smaller side becomes 399 or
    400 and there is no second resize. *)
Lemma step9_size_upscale (w h : Z) :
  0 < Z.min w h < 400 -> 4 * Z.max w h <= 15 * Z.min w h ->
  exists w' h',
    step9_size w h = Ok (w', h')
    /\ 399 <= Z.min w' h' <= 400 /\ Z.max w' h' <= 1500.
Proof.
  intros Hm Hr. rewrite step9_size_min_lt_400 by assumption. cbv zeta.
  destruct (step9_upscale_dims w h) as (Hmin & Hres & Hmax); [lia | lia |].
  rewrite Hres. cbn [rbind].
  specialize (Hmax 1500). 
  set (s := B64.rnd (inject_Z 400 / inject_Z (Z.min w h))) in *.
  set (dw := B64.trunc (B64.int_mul w s)) in *.
  set (dh := B64.trunc (B64.int_mul h s)) in *.
  assert (HM : Z.max dw dh <= 1500) by (apply Hmax; lia).
  destruct (Z.gtb_spec (Z.max dw dh) 1500); [lia |].
  exists dw, dh. split; [reflexivity | split; assumption].
Qed.

(** Step 9 returns for every size whose larger side is at most 700
    times the smaller. *)
Lemma step9_size_returns (w h : Z) :
  0 < Z.min w h -> Z.max w h <= 2 ^ 31 -> Z.max w h <= 700 * Z.min w h ->
  exists w' h', step9_size w h = Ok (w', h').
Proof.
  intros Hm HM Hr. destruct (Z_lt_le_dec (Z.min w h) 400) as [L | L].
  - rewrite step9_size_min_lt_400 by lia. cbv zeta.
    destruct (step9_upscale_dims w h) as (Hmin & Hres & Hmax); [lia | lia |].
    rewrite Hres. cbn [rbind].
    specialize (Hmax 280000).
    set (s := B64.rnd (inject_Z 400 / inject_Z (Z.min w h))) in *.
  set (dw := B64.trunc (B64.int_mul w s)) in *.
  set (dh := B64.trunc (B64.int_mul h s)) in *.
    assert (HB : Z.max dw dh <= 280000) by (apply Hmax; lia).
    apply step9_downscale_returns; lia.
  - unfold step9_size. destruct (Z.ltb_spec (Z.min w h) 400); [lia |].
    cbn [rbind]. apply step9_downscale_returns; lia.
Qed.

(** ** Well-formed images through the pipeline *)

(** [raster_ok], row by row. *)
Lemma raster_ok_rows {A : Type} (ok : A -> bool) (w h : nat) (px : list (list A)) :
  raster_ok ok w h px = true
  <-> length px = h
      /\ Forall (fun r => length r = w /\ Forall (fun p => ok p = true) r) px.
Proof.
  unfold raster_ok. rewrite andb_true_iff, Nat.eqb_eq, forallb_forall, List.Forall_forall.
  split; intros [H1 H2]; (split; [exact H1 |]); intros r Hr; specialize (H2 r Hr).
  - apply andb_true_iff in H2. destruct H2 as [Hl Hp]. apply Nat.eqb_eq in Hl.
    split; [exact Hl |]. apply List.Forall_forall. apply forallb_forall. exact Hp.
  - destruct H2 as [Hl Hp]. apply andb_true_iff. split; [apply Nat.eqb_eq; exact Hl |].
    apply forallb_forall. apply List.Forall_forall. exact Hp.
Qed.

Lemma raster_ok_map {A B : Type} (okA : A -> bool) (okB : B -> bool) (f : A -> B)
    (w h : nat) (px : list (list A)) :
  raster_ok okA w h px = true ->
  (forall a, okA a = true -> okB (f a) = true) ->
  raster_ok okB w h (map (map f) px) = true.
Proof.
  rewrite !raster_ok_rows. intros [Hl Hr] Hf. split; [rewrite length_map; exact Hl |].
  apply List.Forall_forall. intros r Hin. apply in_map_iff in Hin.
  destruct Hin as (r0 & <- & Hr0). rewrite List.Forall_forall in Hr.
  destruct (Hr r0 Hr0) as [Hlen Hok]. split; [rewrite length_map; exact Hlen |].
  apply List.Forall_forall. intros b Hb. apply in_map_iff in Hb.
  destruct Hb as (a & <- & Ha). apply Hf. rewrite List.Forall_forall in Hok.
  apply Hok. exact Ha.
Qed.

Lemma map_map_rows {A B C : Type} (f : A -> B) (g : B -> C) (px : list (list A)) :
  map (map g) (map (map f) px) = map (map (fun a => g (f a))) px.
Proof.
  rewrite map_map. apply map_ext. intros r. apply map_map.
Qed.

(** The luma of three bytes is a byte, and the luma of a gray pixel is
    its value. *)
Lemma rgb2l_range (r g b : Z) :
  0 <= r <= 255 -> 0 <= g <= 255 -> 0 <= b <= 255 ->
  0 <= PIL.rgb2l r g b <= 255.
Proof.
  intros Hr Hg Hb. unfold PIL.rgb2l. rewrite Z.shiftr_div_pow2 by lia.
  change (2 ^ 16) with 65536. Z.div_mod_to_equations. lia.
Qed.

Lemma rgb2l_gray (v : Z) : PIL.rgb2l v v v = v.
Proof.
  unfold PIL.rgb2l. rewrite Z.shiftr_div_pow2 by lia. change (2 ^ 16) with 65536.
  Z.div_mod_to_equations. lia.
Qed.

(** [DIV255] divides by 255 and rounds: blending two bytes gives a
    byte, the first one for mask 0 and the second one for mask 255. *)
Lemma DIV255_range (a : Z) : 0 <= a <= 65025 -> 0 <= PIL.DIV255 a <= 255.
Proof.
  intros Ha. unfold PIL.DIV255. cbv zeta. rewrite !Z.shiftr_div_pow2 by lia.
  change (2 ^ 8) with 256. Z.div_mod_to_equations. lia.
Qed.

Lemma DIV255_exact (x : Z) : 0 <= x <= 255 -> PIL.DIV255 (x * 255) = x.
Proof.
  intros Hx. unfold PIL.DIV255. cbv zeta. rewrite !Z.shiftr_div_pow2 by lia.
  change (2 ^ 8) with 256. Z.div_mod_to_equations. lia.
Qed.

Lemma BLEND8_range (mask in1 in2 : Z) :
  0 <= mask <= 255 -> 0 <= in1 <= 255 -> 0 <= in2 <= 255 ->
  0 <= PIL.BLEND8 mask in1 in2 <= 255.
Proof.
  intros Hm H1 H2. unfold PIL.BLEND8. apply DIV255_range. nia.
Qed.

Lemma BLEND8_transparent (in1 in2 : Z) :
  0 <= in1 <= 255 -> PIL.BLEND8 0 in1 in2 = in1.
Proof.
  intros H1. unfold PIL.BLEND8.
  replace (in1 * (255 - 0) + in2 * 0) with (in1 * 255) by lia.
  apply DIV255_exact. exact H1.
Qed.

Lemma BLEND8_opaque (in1 in2 : Z) :
  0 <= in2 <= 255 -> PIL.BLEND8 255 in1 in2 = in2.
Proof.
  intros H2. unfold PIL.BLEND8.
  replace (in1 * (255 - 255) + in2 * 255) with (in2 * 255) by lia.
  apply DIV255_exact. exact H2.
Qed.

Lemma flat_luma_range (c : rgba) :
  rgba_ok c = true -> 0 <= flat_luma c <= 255.
Proof.
  destruct c as [[[r g] b] a]. unfold rgba_ok, flat_luma.
  rewrite !andb_true_iff, !byte_ok_range. intros [[[Hr Hg] Hb] Ha].
  apply rgb2l_range; apply BLEND8_range; assumption || lia.
Qed.

Lemma luma_range (c : rgb) : rgb_ok c = true -> 0 <= luma c <= 255.
Proof.
  destruct c as [[r g] b]. unfold rgb_ok, luma.
  rewrite !andb_true_iff, !byte_ok_range. intros [[Hr Hg] Hb].
  apply rgb2l_range; assumption.
Qed.

(** Pasting an image onto a background of one colour, through its own
    alpha band, pixel by pixel. *)
Lemma paste_row_uniform (color : rgba) (w : nat) (r : list rgba) :
  length r = w ->
  PIL.paste_row (repeat color w) r (map (fun '(_, _, _, a) => a) r)
  = map (fun c => PIL.paste_pixel color c (let '(_, _, _, a) := c in a)) r.
Proof.
  unfold PIL.paste_row. revert w. induction r as [| c r IH]; intros w Hl.
  - destruct w; reflexivity.
  - destruct w as [| w]; [discriminate |]. injection Hl as Hl.
    cbn [repeat map combine]. rewrite (IH w Hl).
    destruct c as [[[r0 g0] b0] a0]. reflexivity.
Qed.

Lemma paste_rows_uniform (color : rgba) (w h : nat) (px : list (list rgba)) :
  length px = h -> Forall (fun r => length r = w) px ->
  map (fun '(o, i, m) => PIL.paste_row o i m)
    (combine (combine (repeat (repeat color w) h) px)
       (map (map (fun '(_, _, _, a) => a)) px))
  = map (map (fun c => PIL.paste_pixel color c (let '(_, _, _, a) := c in a))) px.
Proof.
  intros Hl F. revert h Hl. induction F as [| r px Hr F IH]; intros h Hl.
  - destruct h; reflexivity.
  - destruct h as [| h]; [discriminate |]. injection Hl as Hl.
    cbn [repeat map combine]. rewrite (IH h Hl), (paste_row_uniform color w r Hr).
    reflexivity.
Qed.

(** Steps 1 and 2 on each mode. *)
Lemma flatten_on_white_rows (w h : nat) (px : list (list rgba)) :
  length px = h -> Forall (fun r => length r = w) px ->
  Backend.step2 (Backend.flatten_on_white (ImageRGBA w h px))
  = Image8 w h (map (map flat_luma) px).
Proof.
  intros Hl F.
  unfold Backend.step2, Backend.flatten_on_white, PIL.new_RGBA, PIL.paste, PIL.alpha_band.
  cbn [image_size PIL.rgba_rows rows].
  rewrite (paste_rows_uniform (255, 255, 255, 255) w h px Hl F).
  unfold PIL.convert_RGB. cbn [image_size PIL.rgba_rows].
  unfold PIL.convert_L. cbn [image_size PIL.rgba_rows].
  rewrite !map_map_rows. f_equal. apply map_ext. intros r. apply map_ext.
  intros [[[r0 g0] b0] a0]. reflexivity.
Qed.

Lemma steps12_RGBA (w h : nat) (px : list (list rgba)) :
  image_ok (ImageRGBA w h px) = true ->
  Backend.step2 (Backend.step1 (ImageRGBA w h px)) = Image8 w h (map (map flat_luma) px).
Proof.
  intros H. cbn [image_ok] in H. apply raster_ok_rows in H. destruct H as [Hl F].
  unfold Backend.step1. cbn [image_mode]. apply flatten_on_white_rows; [exact Hl |].
  eapply List.Forall_impl; [| exact F]. intros r [Hr _]. exact Hr.
Qed.

Lemma steps12_P (im : image8) (palette : list rgba) :
  image_ok (ImageP im palette) = true ->
  Backend.step2 (Backend.step1 (ImageP im palette))
  = Image8 (xsize im) (ysize im)
      (map (map (fun i => flat_luma (PIL.lookup_palette palette i))) (rows im)).
Proof.
  intros H. cbn [image_ok] in H. rewrite !andb_true_iff in H. destruct H as [[H _] _].
  apply raster_ok_rows in H. destruct H as [Hl F].
  unfold Backend.step1. cbn [image_mode]. unfold PIL.convert_RGBA.
  cbn [image_size PIL.rgba_rows]. rewrite flatten_on_white_rows.
  - rewrite map_map_rows. reflexivity.
  - rewrite length_map. exact Hl.
  - apply List.Forall_forall. intros r Hr. apply in_map_iff in Hr.
    destruct Hr as (r0 & <- & Hr0). rewrite length_map.
    rewrite List.Forall_forall in F. apply (F r0 Hr0).
Qed.

Lemma steps12_RGB (w h : nat) (px : list (list rgb)) :
  Backend.step2 (Backend.step1 (ImageRGB w h px)) = Image8 w h (map (map luma) px).
Proof.
  unfold Backend.step1, Backend.step2. cbn [image_mode].
  unfold PIL.convert_L. cbn [image_size PIL.rgba_rows].
  rewrite map_map_rows. f_equal. apply map_ext. intros r. apply map_ext.
  intros [[r0 g0] b0]. reflexivity.
Qed.

Lemma steps12_L (im : image8) : Backend.step2 (Backend.step1 (ImageL im)) = im.
Proof.
  unfold Backend.step1, Backend.step2. cbn [image_mode].
  unfold PIL.convert_RGB. cbn [image_size PIL.rgba_rows].
  unfold PIL.convert_L. cbn [image_size PIL.rgba_rows].
  rewrite !map_map_rows. destruct im as [w h px]. cbn [xsize ysize rows]. f_equal.
  apply map_rows_id. intros p _. apply rgb2l_gray.
Qed.

(** Steps 1 and 2 keep the size and give a well-formed image. *)
Lemma steps12_ok (img : Image) :
  image_ok img = true ->
  image8_ok (Backend.step2 (Backend.step1 img)) = true
  /\ (xsize (Backend.step2 (Backend.step1 img)),
      ysize (Backend.step2 (Backend.step1 img))) = image_size img.
Proof.
  intros H. destruct img as [im | im palette | w h px | w h px].
  - rewrite steps12_L. split; [exact H | reflexivity].
  - rewrite (steps12_P im palette H). split; [| reflexivity].
    cbn [image_ok] in H. rewrite !andb_true_iff in H. destruct H as [[H Hlen] Hpal].
    unfold image8_ok. cbn [xsize ysize rows].
    apply (raster_ok_map byte_ok byte_ok _ _ _ _ H). intros i _.
    apply byte_ok_range, flat_luma_range. unfold PIL.lookup_palette.
    rewrite forallb_forall in Hpal.
    destruct (Nat.lt_ge_cases (Z.to_nat i) (length palette)) as [Hlt | Hge].
    + apply Hpal. apply nth_In. exact Hlt.
    + rewrite nth_overflow by exact Hge. reflexivity.
  - rewrite steps12_RGB. split; [| reflexivity].
    cbn [image_ok] in H. unfold image8_ok. cbn [xsize ysize rows].
    apply (raster_ok_map rgb_ok byte_ok _ _ _ _ H). intros c Hc.
    apply byte_ok_range, luma_range. exact Hc.
  - rewrite (steps12_RGBA w h px H). split; [| reflexivity].
    cbn [image_ok] in H. unfold image8_ok. cbn [xsize ysize rows].
    apply (raster_ok_map rgba_ok byte_ok _ _ _ _ H). intros c Hc.
    apply byte_ok_range, flat_luma_range. exact Hc.
Qed.

Lemma raster_ok_shape {A : Type} (ok : A -> bool) (w h : nat) (px : list (list A)) :
  raster_ok ok w h px = true
  <-> raster_shape w h px /\ Forall (Forall (fun p => ok p = true)) px.
Proof.
  rewrite raster_ok_rows. unfold raster_shape. rewrite !List.Forall_forall.
  split.
  - intros [Hl H]. repeat split; [exact Hl | |]; intros r Hr; apply (H r Hr).
  - intros [[Hl H1] H2]. split; [exact Hl |]. intros r Hr.
    split; [apply (H1 r Hr) | apply (H2 r Hr)].
Qed.

Lemma bw_byte_ok (p : Z) : bw p -> byte_ok p = true.
Proof. intros [-> | ->]; reflexivity. Qed.

(** A binary raster of the right shape is a well-formed image. *)
Lemma binary_shape_ok (im : image8) :
  raster_shape (xsize im) (ysize im) (rows im) -> is_binary im = true ->
  image8_ok im = true.
Proof.
  intros Hs Hb. apply raster_ok_shape. split; [exact Hs |].
  apply is_binary_rows in Hb.
  eapply List.Forall_impl; [| exact Hb]. intros r Hr.
  eapply List.Forall_impl; [| exact Hr]. intros p. apply bw_byte_ok.
Qed.

Lemma image8_ok_shape (im : image8) :
  image8_ok im = true -> raster_shape (xsize im) (ysize im) (rows im).
Proof. intros H. apply raster_ok_shape in H. apply H. Qed.

(** [point] with a function that maps bytes to bytes. *)
Lemma point_ok (f : Z -> Z) (im : image8) :
  image8_ok im = true ->
  (forall p, 0 <= p <= 255 -> 0 <= f p <= 255) ->
  image8_ok (PIL.point f im) = true.
Proof.
  intros H Hf. unfold image8_ok.
  rewrite point_rows by (apply image8_ok_pixels; exact H).
  cbn [PIL.point xsize ysize].
  apply (raster_ok_map byte_ok byte_ok _ _ _ _ H). intros p Hp.
  apply byte_ok_range. apply Hf. apply byte_ok_range. exact Hp.
Qed.

Lemma map_nth_seq (h : list Z) : map (fun i => nth i h 0) (seq 0 (length h)) = h.
Proof.
  apply (nth_ext _ _ 0 0).
  - rewrite length_map, length_seq. reflexivity.
  - intros n Hn. rewrite length_map, length_seq in Hn.
    rewrite (nth_indep _ 0 (nth 0 h 0)) by (rewrite length_map, length_seq; exact Hn).
    rewrite (map_nth (fun i => nth i h 0)), seq_nth by exact Hn. reflexivity.
Qed.

(** The pixel count of [ImageStat] is the number of pixels. *)
Lemma stat_count_pixels (im : image8) :
  image8_ok im = true ->
  PIL.stat_count im = Z.of_nat (xsize im) * Z.of_nat (ysize im).
Proof.
  intros H. destruct (histogram_ok_image im H) as (Hl & _ & Hw).
  unfold PIL.stat_count. rewrite <- Hw. unfold weight_below.
  rewrite <- Hl, map_nth_seq. reflexivity.
Qed.

Lemma stat_mean_returns (im : image8) : exists m, PIL.stat_mean im = Ok m.
Proof.
  unfold PIL.stat_mean. destruct (PIL.stat_count im =? 0); eexists; reflexivity.
Qed.

(** Steps 3 to 6 keep the size and the well-formedness; steps 3 and 5
    return on every image, with or without pixels. *)
Lemma step3_ok (im : image8) :
  image8_ok im = true ->
  exists out, Backend.step3 im = Ok out
    /\ image8_ok out = true /\ xsize out = xsize im /\ ysize out = ysize im.
Proof.
  intros H. unfold Backend.step3.
  destruct (stat_mean_returns im) as (m & ->). cbn [rbind].
  destruct (negb _).
  - exists (PIL.invert im). split; [reflexivity |].
    split; [| split; reflexivity]. apply point_ok; [exact H | intros p Hp; lia].
  - exists im. split; [reflexivity |]. split; [exact H | split; reflexivity].
Qed.

Lemma step4_ok (im : image8) :
  image8_ok im = true ->
  image8_ok (Backend.step4 im) = true
  /\ xsize (Backend.step4 im) = xsize im /\ ysize (Backend.step4 im) = ysize im.
Proof.
  intros H. split; [| split; reflexivity]. apply point_ok; [exact H |].
  intros p Hp. destruct (p >? 160); lia.
Qed.

Lemma clip8_range (v : Z) : 0 <= clip8 v <= 255.
Proof. unfold clip8. lia. Qed.

Lemma step5_rows (im : image8) (m : Z) :
  image8_ok im = true -> PIL.contrast_mean im = Ok m ->
  Backend.step5 im
  = Ok (Image8 (xsize im) (ysize im) (map (map (contrast_formula m)) (rows im))).
Proof.
  intros H Hm. unfold Backend.step5, PIL.contrast_enhance. rewrite Hm. cbn [rbind].
  unfold PIL.blend. cbn [Qeq_bool PIL.new8 xsize ysize rows].
  destruct (image8_ok_shape im H) as [Hl F].
  change (Qeq_bool (3 # 2) 0) with false. change (Qeq_bool (3 # 2) 1) with false.
  cbv iota. rewrite (blend_degenerate_rows m (xsize im) (ysize im) (rows im) Hl F).
  reflexivity.
Qed.

Lemma step5_ok (im : image8) :
  image8_ok im = true ->
  exists out, Backend.step5 im = Ok out
    /\ image8_ok out = true /\ xsize out = xsize im /\ ysize out = ysize im.
Proof.
  intros H. destruct (stat_mean_returns im) as (mean & Hmean).
  assert (Hm : PIL.contrast_mean im = Ok (B64.trunc (B64.add mean (1 # 2))))
    by (unfold PIL.contrast_mean; rewrite Hmean; reflexivity).
  rewrite (step5_rows im _ H Hm). eexists. split; [reflexivity |].
  split; [| split; reflexivity]. unfold image8_ok. cbn [xsize ysize rows].
  apply (raster_ok_map byte_ok byte_ok _ _ _ _ H). intros p _.
  apply byte_ok_range. apply clip8_range.
Qed.

Lemma step6_ok (im : image8) :
  image8_ok im = true ->
  image8_ok (Backend.step6 im) = true
  /\ xsize (Backend.step6 im) = xsize im /\ ysize (Backend.step6 im) = ysize im.
Proof.
  intros H. split; [| split; reflexivity]. apply point_ok; [exact H |].
  intros p Hp. destruct (p >? _); lia.
Qed.

(** The shapes through the median filter, the crop and the border. *)
Lemma windows3_length {A : Type} (l : list A) :
  length (PIL.windows3 l) = (length l - 2)%nat.
Proof.
  induction l as [| a l IH]; [reflexivity |].
  destruct l as [| b [| c l']]; [reflexivity | reflexivity |].
  change (PIL.windows3 (a :: b :: c :: l'))
    with ((a, b, c) :: PIL.windows3 (b :: c :: l')).
  cbn [length] in *. rewrite IH. lia.
Qed.

Lemma expand_edge_row_length (margin : nat) (r : list Z) :
  length (PIL.expand_edge_row margin r) = (margin + length r + margin)%nat.
Proof.
  unfold PIL.expand_edge_row. rewrite !length_app, !repeat_length. lia.
Qed.

Lemma last_In {A : Type} (l : list A) (d : A) : l <> [] -> In (List.last l d) l.
Proof.
  intros H. destruct (exists_last H) as (l' & z & E).
  rewrite E, last_last. apply in_or_app. right. left. reflexivity.
Qed.

Lemma expand_edge_shape (w h : nat) (px : list (list Z)) :
  raster_shape w h px -> (0 < h)%nat ->
  raster_shape (w + 2) (h + 2) (PIL.expand_edge 1 px).
Proof.
  intros [Hl F] Hh. unfold PIL.expand_edge.
  set (px' := map (PIL.expand_edge_row 1) px).
  assert (F' : Forall (fun r => length r = (w + 2)%nat) px').
  { unfold px'. apply List.Forall_forall. intros r Hr. apply in_map_iff in Hr.
    destruct Hr as (r0 & <- & Hr0). rewrite expand_edge_row_length.
    rewrite List.Forall_forall in F. rewrite (F r0 Hr0). lia. }
  assert (Hne : px' <> []).
  { unfold px'. destruct px; [cbn in Hl; lia | discriminate]. }
  split.
  - rewrite !length_app, !repeat_length. unfold px'. rewrite length_map. lia.
  - rewrite List.Forall_forall in F'.
    rewrite !List.Forall_app. repeat split.
    + apply repeat_all. apply F'. destruct px'; [contradiction | left; reflexivity].
    + apply List.Forall_forall. exact F'.
    + apply repeat_all. apply F'. apply last_In. exact Hne.
Qed.

Lemma rankfilter3_shape (rank w h : nat) (px : list (list Z)) :
  raster_shape (w + 2) (h + 2) px ->
  raster_shape w h (PIL.rankfilter3 rank px).
Proof.
  intros [Hl F]. unfold PIL.rankfilter3. split.
  - rewrite length_map, windows3_length, Hl. lia.
  - apply List.Forall_forall. intros r Hr. apply in_map_iff in Hr.
    destruct Hr as ([[r0 r1] r2] & <- & Hw). apply windows3_In in Hw.
    rewrite List.Forall_forall in F. destruct Hw as (H0 & H1 & H2).
    apply F in H0, H1, H2. unfold PIL.rank_rows.
    rewrite length_map, !length_combine, !windows3_length, H0, H1, H2. lia.
Qed.

Lemma median_filter3_shape (im : image8) :
  raster_shape (xsize im) (ysize im) (rows im) ->
  raster_shape (xsize im) (ysize im) (rows (PIL.median_filter3 im)).
Proof.
  intros Hs. unfold PIL.median_filter3. cbn [rows].
  destruct (Nat.eq_dec (ysize im) 0%nat) as [E0 | N0].
  - destruct Hs as [Hl _]. rewrite E0 in *.
    destruct (rows im); [| discriminate]. split; [reflexivity | constructor].
  - apply rankfilter3_shape. apply expand_edge_shape; [exact Hs | lia].
Qed.

Lemma crop_shape (im : image8) (x0 y0 x1 y1 : nat) :
  raster_shape (xsize im) (ysize im) (rows im) ->
  (x1 <= xsize im)%nat -> (y1 <= ysize im)%nat ->
  raster_shape (x1 - x0) (y1 - y0) (rows (PIL.crop im (x0, y0, x1, y1))).
Proof.
  intros [Hl F] Hx Hy. unfold PIL.crop. cbn [rows]. split.
  - rewrite length_map, length_firstn, length_skipn. lia.
  - apply List.Forall_forall. intros r Hr. apply in_map_iff in Hr.
    destruct Hr as (r0 & <- & Hr0). apply In_firstn, In_skipn in Hr0.
    rewrite List.Forall_forall in F.
    rewrite length_firstn, length_skipn, (F r0 Hr0). lia.
Qed.

Lemma expand_shape (im : image8) (border : nat) (fill : Z) :
  raster_shape (xsize im) (ysize im) (rows im) ->
  raster_shape (xsize im + 2 * border) (ysize im + 2 * border)
    (rows (PIL.expand im border fill)).
Proof.
  intros [Hl F]. unfold PIL.expand. cbn [rows]. split.
  - rewrite !length_app, !repeat_length, length_map. lia.
  - rewrite !List.Forall_app. repeat split.
    + apply repeat_all. apply repeat_length.
    + apply List.Forall_forall. intros r Hr. apply in_map_iff in Hr.
      destruct Hr as (r0 & <- & Hr0). rewrite List.Forall_forall in F.
      rewrite !length_app, !repeat_length, (F r0 Hr0). lia.
    + apply repeat_all. apply repeat_length.
Qed.

Lemma step7_ok (im : image8) :
  image8_ok im = true -> is_binary im = true ->
  image8_ok (Backend.step7 im) = true
  /\ xsize (Backend.step7 im) = xsize im /\ ysize (Backend.step7 im) = ysize im.
Proof.
  intros H Hb. split; [| split; reflexivity].
  apply binary_shape_ok; [| apply step7_binary; exact Hb].
  apply (median_filter3_shape im). apply image8_ok_shape. exact H.
Qed.

Lemma step8_ok (im : image8) :
  image8_ok im = true -> is_binary im = true ->
  image8_ok (Backend.step8 im) = true.
Proof.
  intros H Hb. apply binary_shape_ok; [| apply step8_binary; exact Hb].
  apply image8_ok_shape in H. unfold Backend.step8. cbv zeta.
  destruct ((_ <? xsize im) && (_ <? ysize im))%nat eqn:Ec.
  - set (c := PIL.crop im _).
    change (xsize (PIL.expand c 15 255)) with (xsize c + 2 * 15)%nat.
    change (ysize (PIL.expand c 15 255)) with (ysize c + 2 * 15)%nat.
    apply expand_shape. unfold c. cbn [PIL.crop xsize ysize].
    apply crop_shape; [exact H | lia | lia].
  - change (xsize (PIL.expand im 15 255)) with (xsize im + 2 * 15)%nat.
    change (ysize (PIL.expand im 15 255)) with (ysize im + 2 * 15)%nat.
    apply expand_shape. exact H.
Qed.

(** Resampling gives a well-formed image of the requested size. *)
Lemma resample_pixel_range (c : Z * list Z) (line : list Z) :
  0 <= PIL.resample_pixel c line <= 255.
Proof.
  destruct c as [xmin k]. unfold PIL.resample_pixel, PIL.clip8_fixed. apply clip8_range.
Qed.

Lemma coeffs_8bpc_length (inSize outSize : nat) :
  length (PIL.coeffs_8bpc inSize outSize) = outSize.
Proof. unfold PIL.coeffs_8bpc. rewrite length_map, length_seq. reflexivity. Qed.

Lemma ImagingResample_ok (im : image8) (w h : nat) :
  image8_ok im = true -> image8_ok (PIL.ImagingResample im w h) = true.
Proof.
  intros H. unfold PIL.ImagingResample. cbv zeta.
  set (temp := if (w =? xsize im)%nat then rows im else _).
  assert (Ht : raster_ok byte_ok w (ysize im) temp = true).
  { unfold temp. destruct (Nat.eqb_spec w (xsize im)) as [-> | N]; [exact H |].
    apply raster_ok_rows in H. destruct H as [Hl _].
    apply raster_ok_rows. split; [rewrite length_map; exact Hl |].
    apply List.Forall_forall. intros r Hr. apply in_map_iff in Hr.
    destruct Hr as (r0 & <- & _). unfold PIL.resample_line. split.
    - rewrite length_map. apply coeffs_8bpc_length.
    - apply List.Forall_forall. intros p Hp. apply in_map_iff in Hp.
      destruct Hp as (c & <- & _). apply byte_ok_range, resample_pixel_range. }
  unfold image8_ok. cbn [xsize ysize rows].
  destruct (Nat.eqb_spec h (ysize im)) as [-> | N]; [exact Ht |].
  apply raster_ok_rows. unfold PIL.resample_vertical. split.
  - rewrite length_map. apply coeffs_8bpc_length.
  - apply List.Forall_forall. intros r Hr. apply in_map_iff in Hr.
    destruct Hr as (c & <- & _). split.
    + rewrite length_map, length_seq. reflexivity.
    + apply List.Forall_forall. intros p Hp. apply in_map_iff in Hp.
      destruct Hp as (xx & <- & _). apply byte_ok_range, resample_pixel_range.
Qed.

Lemma resize_ok (im out : image8) (size : Z * Z) :
  image8_ok im = true -> PIL.resize im size = Ok out -> image8_ok out = true.
Proof.
  intros H. unfold PIL.resize. destruct size as [w h].
  destruct (_ && _); [intros E; injection E as <-; exact H |].
  destruct (_ || _); [discriminate |].
  intros E; injection E as <-. apply ImagingResample_ok. exact H.
Qed.

Lemma step9_ok (im out : image8) :
  image8_ok im = true -> Backend.step9 im = Ok out -> image8_ok out = true.
Proof.
  intros H. unfold Backend.step9. cbv zeta.
  destruct (Z.min _ _ <? 400).
  - destruct (B64.truediv 400 _) as [s1 | e1]; cbn [rbind]; [| discriminate].
    destruct (PIL.resize im _) as [im1 | e1] eqn:E1; cbn [rbind]; [| discriminate].
    pose proof (resize_ok im im1 _ H E1) as H1.
    destruct (_ >? 1500); [| intros E; injection E as <-; exact H1].
    destruct (B64.truediv 1500 _) as [s2 | e2]; cbn [rbind]; [| discriminate].
    apply resize_ok. exact H1.
  - cbn [rbind]. destruct (_ >? 1500); [| intros E; injection E as <-; exact H].
    destruct (B64.truediv 1500 _) as [s2 | e2]; cbn [rbind]; [| discriminate].
    apply resize_ok. exact H.
Qed.

(** ** The pipeline as a whole *)

(** Steps 1 to 8 return on every well-formed image, with or without
    pixels; the result is well-formed and binary, and its size is the
    size of the input, less 6 in each direction when both exceed 16,
    plus 30. *)
Lemma steps1_8_returns (img : Image) (w h : nat) :
  image_ok img = true -> image_size img = (w, h) ->
  exists g,
    Backend.steps1_8 img = Ok g
    /\ image8_ok g = true /\ is_binary g = true
    /\ xsize g = (if ((16 <? w) && (16 <? h))%nat then w - 6 + 30 else w + 30)%nat
    /\ ysize g = (if ((16 <? w) && (16 <? h))%nat then h - 6 + 30 else h + 30)%nat.
Proof.
  intros Hok Hsize. unfold Backend.steps1_8. cbv zeta.
  destruct (steps12_ok img Hok) as [H2 S2]. rewrite Hsize in S2.
  injection S2 as Sx Sy.
  set (g2 := Backend.step2 (Backend.step1 img)) in *.
  destruct (step3_ok g2 H2) as (g3 & E3 & H3 & X3 & Y3).
  rewrite E3. cbn [rbind].
  destruct (step4_ok g3 H3) as (H4 & X4 & Y4).
  destruct (step5_ok (Backend.step4 g3) H4) as (g5 & E5 & H5 & X5 & Y5).
  rewrite E5. cbn [rbind].
  destruct (step6_ok g5 H5) as (H6 & X6 & Y6).
  pose proof (step6_binary g5) as B6.
  destruct (step7_ok (Backend.step6 g5) H6 B6) as (H7 & X7 & Y7).
  pose proof (step7_binary _ B6) as B7.
  set (g7 := Backend.step7 (Backend.step6 g5)) in *.
  exists (Backend.step8 g7). split; [reflexivity |].
  split; [apply step8_ok; assumption |]. split; [apply step8_binary; assumption |].
  destruct (step8_size g7) as [Ex Ey].
  assert (Exw : xsize g7 = w) by congruence.
  assert (Eyh : ysize g7 = h) by congruence.
  rewrite Exw, Eyh in Ex, Ey. split; assumption.
Qed.

Lemma step9_post (g out : image8) :
  image8_ok g = true ->
  Z.of_nat (xsize g) <= 2 ^ 31 -> Z.of_nat (ysize g) <= 2 ^ 31 ->
  Backend.step9 g = Ok out ->
  image8_ok out = true
  /\ (0 < xsize out)%nat /\ (0 < ysize out)%nat
  /\ Z.max (Z.of_nat (xsize out)) (Z.of_nat (ysize out)) <= 1500.
Proof.
  intros H Hx Hy E. split; [exact (step9_ok g out H E) |].
  pose proof (step9_size_agrees g) as Hs. rewrite E in Hs.
  destruct (step9_size _ _) as [[w' h'] | e] eqn:E9; cbn [size_agrees] in Hs;
    [| contradiction].
  destruct Hs as [Ew Eh].
  destruct (step9_size_bound (Z.of_nat (xsize g)) (Z.of_nat (ysize g)) w' h')
    as (P1 & P2 & P3); [lia | lia | exact E9 |].
  lia.
Qed.

(** The preprocessing returns on every well-formed image with no side
    above 20000, with or without pixels. *)
Lemma preprocess_returns_bounded (img : Image) :
  image_ok img = true ->
  Z.of_nat (fst (image_size img)) <= 20000 ->
  Z.of_nat (snd (image_size img)) <= 20000 ->
  exists out,
    Backend.preprocess_image img = Ok (ImageL out)
    /\ image8_ok out = true
    /\ (0 < xsize out)%nat /\ (0 < ysize out)%nat
    /\ Z.max (Z.of_nat (xsize out)) (Z.of_nat (ysize out)) <= 1500.
Proof.
  intros Hok Hw Hh. destruct (image_size img) as [w h] eqn:Hsize. cbn [fst snd] in *.
  destruct (steps1_8_returns img w h Hok Hsize) as (g & Eg & Hg & _ & Xg & Yg).
  assert (Bx : 30 <= Z.of_nat (xsize g) <= 20030).
  { rewrite Xg. destruct (_ && _)%bool eqn:Ec; [| lia].
    apply andb_true_iff in Ec. destruct Ec as [Ec _]. apply Nat.ltb_lt in Ec. lia. }
  assert (By : 30 <= Z.of_nat (ysize g) <= 20030).
  { rewrite Yg. destruct (_ && _)%bool eqn:Ec; [| lia].
    apply andb_true_iff in Ec. destruct Ec as [_ Ec]. apply Nat.ltb_lt in Ec. lia. }
  destruct (step9_size_returns (Z.of_nat (xsize g)) (Z.of_nat (ysize g)))
    as (w' & h' & E9); [lia | lia | lia |].
  destruct (step9_returns g w' h' E9) as (out & Eout & _).
  unfold Backend.preprocess_image. rewrite Eg. cbn [rbind]. rewrite Eout. cbn [rbind].
  exists out. split; [reflexivity |].
  destruct (step9_post g out Hg) as (Ho & Px & Py & Hm); [lia | lia | exact Eout |].
  repeat split; assumption.
Qed.

(** X13. The preprocessing of the full server returns on every
    well-formed image whose sides are between 1 and 20000 pixels: it
    raises nothing, and the result is a well-formed image of mode [L]
    with no side above 1500. *)
Theorem preprocess_returns (img : Image) :
  image_ok img = true ->
  0 < Z.of_nat (fst (image_size img)) <= 20000 ->
  0 < Z.of_nat (snd (image_size img)) <= 20000 ->
  exists out,
    Backend.preprocess_image img = Ok (ImageL out)
    /\ image8_ok out = true
    /\ Z.max (Z.of_nat (xsize out)) (Z.of_nat (ysize out)) <= 1500.
Proof.
  intros Hok Hw Hh.
  destruct (preprocess_returns_bounded img Hok) as (out & E & Ho & _ & _ & Hm);
    [lia | lia |].
  exists out. repeat split; assumption.
Qed.

(** A witness for [preprocess_returns]. *)
Lemma preprocess_returns_witness :
  exists out,
    Backend.preprocess_image two_columns = Ok (ImageL out)
    /\ image8_ok out = true
    /\ Z.max (Z.of_nat (xsize out)) (Z.of_nat (ysize out)) <= 1500.
Proof.
  apply (preprocess_returns two_columns); [reflexivity | cbn; lia | cbn; lia].
Defined.

(** X14. Whatever the preprocessing of the full server returns for a
    well-formed image is a well-formed image of mode [L] that has
    pixels and no side above 1500. *)
Theorem preprocess_output_well_formed (img out : Image) :
  image_ok img = true ->
  Z.of_nat (fst (image_size img)) <= 2 ^ 30 ->
  Z.of_nat (snd (image_size img)) <= 2 ^ 30 ->
  Backend.preprocess_image img = Ok out ->
  image_ok out = true
  /\ image_mode out = L
  /\ (0 < fst (image_size out))%nat /\ (0 < snd (image_size out))%nat
  /\ Z.max (Z.of_nat (fst (image_size out))) (Z.of_nat (snd (image_size out))) <= 1500.
Proof.
  intros Hok Hw Hh E.
  destruct (image_size img) as [w h] eqn:Hsize. cbn [fst snd] in *.
  destruct (steps1_8_returns img w h Hok Hsize) as (g & Eg & Hg & _ & Xg & Yg).
  assert (Bx : Z.of_nat (xsize g) <= 2 ^ 31)
    by (rewrite Xg; destruct (_ && _)%bool; lia).
  assert (By : Z.of_nat (ysize g) <= 2 ^ 31)
    by (rewrite Yg; destruct (_ && _)%bool; lia).
  unfold Backend.preprocess_image in E. rewrite Eg in E. cbn [rbind] in E.
  destruct (Backend.step9 g) as [o | e] eqn:E9; cbn [rbind] in E; [| discriminate].
  injection E as <-.
  destruct (step9_post g o Hg Bx By E9) as (Ho & Px & Py & Hm).
  cbn [image_ok image_mode image_size fst snd]. repeat split; assumption.
Qed.

(** A witness for [preprocess_output_well_formed]. *)
Lemma preprocess_output_well_formed_witness :
  image_ok (ImageL (PIL.ImagingResample two_columns_padded 400 400)) = true
  /\ image_mode (ImageL (PIL.ImagingResample two_columns_padded 400 400)) = L.
Proof.
  destruct (preprocess_output_well_formed two_columns
              (ImageL (PIL.ImagingResample two_columns_padded 400 400)))
    as (H1 & H2 & _).
  - reflexivity.
  - cbn. lia.
  - cbn. lia.
  - exact two_columns_preprocess.
  - split; assumption.
Defined.

(** Steps 1 to 8 on an image of size 0 x 0: the border of step 8 is all
    there is. *)
Lemma empty_steps1_8 (img : Image) :
  image_ok img = true -> image_size img = (0%nat, 0%nat) ->
  Backend.steps1_8 img = Ok (white 30 30).
Proof.
  intros Hok Hs.
  destruct img as [[w h px] | [w h px] pal | w h px | w h px];
    cbn [image_size xsize ysize] in Hs; injection Hs as -> ->;
    (destruct px as [| r px]; [vm_compute; reflexivity | discriminate Hok]).
Qed.

Lemma step9_size_30 : step9_size 30 30 = Ok (400, 400).
Proof. vm_compute. reflexivity. Qed.

(** X15. An image without pixels does not make the preprocessing of
    the full server fail.  The mean of step 3 is 0; the border of step 8
    gives the image pixels, and the result is a well-formed image of
    mode [L] with pixels and no side above 1500.  For an image of size
    0 x 0, steps 1 to 8 give the white 30 x 30 border and the result is
    400 x 400. *)
Theorem empty_image_is_preprocessed (img : Image) :
  image_ok img = true ->
  fst (image_size img) = 0%nat \/ snd (image_size img) = 0%nat ->
  Z.of_nat (fst (image_size img)) <= 20000 ->
  Z.of_nat (snd (image_size img)) <= 20000 ->
  PIL.stat_mean (Backend.step2 (Backend.step1 img)) = Ok 0%Q
  /\ (exists out,
        Backend.preprocess_image img = Ok (ImageL out)
        /\ image8_ok out = true
        /\ (0 < xsize out)%nat /\ (0 < ysize out)%nat
        /\ Z.max (Z.of_nat (xsize out)) (Z.of_nat (ysize out)) <= 1500)
  /\ (image_size img = (0%nat, 0%nat) ->
      Backend.steps1_8 img = Ok (white 30 30)
      /\ exists out,
           Backend.preprocess_image img = Ok (ImageL out)
           /\ xsize out = 400%nat /\ ysize out = 400%nat).
Proof.
  intros Hok Hz Hw Hh.
  split; [| split; [exact (preprocess_returns_bounded img Hok Hw Hh) |]].
  - destruct (steps12_ok img Hok) as [H2 S2].
    unfold PIL.stat_mean. rewrite (stat_count_pixels _ H2).
    destruct (image_size img) as [w h]. injection S2 as -> ->. cbn [fst snd] in Hz.
    destruct (Z.eqb_spec (Z.of_nat w * Z.of_nat h) 0) as [_ | N]; [reflexivity |].
    exfalso. apply N. destruct Hz as [-> | ->]; lia.
  - intros Hs. pose proof (empty_steps1_8 img Hok Hs) as E8.
    split; [exact E8 |].
    destruct (step9_returns (white 30 30) 400 400 step9_size_30) as (out & Eo & Ex & Ey).
    exists out. unfold Backend.preprocess_image. rewrite E8. cbn [rbind].
    rewrite Eo. cbn [rbind]. split; [reflexivity | lia].
Qed.

(** A witness for [empty_image_is_preprocessed]. *)
Lemma empty_image_witness :
  exists out,
    Backend.preprocess_image empty_image = Ok (ImageL out)
    /\ xsize out = 400%nat /\ ysize out = 400%nat.
Proof.
  destruct (empty_image_is_preprocessed empty_image) as (_ & _ & H);
    [reflexivity | left; reflexivity | cbn; lia | cbn; lia |].
  exact (proj2 (H eq_refl)).
Defined.

(** X16. Step 9 on an image whose smaller side is below 400 and whose
    larger side is at most 3.75 times the smaller: it returns, the
    smaller side of the result is 399 or 400, and no side is above
    1500. *)
Theorem step9_upscales_to_399_or_400 (im : image8) :
  let w := Z.of_nat (xsize im) in
  let h := Z.of_nat (ysize im) in
  0 < Z.min w h < 400 -> 4 * Z.max w h <= 15 * Z.min w h ->
  exists out,
    Backend.step9 im = Ok out
    /\ 399 <= Z.min (Z.of_nat (xsize out)) (Z.of_nat (ysize out)) <= 400
    /\ Z.max (Z.of_nat (xsize out)) (Z.of_nat (ysize out)) <= 1500.
Proof.
  intros w h Hm Hr.
  destruct (step9_size_upscale w h Hm Hr) as (w' & h' & E & Hmin & Hmax).
  destruct (step9_returns im w' h' E) as (out & Eo & <- & <-).
  exists out. split; [exact Eo | split; assumption].
Qed.

(** A witness for [step9_upscales_to_399_or_400]: a side of 97 becomes
    399. *)
Lemma step9_upscales_witness :
  exists out,
    Backend.step9 (white 97 97) = Ok out
    /\ 399 <= Z.min (Z.of_nat (xsize out)) (Z.of_nat (ysize out)) <= 400
    /\ Z.max (Z.of_nat (xsize out)) (Z.of_nat (ysize out)) <= 1500.
Proof.
  apply (step9_upscales_to_399_or_400 (white 97 97)); cbn; lia.
Defined.

(** X17. Step 9 returns on every image whose larger side is at most 700
    times the smaller, and what it returns has no side above 1500. *)
Theorem step9_returns_at_most_1500 (im : image8) :
  let w := Z.of_nat (xsize im) in
  let h := Z.of_nat (ysize im) in
  0 < Z.min w h -> Z.max w h <= 2 ^ 31 -> Z.max w h <= 700 * Z.min w h ->
  exists out,
    Backend.step9 im = Ok out
    /\ (0 < xsize out)%nat /\ (0 < ysize out)%nat
    /\ Z.max (Z.of_nat (xsize out)) (Z.of_nat (ysize out)) <= 1500.
Proof.
  intros w h Hm HM Hr.
  destruct (step9_size_returns w h Hm HM Hr) as (w' & h' & E).
  destruct (step9_returns im w' h' E) as (out & Eo & Ew & Eh).
  destruct (step9_size_bound w h w' h') as (P1 & P2 & P3); [lia | lia | exact E |].
  exists out. split; [exact Eo |]. lia.
Qed.

(** A witness for [step9_returns_at_most_1500]. *)
Lemma step9_returns_witness :
  exists out,
    Backend.step9 (white 3000 400) = Ok out
    /\ (0 < xsize out)%nat /\ (0 < ysize out)%nat
    /\ Z.max (Z.of_nat (xsize out)) (Z.of_nat (ysize out)) <= 1500.
Proof.
  apply (step9_returns_at_most_1500 (white 3000 400)); cbn; lia.
Defined.

(** A side that is scaled below one pixel. *)
Lemma scaled_dim_zero (T m w : Z) :
  0 < T -> 0 < m -> 0 <= w <= 2 ^ 52 -> 16 * (w * T) <= 15 * m ->
  B64.trunc (B64.int_mul w (B64.rnd (inject_Z T / inject_Z m))) = 0.
Proof.
  intros HT Hm Hw H.
  pose proof (scaled_dim_nonneg T m w HT Hm Hw) as Hn.
  assert (Hu : B64.trunc (B64.int_mul w (B64.rnd (inject_Z T / inject_Z m))) < 1);
    [| lia].
  unfold B64.int_mul, B64.mul, B64.of_int in *.
  rewrite rnd_int in * by assumption.
  assert (HTq : (0 < inject_Z T)%Q) by (rewrite <- (Zlt_Qlt 0); assumption).
  assert (Hmq : (0 < inject_Z m)%Q) by (rewrite <- (Zlt_Qlt 0); assumption).
  assert (Hwq : (0 <= inject_Z w)%Q) by (rewrite <- (Zle_Qle 0); lia).
  assert (Hr : (0 < inject_Z T / inject_Z m)%Q).
  { apply Qlt_shift_div_l; [assumption |]. rewrite Qmult_0_l. assumption. }
  destruct (rnd_rel _ Hr) as [_ U].
  pose proof (rnd_pos _ Hr) as Hs.
  assert (Hwr : (16 * (inject_Z w * (inject_Z T / inject_Z m)) <= 15)%Q).
  { assert (E : (16 * (inject_Z w * (inject_Z T / inject_Z m))
                 == inject_Z (16 * (w * T)) / inject_Z m)%Q)
      by (rewrite !inject_Z_mult; change (inject_Z 16) with (16 # 1)%Q; field; lra).
    rewrite E. apply (Qdiv_le_int _ _ 15); assumption. }
  set (r := (inject_Z T / inject_Z m)%Q) in *. set (s := B64.rnd r) in *.
  change (2 ^ (-52))%Q with (1 # 4503599627370496)%Q in U.
  set (W := inject_Z w) in *.
  assert (Hq0 : (0 <= W * s)%Q) by nra.
  assert (Hq : (W * s <= inject_Z 31 * 2 ^ (-5))%Q).
  { change (inject_Z 31 * 2 ^ (-5))%Q with ((31 # 1) * (1 # 32))%Q.
    assert (H1 : (W * s <= W * (r * (1 + (1 # 4503599627370496))))%Q) by nra.
    assert (H2 : (W * (r * (1 + (1 # 4503599627370496)))
                  == W * r + W * r * (1 # 4503599627370496))%Q) by ring.
    assert (H3 : (0 <= W * r)%Q) by nra.
    lra. }
  apply rnd_le_dyadic in Hq; [| lia | assumption].
  change (inject_Z 31 * 2 ^ (-5))%Q with ((31 # 1) * (1 # 32))%Q in Hq.
  assert (Hr0 : (0 <= B64.rnd (W * s))%Q).
  { destruct (Qlt_le_dec 0 (W * s)) as [Hp | Hz].
    - apply Qlt_le_weak. apply rnd_pos. assumption.
    - rewrite rnd_zero by lra. apply Qle_refl. }
  rewrite trunc_floor by assumption.
  rewrite Zlt_Qlt. pose proof (Qfloor_le (B64.rnd (W * s))) as Hfl.
  change (inject_Z 1) with 1%Q. lra.
Qed.

Lemma resize_size_zero (w h dw dh : Z) :
  0 < w -> 0 < h -> dw = 0 \/ dh = 0 ->
  resize_size (w, h) (dw, dh) = Raise ValueError.
Proof.
  intros Hw Hh Hz. unfold resize_size.
  destruct (Z.eqb_spec dw w) as [E1 | N1]; cbn [andb].
  - destruct (Z.eqb_spec dh h) as [E2 | N2]; [lia |].
    destruct (Z.ltb_spec dw 1); [reflexivity |].
    destruct (Z.ltb_spec dh 1); [reflexivity | lia].
  - destruct (Z.ltb_spec dw 1); [reflexivity |].
    destruct (Z.ltb_spec dh 1); [reflexivity | lia].
Qed.

(** The second resize fails when the larger side is at least 1600
    times the smaller. *)
Lemma step9_downscale_fails (w h : Z) :
  0 < w <= 2 ^ 40 -> 0 < h <= 2 ^ 40 ->
  1500 < Z.max w h -> 1600 * Z.min w h <= Z.max w h ->
  (if Z.max w h >? 1500 then
     let! scale := B64.truediv 1500 (Z.max w h) in
     resize_size (w, h)
       (B64.trunc (B64.int_mul w scale), B64.trunc (B64.int_mul h scale))
   else Ok (w, h)) = Raise ValueError.
Proof.
  intros Hw Hh HM Hr. destruct (Z.gtb_spec (Z.max w h) 1500) as [_ | G]; [| lia].
  rewrite truediv_ok by lia. cbn [rbind].
  apply resize_size_zero; [lia | lia |].
  destruct (Z_le_gt_dec w h) as [C | C].
  - left. apply scaled_dim_zero; lia.
  - right. apply scaled_dim_zero; lia.
Qed.

Lemma step9_size_elongated (w h : Z) :
  0 < Z.min w h -> Z.max w h <= 2 ^ 31 -> 1601 * Z.min w h <= Z.max w h ->
  step9_size w h = Raise ValueError.
Proof.
  intros Hm HM Hr. destruct (Z_lt_le_dec (Z.min w h) 400) as [L | L].
  - rewrite step9_size_min_lt_400 by lia. cbv zeta.
    destruct (step9_upscale_dims w h) as (Hmin & Hres & Hmax); [lia | lia |].
    rewrite Hres. cbn [rbind].
    specialize (Hmax (2 ^ 40)).
    set (s := B64.rnd (inject_Z 400 / inject_Z (Z.min w h))) in *.
    set (dw := B64.trunc (B64.int_mul w s)) in *.
    set (dh := B64.trunc (B64.int_mul h s)) in *.
    assert (HB : Z.max dw dh <= 2 ^ 40) by (apply Hmax; nia).
    assert (HL : 640000 <= Z.max dw dh).
    { destruct (Z_le_gt_dec w h) as [C | C].
      - pose proof (scaled_dim_lower 400 (Z.min w h) h 640001) as Lh.
        fold s in Lh. fold dh in Lh.
        assert (640001 - 1 <= dh) by (apply Lh; lia). lia.
      - pose proof (scaled_dim_lower 400 (Z.min w h) w 640001) as Lw.
        fold s in Lw. fold dw in Lw.
        assert (640001 - 1 <= dw) by (apply Lw; lia). lia. }
    apply step9_downscale_fails; lia.
  - unfold step9_size. destruct (Z.ltb_spec (Z.min w h) 400); [lia |].
    cbn [rbind]. apply step9_downscale_fails; lia.
Qed.

(** X18. Step 9 raises [ValueError] on every image whose larger side is
    at least 1601 times the smaller: the second resize asks for a side
    of 0 pixels. *)
Theorem elongated_image_value_error (im : image8) :
  let w := Z.of_nat (xsize im) in
  let h := Z.of_nat (ysize im) in
  0 < Z.min w h -> Z.max w h <= 2 ^ 31 -> 1601 * Z.min w h <= Z.max w h ->
  Backend.step9 im = Raise ValueError.
Proof.
  intros w h Hm HM Hr. pose proof (step9_size_agrees im) as H. fold w h in H.
  rewrite (step9_size_elongated w h Hm HM Hr) in H.
  destruct (Backend.step9 im) as [out | e]; cbn [size_agrees] in H;
    [contradiction | congruence].
Qed.

(** A witness for [elongated_image_value_error]. *)
Lemma elongated_image_witness :
  Backend.step9 (white 1 1601) = Raise ValueError.
Proof.
  apply (elongated_image_value_error (white 1 1601)); cbn; lia.
Defined.

(** ** Images that the preprocessing rejects *)

Lemma white_strip_ok : image_ok white_strip = true.
Proof. vm_compute. reflexivity. Qed.

Lemma white_strip_preprocess : Backend.preprocess_image white_strip = Raise ValueError.
Proof.
  destruct (steps1_8_returns white_strip 1 (Z.to_nat 49601) white_strip_ok eq_refl)
    as (g & Eg & _ & _ & Xg & Yg).
  change ((16 <? 1)%nat && (16 <? Z.to_nat 49601)%nat) with false in Xg, Yg.
  cbv iota in Xg, Yg.
  unfold Backend.preprocess_image. rewrite Eg. cbn [rbind].
  pose proof (step9_size_agrees g) as H.
  rewrite (step9_size_elongated (Z.of_nat (xsize g)) (Z.of_nat (ysize g))) in H
    by (rewrite Xg, Yg; lia).
  destruct (Backend.step9 g) as [out | e]; cbn [size_agrees] in H;
    [contradiction | subst e; reflexivity].
Qed.

(** The handler when the preprocessing raises: nothing is created and
    the engine is not run. *)
Lemma analyze_preprocess_raises (E : env) (req : request) (w : world)
    (image_file : string) (raw : Image) (e : exn) :
  files req !! "image" = Some image_file ->
  Image_open E image_file = Ok raw ->
  Backend.preprocess_image raw = Raise e ->
  Backend.analyze_molecule E req w
  = (if is_Exception e
     then Ok (Response [("error", JStr (exn_str e))] 500)
     else Raise e, w).
Proof.
  intros Hf Ho Hp. unfold Backend.analyze_molecule, try_except. rewrite Hf.
  unfold bind at 1, lift at 1. rewrite Ho.
  unfold bind at 1, lift at 1. rewrite Hp.
  destruct (is_Exception e); reflexivity.
Qed.

(** X7. When the preprocessing of the full server raises on the decoded
    image, the handler answers with status 500 and the text of the
    exception; no file is created and the engine is not run.  (A failure
    to read the pixel data is a failure of [Image_open] here.) *)
Theorem preprocessing_failure_is_server_error (E : env) (req : request) (w : world)
    (image_file : string) (raw : Image) (e : exn) :
  files req !! "image" = Some image_file ->
  Image_open E image_file = Ok raw ->
  Backend.preprocess_image raw = Raise e ->
  Backend.analyze_molecule E req w
  = (Ok (Response [("error", JStr (exn_str e))] 500), w).
Proof.
  intros Hf Ho Hp.
  rewrite (analyze_preprocess_raises E req w image_file raw e Hf Ho Hp).
  rewrite (preprocess_raises_only raw e Hp). reflexivity.
Qed.

(** A witness for [preprocessing_failure_is_server_error]: a white strip
    of 1 x 49601 pixels, which step 9 cannot resize. *)
Lemma preprocessing_failure_witness :
  Backend.analyze_molecule (decodes_to white_strip) upload empty_world
  = (Ok (Response [("error", JStr (exn_str ValueError))] 500), empty_world).
Proof.
  apply (preprocessing_failure_is_server_error (decodes_to white_strip) upload
           empty_world "PNG" white_strip ValueError eq_refl eq_refl
           white_strip_preprocess).
Defined.

(** C7, as stated, fails: a decodable image does not always reach the
    engine.  The upload decodes to a well-formed white strip of
    1 x 49601 pixels and the engine is missing, yet the handler answers
    with status 500: step 9 upscales the strip and then asks for a
    width of 0 pixels, and the [ValueError] is caught by the outer
    handler before the engine is invoked. *)
Lemma engine_failure_http_error_counterexample :
  let E := decodes_to white_strip in
  files upload !! "image" = Some "PNG"
  /\ Image_open E "PNG" = Ok white_strip
  /\ image_ok white_strip = true
  /\ (forall argv files, engine_failed (fst (run_process E argv files)))
  /\ Backend.preprocess_image white_strip = Raise ValueError
  /\ Backend.analyze_molecule E upload empty_world
     = (Ok (Response [("error", JStr (exn_str ValueError))] 500), empty_world)
  /\ Backend.analyze_molecule E upload empty_world
     <> (Ok (Response failure_body 200), empty_world).
Proof.
  cbv zeta. split; [reflexivity |]. split; [reflexivity |].
  split; [exact white_strip_ok |]. split; [intros argv files0; reflexivity |].
  split; [exact white_strip_preprocess |].
  rewrite (analyze_preprocess_raises (decodes_to white_strip) upload empty_world
             "PNG" white_strip ValueError eq_refl eq_refl white_strip_preprocess).
  split; [reflexivity | discriminate].
Qed.

(** ** The two resizes of step 9 in sequence *)

(** The second resize: the larger requested dimension is 1499 or 1500,
    and the smaller is at least 1 when the larger side is at most 750
    times the smaller. *)
Lemma step9_downscale_dims (w h : Z) :
  0 < w <= 2 ^ 40 -> 0 < h <= 2 ^ 40 ->
  1500 < Z.max w h -> 2 * Z.max w h <= 1500 * Z.min w h ->
  let s := B64.rnd (inject_Z 1500 / inject_Z (Z.max w h)) in
  let dw := B64.trunc (B64.int_mul w s) in
  let dh := B64.trunc (B64.int_mul h s) in
  1499 <= Z.max dw dh <= 1500
  /\ 0 < Z.min dw dh
  /\ resize_size (w, h) (dw, dh) = Ok (dw, dh)
  /\ forall B, 0 < B <= 2 ^ 40 -> Z.min w h * 1500 <= B * Z.max w h ->
               Z.min dw dh <= B.
Proof.
  intros Hw Hh HM Hr s dw dh.
  pose proof (scaled_dim_upper 1500 (Z.max w h) w 1500) as Uw.
  pose proof (scaled_dim_upper 1500 (Z.max w h) h 1500) as Uh.
  pose proof (scaled_dim_lower 1500 (Z.max w h) w 2) as Lw.
  pose proof (scaled_dim_lower 1500 (Z.max w h) h 2) as Lh.
  fold s in Uw, Uh, Lw, Lh. fold dw in Uw, Lw. fold dh in Uh, Lh.
  assert (Uw' : dw <= 1500) by (apply Uw; lia).
  assert (Uh' : dh <= 1500) by (apply Uh; lia).
  assert (Lw' : 1 <= dw) by (apply Lw; lia).
  assert (Lh' : 1 <= dh) by (apply Lh; lia).
  assert (LM : 1499 <= Z.max dw dh).
  { destruct (Z_le_gt_dec w h) as [C | C].
    - pose proof (scaled_dim_lower 1500 (Z.max w h) h 1500) as L.
      fold s in L. fold dh in L. assert (1500 - 1 <= dh) by (apply L; lia). lia.
    - pose proof (scaled_dim_lower 1500 (Z.max w h) w 1500) as L.
      fold s in L. fold dw in L. assert (1500 - 1 <= dw) by (apply L; lia). lia. }
  split; [lia |]. split; [lia |]. split.
  - unfold resize_size.
    destruct (Z.eqb_spec dw w) as [-> | Nw]; cbn [andb].
    + destruct (Z.eqb_spec dh h) as [-> | Nh]; [reflexivity |].
      destruct (Z.ltb_spec w 1); [lia |]. destruct (Z.ltb_spec dh 1); [lia |].
      reflexivity.
    + destruct (Z.ltb_spec dw 1); [lia |]. destruct (Z.ltb_spec dh 1); [lia |].
      reflexivity.
  - intros B HB HrB.
    destruct (Z_le_gt_dec w h) as [C | C].
    + pose proof (scaled_dim_upper 1500 (Z.max w h) w B) as U.
      fold s in U. fold dw in U. assert (dw <= B) by (apply U; lia). lia.
    + pose proof (scaled_dim_upper 1500 (Z.max w h) h B) as U.
      fold s in U. fold dh in U. assert (dh <= B) by (apply U; lia). lia.
Qed.

(** The sizes of step 9 when the smaller side is below 400: the first
    resize is to [scaled_size 400 min_dim], and the second, when it
    happens, is measured on that size. *)
Lemma step9_size_sequential (w h : Z) :
  0 < Z.min w h < 400 -> Z.max w h <= 2 ^ 31 ->
  let size1 := scaled_size 400 (Z.min w h) (w, h) in
  let max1 := Z.max (fst size1) (snd size1) in
  399 <= Z.min (fst size1) (snd size1) <= 400
  /\ step9_size w h
     = (if max1 >? 1500 then resize_size size1 (scaled_size 1500 max1 size1)
        else Ok size1).
Proof.
  intros Hm HM size1 max1.
  destruct (step9_upscale_dims w h) as (Hmin & Hres & _); [lia | lia |].
  cbv zeta in Hmin, Hres. split; [exact Hmin |].
  rewrite step9_size_min_lt_400 by assumption. cbv zeta.
  rewrite Hres. cbn [rbind].
  unfold max1, size1, scaled_size. cbn [fst snd].
  set (s := B64.rnd (inject_Z 400 / inject_Z (Z.min w h))) in *.
  set (dw := B64.trunc (B64.int_mul w s)) in *.
  set (dh := B64.trunc (B64.int_mul h s)) in *.
  destruct (Z.gtb_spec (Z.max dw dh) 1500) as [G | G]; [| reflexivity].
  rewrite truediv_ok by lia. reflexivity.
Qed.

(** Upscaled, then downscaled: when the first resize leaves the larger
    side above 1500, the second brings it to 1499 or 1500 and the
    smaller side below 400 again. *)
Lemma step9_size_up_then_down (w h : Z) :
  0 < Z.min w h < 400 -> Z.max w h <= 2 ^ 31 ->
  1505 * Z.min w h <= 400 * Z.max w h -> Z.max w h <= 700 * Z.min w h ->
  exists w' h',
    step9_size w h = Ok (w', h')
    /\ 1499 <= Z.max w' h' <= 1500 /\ 0 < Z.min w' h' <= 399.
Proof.
  intros Hm HM Hlo Hhi.
  destruct (step9_size_sequential w h Hm HM) as (Hmin & ->).
  destruct (step9_upscale_dims w h) as (_ & _ & Hmax); [lia | lia |].
  cbv zeta in Hmax. specialize (Hmax 280000).
  unfold scaled_size in *. cbn [fst snd] in *.
  set (s := B64.rnd (inject_Z 400 / inject_Z (Z.min w h))) in *.
  set (dw := B64.trunc (B64.int_mul w s)) in *.
  set (dh := B64.trunc (B64.int_mul h s)) in *.
  assert (HB : Z.max dw dh <= 280000) by (apply Hmax; lia).
  assert (HL : 1504 <= Z.max dw dh).
  { destruct (Z_le_gt_dec w h) as [C | C].
    - pose proof (scaled_dim_lower 400 (Z.min w h) h 1505) as L.
      fold s in L. fold dh in L. assert (1505 - 1 <= dh) by (apply L; lia). lia.
    - pose proof (scaled_dim_lower 400 (Z.min w h) w 1505) as L.
      fold s in L. fold dw in L. assert (1505 - 1 <= dw) by (apply L; lia). lia. }
  destruct (Z.gtb_spec (Z.max dw dh) 1500) as [G | G]; [| lia].
  destruct (step9_downscale_dims dw dh) as (H1 & H2 & H3 & H4); [lia | lia | lia | lia |].
  cbv zeta in H1, H2, H3, H4. rewrite H3. eexists _, _. split; [reflexivity |]. split; [exact H1 |].
  split; [exact H2 |]. apply H4; [lia |]. nia.
Qed.

(** Downscaled only. *)
Lemma step9_size_downscale (w h : Z) :
  400 <= Z.min w h -> 1500 < Z.max w h <= 2 ^ 31 ->
  2 * Z.max w h <= 1500 * Z.min w h ->
  exists w' h',
    step9_size w h = Ok (w', h')
    /\ (w', h') = scaled_size 1500 (Z.max w h) (w, h)
    /\ 1499 <= Z.max w' h' <= 1500 /\ 0 < Z.min w' h'.
Proof.
  intros Hm HM Hr. unfold step9_size.
  destruct (Z.ltb_spec (Z.min w h) 400); [lia |]. cbn [rbind].
  destruct (Z.gtb_spec (Z.max w h) 1500); [| lia].
  rewrite truediv_ok by lia. cbn [rbind].
  destruct (step9_downscale_dims w h) as (H1 & H2 & H3 & _); [lia | lia | lia | lia |].
  cbv zeta in H1, H2, H3. rewrite H3. eexists _, _. split; [reflexivity |].
  split; [reflexivity |]. split; assumption.
Qed.

(** Upscaled only: the result has the size asked of the first resize. *)
Lemma step9_size_upscale_exact (w h : Z) :
  0 < Z.min w h < 400 -> 4 * Z.max w h <= 15 * Z.min w h ->
  let size1 := scaled_size 400 (Z.min w h) (w, h) in
  step9_size w h = Ok size1
  /\ 399 <= Z.min (fst size1) (snd size1) <= 400
  /\ Z.max (fst size1) (snd size1) <= 1500.
Proof.
  intros Hm Hr size1.
  destruct (step9_size_sequential w h Hm) as (Hmin & E); [lia |].
  destruct (step9_upscale_dims w h) as (_ & _ & Hmax); [lia | lia |].
  cbv zeta in Hmax. specialize (Hmax 1500 ltac:(lia) ltac:(lia)).
  fold size1 in Hmin, E.
  change (Z.max (fst size1) (snd size1) <= 1500) in Hmax.
  rewrite E. destruct (Z.gtb_spec (Z.max (fst size1) (snd size1)) 1500); [lia |].
  split; [reflexivity | split; assumption].
Qed.

(** C2 (amended). Step 9 leaves an image alone when its smaller
    dimension is at least 400 and its larger at most 1500.  When the
    smaller dimension is below 400 the image is first resized to
    [(int(w * scale), int(h * scale))] with [scale = 400 / min_dim], which
    makes the smaller dimension 399 or 400; the second check is made on
    that size, and when its larger dimension exceeds 1500 the resized
    image is resized again with [scale = 1500 / max_dim], its own larger
    dimension.  So an image whose larger dimension is at most 3.75 times
    the smaller is upscaled only; one whose upscaled larger dimension
    passes 1500 leaves with a larger dimension of 1499 or 1500 and a
    smaller dimension below 400 again; and one that enters with the
    smaller dimension at least 400 and the larger above 1500 leaves with
    a larger dimension of 1499 or 1500.  An image that enters with
    [min_dim = 100] and [max_dim <= 375] is scaled by 4, so it leaves
    with [min_dim = 400] exactly; one that enters with [max_dim = 3000]
    and [min_dim >= 400] is halved, so it leaves with [max_dim = 1500]
    exactly. *)
Theorem resolution_normalization (im : image8) :
  let w := Z.of_nat (xsize im) in
  let h := Z.of_nat (ysize im) in
  let min_dim := Z.min w h in
  let max_dim := Z.max w h in
  let size_of out := (Z.of_nat (xsize out), Z.of_nat (ysize out)) in
  let min_of out := Z.min (Z.of_nat (xsize out)) (Z.of_nat (ysize out)) in
  let max_of out := Z.max (Z.of_nat (xsize out)) (Z.of_nat (ysize out)) in
  (400 <= min_dim -> max_dim <= 1500 -> Backend.step9 im = Ok im)
  /\ (0 < min_dim < 400 -> max_dim <= 2 ^ 31 ->
      let size1 := scaled_size 400 min_dim (w, h) in
      let max1 := Z.max (fst size1) (snd size1) in
      399 <= Z.min (fst size1) (snd size1) <= 400
      /\ size_agrees (Backend.step9 im)
           (if max1 >? 1500
            then resize_size size1 (scaled_size 1500 max1 size1)
            else Ok size1))
  /\ (0 < min_dim < 400 -> 4 * max_dim <= 15 * min_dim ->
      exists out, Backend.step9 im = Ok out
        /\ size_of out = scaled_size 400 min_dim (w, h)
        /\ 399 <= min_of out <= 400 /\ max_of out <= 1500)
  /\ (0 < min_dim < 400 -> max_dim <= 2 ^ 31 ->
      1505 * min_dim <= 400 * max_dim -> max_dim <= 700 * min_dim ->
      exists out, Backend.step9 im = Ok out
        /\ 1499 <= max_of out <= 1500 /\ 0 < min_of out <= 399)
  /\ (400 <= min_dim -> 1500 < max_dim <= 2 ^ 31 ->
      2 * max_dim <= 1500 * min_dim ->
      exists out, Backend.step9 im = Ok out
        /\ size_of out = scaled_size 1500 max_dim (w, h)
        /\ 1499 <= max_of out <= 1500 /\ 0 < min_of out)
  /\ (min_dim = 100 -> max_dim <= 375 ->
      exists out, Backend.step9 im = Ok out
        /\ size_of out = (4 * w, 4 * h) /\ min_of out = 400)
  /\ (max_dim = 3000 -> 400 <= min_dim ->
      exists out, Backend.step9 im = Ok out
        /\ size_of out = (w / 2, h / 2) /\ max_of out = 1500).
Proof.
  intros w h min_dim max_dim size_of min_of max_of.
  unfold size_of, min_of, max_of, min_dim, max_dim.
  split; [| split; [| split; [| split; [| split; [| split]]]]].
  - intros Hmin Hmax. unfold Backend.step9. fold w h.
    destruct (Z.ltb_spec (Z.min w h) 400); [lia |]. cbn [rbind].
    destruct (Z.gtb_spec (Z.max w h) 1500); [lia | reflexivity].
  - intros Hm HM. cbv zeta.
    destruct (step9_size_sequential w h Hm HM) as (Hmin & E).
    cbv zeta in Hmin, E. split; [exact Hmin |]. rewrite <- E.
    apply step9_size_agrees.
  - intros Hm Hr.
    destruct (step9_size_upscale_exact w h Hm Hr) as (E & Hmin & Hmax).
    destruct (scaled_size 400 (Z.min w h) (w, h)) as [w1 h1] eqn:Es.
    cbn [fst snd] in Hmin, Hmax.
    destruct (step9_returns im _ _ E) as (out & Eo & Ex & Ey).
    exists out. rewrite Ex, Ey. repeat split; assumption || lia.
  - intros Hm HM Hlo Hhi.
    destruct (step9_size_up_then_down w h Hm HM Hlo Hhi) as (w' & h' & E & H1 & H2).
    destruct (step9_returns im _ _ E) as (out & Eo & Ex & Ey).
    exists out. rewrite Ex, Ey. repeat split; assumption || lia.
  - intros Hm HM Hr.
    destruct (step9_size_downscale w h Hm HM Hr) as (w' & h' & E & Es & H1 & H2).
    destruct (step9_returns im _ _ E) as (out & Eo & Ex & Ey).
    exists out. rewrite Ex, Ey. repeat split; assumption || lia.
  - intros Hmin Hmax.
    pose proof step9_size_upscale_100 as H. rewrite forallb_forall in H.
    specialize (H (w, h) ltac:(apply sizes_with_in; lia)). cbn [fst snd] in H.
    destruct (step9_size w h) as [[w' h'] | e] eqn:E; [| discriminate].
    apply andb_true_iff in H. destruct H as [Hw Hh]. apply Z.eqb_eq in Hw, Hh. subst w' h'.
    destruct (step9_returns im _ _ E) as (out & Eo & Ex & Ey).
    exists out. rewrite Ex, Ey. repeat split; try assumption. lia.
  - intros Hmax Hmin.
    pose proof step9_size_downscale_3000 as H. rewrite forallb_forall in H.
    specialize (H (w, h) ltac:(apply sizes_with_in; lia)). cbn [fst snd] in H.
    destruct (step9_size w h) as [[w' h'] | e] eqn:E; [| discriminate].
    apply andb_true_iff in H. destruct H as [Hw Hh]. apply Z.eqb_eq in Hw, Hh. subst w' h'.
    destruct (step9_returns im _ _ E) as (out & Eo & Ex & Ey).
    exists out. rewrite Ex, Ey. repeat split; try assumption.
    assert (w = 3000 /\ 400 <= h <= 3000 \/ h = 3000 /\ 400 <= w <= 3000) as [[-> Hh] | [-> Hw]] by lia.
    + change (3000 / 2) with 1500. apply Z.max_l.
      apply Z.div_le_upper_bound; lia.
    + change (3000 / 2) with 1500. apply Z.max_r.
      apply Z.div_le_upper_bound; lia.
Qed.

(** A witness for [resolution_normalization]: a 100 x 200 image leaves
    as 400 x 800, a 3000 x 400 image as 1500 x 200, and a 100 x 1000
    image, upscaled and then downscaled, with a larger side of 1499 or
    1500 and a smaller side below 400. *)
Lemma resolution_normalization_witness :
  (exists out, Backend.step9 (PIL.new8 100 200 255) = Ok out
     /\ Z.min (Z.of_nat (xsize out)) (Z.of_nat (ysize out)) = 400)
  /\ (exists out, Backend.step9 (PIL.new8 3000 400 255) = Ok out
     /\ Z.max (Z.of_nat (xsize out)) (Z.of_nat (ysize out)) = 1500)
  /\ (exists out, Backend.step9 (PIL.new8 100 1000 255) = Ok out
     /\ 1499 <= Z.max (Z.of_nat (xsize out)) (Z.of_nat (ysize out)) <= 1500
     /\ 0 < Z.min (Z.of_nat (xsize out)) (Z.of_nat (ysize out)) <= 399).
Proof.
  split; [| split].
  - pose proof (resolution_normalization (PIL.new8 100 200 255)) as H.
    cbv zeta in H. destruct H as (_ & _ & _ & _ & _ & H & _).
    destruct H as (out & E & _ & H); [reflexivity | cbn [PIL.new8 xsize ysize]; lia |].
    exists out. split; assumption.
  - pose proof (resolution_normalization (PIL.new8 3000 400 255)) as H.
    cbv zeta in H. destruct H as (_ & _ & _ & _ & _ & _ & H).
    destruct H as (out & E & _ & H); [reflexivity | cbn [PIL.new8 xsize ysize]; lia |].
    exists out. split; assumption.
  - pose proof (resolution_normalization (PIL.new8 100 1000 255)) as H.
    cbv zeta in H. destruct H as (_ & _ & _ & H & _).
    destruct H as (out & E & H); [cbn [PIL.new8 xsize ysize]; lia ..|].
    exists out. split; assumption.
Defined.

(** ** The mean of [ImageStat], exactly *)

Lemma combine_map_same {A B C : Type} (f : A -> B) (g : A -> C) (l : list A) :
  combine (map f l) (map g l) = map (fun x => (f x, g x)) l.
Proof.
  induction l as [| a l IH]; [reflexivity |]. cbn [map combine]. rewrite IH. reflexivity.
Qed.

Lemma sum_below_combine (h : list Z) (n : nat) :
  length h = n ->
  sumZ (map (fun jh => fst jh * snd jh) (combine (range n) h)) = sum_below h n.
Proof.
  intros <-. unfold range, sum_below.
  assert (E : combine (map Z.of_nat (seq 0 (length h))) h
              = map (fun i => (Z.of_nat i, nth i h 0)) (seq 0 (length h))).
  { transitivity (combine (map Z.of_nat (seq 0 (length h)))
                    (map (fun i => nth i h 0) (seq 0 (length h)))).
    - rewrite map_nth_seq. reflexivity.
    - apply combine_map_same. }
  rewrite E, map_map. reflexivity.
Qed.

(** The float accumulation of integers is exact while the sums stay
    within 53 bits. *)
Lemma stat_sum_fold (l : list (Z * Z)) (a : Z) :
  Forall (fun jh => 0 <= fst jh * snd jh) l ->
  0 <= a ->
  a + sumZ (map (fun jh => fst jh * snd jh) l) <= 2 ^ 52 ->
  fold_left (fun acc '(j, hj) => B64.add acc (B64.of_int (j * hj))) l (inject_Z a)
  = inject_Z (a + sumZ (map (fun jh => fst jh * snd jh) l)).
Proof.
  intros F. revert a. induction F as [| [j hj] l Hj F IH]; intros a Ha Hb.
  - cbn. rewrite Z.add_0_r. reflexivity.
  - cbn [fold_left map sumZ fold_right fst snd] in *.
    assert (Hrest : 0 <= sumZ (map (fun jh => fst jh * snd jh) l)).
    { clear - F. induction F as [| x l Hx F IH]; cbn; [lia |].
      unfold sumZ in IH. lia. }
    unfold sumZ in Hrest, Hb.
    unfold B64.add, B64.of_int. rewrite rnd_int by lia.
    rewrite (rnd_comp _ (inject_Z (a + j * hj))) by (rewrite inject_Z_plus; reflexivity).
    rewrite rnd_int by lia. rewrite IH by (unfold sumZ; lia).
    f_equal. unfold sumZ. lia.
Qed.

Lemma sumZ_bytes (l : list Z) :
  Forall (fun p => 0 <= p <= 255) l -> 0 <= sumZ l <= 255 * Z.of_nat (length l).
Proof.
  induction 1 as [| p l Hp F IH]; cbn [sumZ fold_right length]; [lia |].
  unfold sumZ in IH. lia.
Qed.

Lemma pixel_sum_range (im : image8) :
  image8_ok im = true -> 0 <= pixel_sum im <= 255 * pixel_count im.
Proof.
  intros H. destruct (image8_ok_pixels im H) as [F E].
  unfold pixel_sum, pixel_count, pixels. rewrite <- E. apply sumZ_bytes. exact F.
Qed.

Lemma stat_sum_exact (im : image8) :
  image8_ok im = true -> pixel_count im <= 2 ^ 44 ->
  PIL.stat_sum im = inject_Z (pixel_sum im).
Proof.
  intros H HN. pose proof (pixel_sum_range im H) as HS.
  destruct (image8_ok_pixels im H) as [F E].
  assert (Hsum : sumZ (map (fun jh => fst jh * snd jh)
                        (combine (range 256) (PIL.histogram im)))
                 = pixel_sum im).
  { rewrite (sum_below_combine _ 256 (histogram_length im)).
    rewrite sum_below_histogram.
    - rewrite filter_all; [reflexivity |].
      eapply List.Forall_impl; [| exact F]. intros p Hp. cbv beta in *.
      apply Z.ltb_lt. lia.
    - lia.
    - eapply List.Forall_impl; [| exact F]. intros p Hp. cbv beta in *. lia. }
  unfold PIL.stat_sum. change 0%Q with (inject_Z 0).
  rewrite stat_sum_fold.
  - rewrite Hsum. reflexivity.
  - apply List.Forall_forall. intros [j hj] Hin. cbn [fst snd].
    apply in_combine_l in Hin as Hj. apply in_combine_r in Hin as Hh.
    unfold range in Hj. apply in_map_iff in Hj. destruct Hj as (i & <- & _).
    pose proof (histogram_nonneg im) as Hnn. rewrite List.Forall_forall in Hnn.
    specialize (Hnn hj Hh). cbv beta in Hnn. nia.
  - lia.
  - rewrite Hsum. lia.
Qed.

Lemma stat_mean_exact (im : image8) :
  image8_ok im = true -> 0 < pixel_count im <= 2 ^ 44 ->
  PIL.stat_mean im
  = Ok (B64.rnd (inject_Z (pixel_sum im) / inject_Z (pixel_count im))).
Proof.
  intros H HN. unfold PIL.stat_mean. rewrite (stat_count_pixels im H).
  fold (pixel_count im).
  destruct (Z.eqb_spec (pixel_count im) 0) as [E | _]; [lia |].
  unfold B64.div, B64.of_int. rewrite rnd_int by lia.
  rewrite stat_sum_exact by (assumption || lia). reflexivity.
Qed.

(** A quotient of integers against a dyadic bound. *)
Lemma Qdiv_le_dyadic (a b k j : Z) :
  0 < b -> 0 <= j -> a * 2 ^ j <= k * b ->
  (inject_Z a / inject_Z b <= inject_Z k * 2 ^ (- j))%Q.
Proof.
  intros Hb Hj H.
  assert (Hbq : (0 < inject_Z b)%Q) by (rewrite <- (Zlt_Qlt 0); assumption).
  pose proof (pow2_pos j) as Pj. pose proof (pow2_pos (- j)) as Pn.
  pose proof (pow2_cancel j) as Ec.
  assert (H1 : (inject_Z (a * 2 ^ j) / inject_Z b <= inject_Z k)%Q)
    by (apply Qdiv_le_int; assumption).
  rewrite inject_Z_mult, pow2_inject in H1 by assumption.
  assert (E : (inject_Z a / inject_Z b
               == inject_Z a * 2 ^ j / inject_Z b * 2 ^ (- j))%Q).
  { assert (E0 : (inject_Z a * 2 ^ j / inject_Z b * 2 ^ (- j)
                  == inject_Z a / inject_Z b * (2 ^ j * 2 ^ (- j)))%Q)
      by (field; lra).
    rewrite E0, Ec. ring. }
  rewrite E. apply Qmult_le_r; assumption.
Qed.

Lemma Qdiv_ge_dyadic (a b k j : Z) :
  0 < b -> 0 <= j -> k * b <= a * 2 ^ j ->
  (inject_Z k * 2 ^ (- j) <= inject_Z a / inject_Z b)%Q.
Proof.
  intros Hb Hj H.
  assert (Hbq : (0 < inject_Z b)%Q) by (rewrite <- (Zlt_Qlt 0); assumption).
  pose proof (pow2_pos j) as Pj. pose proof (pow2_pos (- j)) as Pn.
  pose proof (pow2_cancel j) as Ec.
  assert (H1 : (inject_Z k <= inject_Z (a * 2 ^ j) / inject_Z b)%Q)
    by (apply Qdiv_ge_int; assumption).
  rewrite inject_Z_mult, pow2_inject in H1 by assumption.
  assert (E : (inject_Z a / inject_Z b
               == inject_Z a * 2 ^ j / inject_Z b * 2 ^ (- j))%Q).
  { assert (E0 : (inject_Z a * 2 ^ j / inject_Z b * 2 ^ (- j)
                  == inject_Z a / inject_Z b * (2 ^ j * 2 ^ (- j)))%Q)
      by (field; lra).
    rewrite E0, Ec. ring. }
  rewrite E. apply Qmult_le_r; assumption.
Qed.

(** The test of step 3, in integers: the rounded mean is below 128
    exactly when the pixel sum is below 128 times the pixel count. *)
Lemma mean_below_128 (S N : Z) :
  0 < N <= 2 ^ 44 -> 0 <= S ->
  Qle_bool 128 (B64.rnd (inject_Z S / inject_Z N)) = (128 * N <=? S).
Proof.
  intros HN HS. destruct (Z.leb_spec (128 * N) S) as [G | L].
  - apply Qle_bool_iff. apply (rnd_ge_int _ 128); [lia |].
    apply Qdiv_ge_int; lia.
  - destruct (Qle_bool 128 _) eqn:Eb; [| reflexivity]. exfalso.
    apply Qle_bool_iff in Eb.
    assert (Hq : (inject_Z S / inject_Z N <= inject_Z (128 * 2 ^ 44 - 1) * 2 ^ (- 44))%Q).
    { apply (Qdiv_le_dyadic S N (128 * 2 ^ 44 - 1) 44); [lia | lia |]. nia. }
    apply rnd_le_dyadic in Hq; [| lia | apply Qdiv_nonneg_int; lia].
    assert (Hlt : (inject_Z (128 * 2 ^ 44 - 1) * 2 ^ (- 44) < 128)%Q) by reflexivity.
    lra.
Qed.

(** The pivot of the contrast enhancement, in integers: the mean
    rounded to the nearest integer, halves up. *)
Lemma rounded_mean (S N : Z) :
  0 < N <= 2 ^ 44 -> 0 <= S <= 255 * N ->
  B64.trunc (B64.add (B64.rnd (inject_Z S / inject_Z N)) (1 # 2))
  = (2 * S + N) / (2 * N).
Proof.
  intros HN HS. set (k := (2 * S + N) / (2 * N)).
  assert (Hk : 2 * N * k <= 2 * S + N < 2 * N * (k + 1)).
  { unfold k. pose proof (Z.div_mod (2 * S + N) (2 * N) ltac:(lia)) as Hd.
    pose proof (Z.mod_pos_bound (2 * S + N) (2 * N) ltac:(lia)) as Hm. nia. }
  assert (Hk0 : 0 <= k <= 255) by nia.
  set (q := (inject_Z S / inject_Z N)%Q).
  assert (Hq0 : (0 <= q)%Q) by (apply Qdiv_nonneg_int; lia).
  assert (Hr0 : (0 <= B64.rnd q)%Q).
  { destruct (Qlt_le_dec 0 q) as [Hp | Hz].
    - apply Qlt_le_weak. apply rnd_pos. assumption.
    - rewrite rnd_zero by lra. apply Qle_refl. }
  unfold B64.add.
  assert (Hup : (B64.rnd (B64.rnd q + (1 # 2))
                 <= inject_Z ((k + 1) * 2 ^ 45 - 1) * 2 ^ (- 45))%Q).
  { assert (H1 : (q <= inject_Z ((2 * k + 1) * 2 ^ 44 - 1) * 2 ^ (- 45))%Q).
    { apply (Qdiv_le_dyadic S N ((2 * k + 1) * 2 ^ 44 - 1) 45); [lia | lia |]. nia. }
    apply rnd_le_dyadic in H1; [| lia | assumption].
    apply rnd_le_dyadic; [lia | lra |].
    assert (E : (inject_Z ((k + 1) * 2 ^ 45 - 1) * 2 ^ (- 45)
                 == inject_Z ((2 * k + 1) * 2 ^ 44 - 1) * 2 ^ (- 45) + (1 # 2))%Q).
    { replace ((k + 1) * 2 ^ 45 - 1) with (((2 * k + 1) * 2 ^ 44 - 1) + 2 ^ 44) by lia.
      rewrite inject_Z_plus.
      change (inject_Z (2 ^ 44)) with (17592186044416 # 1)%Q.
      change (2 ^ (- 45))%Q with (1 # 35184372088832)%Q. ring. }
    rewrite E. lra. }
  assert (Hlo : (inject_Z k <= B64.rnd (B64.rnd q + (1 # 2)))%Q).
  { destruct (Z.eq_dec k 0) as [-> | Nk].
    - destruct (Qlt_le_dec 0 (B64.rnd q + (1 # 2))) as [Hp | Hz]; [| lra].
      apply Qlt_le_weak. apply rnd_pos. assumption.
    - assert (H1 : (inject_Z (2 * k - 1) * 2 ^ (- 1) <= q)%Q).
      { apply (Qdiv_ge_dyadic S N (2 * k - 1) 1); [lia | lia |].
        change (2 ^ 1) with 2. nia. }
      apply rnd_ge_dyadic in H1; [| lia].
      apply rnd_ge_int; [lia |].
      assert (E : (inject_Z k == inject_Z (2 * k - 1) * 2 ^ (- 1) + (1 # 2))%Q).
      { unfold Z.sub. rewrite inject_Z_plus, inject_Z_mult.
        change (inject_Z 2) with 2%Q. change (inject_Z (- (1))) with (- (1))%Q.
        change (2 ^ (- 1))%Q with (1 # 2)%Q. ring. }
      rewrite E. lra. }
  assert (Hlt : (inject_Z ((k + 1) * 2 ^ 45 - 1) * 2 ^ (- 45) < inject_Z (k + 1))%Q).
  { unfold Z.sub. rewrite inject_Z_plus, inject_Z_mult.
    change (inject_Z (2 ^ 45)) with (35184372088832 # 1)%Q.
    change (inject_Z (- (1))) with (- (1))%Q.
    change (2 ^ (- 45))%Q with (1 # 35184372088832)%Q. lra. }
  assert (Hn : (0 <= B64.rnd (B64.rnd q + (1 # 2)))%Q).
  { apply Qle_trans with (inject_Z k); [rewrite <- (Zle_Qle 0); lia | exact Hlo]. }
  rewrite trunc_floor by exact Hn.
  apply Z.le_antisymm.
  - assert (Hf : Qfloor (B64.rnd (B64.rnd q + (1 # 2))) < k + 1); [| lia].
    rewrite Zlt_Qlt. pose proof (Qfloor_le (B64.rnd (B64.rnd q + (1 # 2)))). lra.
  - rewrite <- (Qfloor_Z k). apply Qfloor_resp_le. exact Hlo.
Qed.

(** ** Steps 3 to 6, pixel by pixel *)

Lemma point_eq (f : Z -> Z) (im : image8) :
  image8_ok im = true ->
  PIL.point f im = Image8 (xsize im) (ysize im) (map (map f) (rows im)).
Proof.
  intros H. pose proof (point_rows f im (proj1 (image8_ok_pixels im H))) as E.
  unfold PIL.point in *. cbn [rows] in E. rewrite E. reflexivity.
Qed.

Lemma pixels_map (f : Z -> Z) (w h : nat) (px : list (list Z)) :
  pixels (Image8 w h (map (map f) px)) = map f (concat px).
Proof. unfold pixels. cbn [rows]. symmetry. apply concat_map. Qed.

Lemma sumZ_inverted (l : list Z) :
  sumZ (map inverted l) = 255 * Z.of_nat (length l) - sumZ l.
Proof.
  induction l as [| p l IH]; [reflexivity |].
  cbn [map sumZ fold_right length] in *. unfold sumZ in IH.
  unfold inverted at 1. lia.
Qed.

(** X19. Step 3 on a well-formed image of at most [2^44] pixels: the
    image is inverted exactly when its pixel sum is below 128 times the
    pixel count, inversion replaces every pixel [p] by [255 - p], and
    the mean of the result is above 127. *)
Theorem step3_inverts_dark_images (im : image8) :
  image8_ok im = true ->
  0 < pixel_count im <= 2 ^ 44 ->
  let out :=
    if pixel_sum im <? 128 * pixel_count im
    then Image8 (xsize im) (ysize im) (map (map inverted) (rows im))
    else im in
  Backend.step3 im = Ok out
  /\ 127 * pixel_count out < pixel_sum out.
Proof.
  intros H HN out. pose proof (pixel_sum_range im H) as HS.
  destruct (image8_ok_pixels im H) as [F E].
  split.
  - unfold Backend.step3. rewrite (stat_mean_exact im H HN). cbn [rbind].
    rewrite mean_below_128 by lia. rewrite <- Z.ltb_antisym.
    unfold out. destruct (pixel_sum im <? 128 * pixel_count im); [| reflexivity].
    unfold PIL.invert. rewrite (point_eq _ im H). reflexivity.
  - unfold out. destruct (Z.ltb_spec (pixel_sum im) (128 * pixel_count im)) as [L | G].
    + unfold pixel_sum at 1. rewrite pixels_map, sumZ_inverted.
      unfold pixel_count in *. cbn [xsize ysize]. rewrite E.
      fold (pixels im). fold (pixel_sum im). lia.
    + lia.
Qed.

(** A witness for [step3_inverts_dark_images]: a black pixel becomes
    white. *)
Lemma step3_inverts_witness :
  Backend.step3 one_pixel = Ok (Image8 1 1 [[255]]).
Proof.
  destruct (step3_inverts_dark_images one_pixel) as [H _].
  - reflexivity.
  - unfold pixel_count. cbn. lia.
  - exact H.
Defined.

(** X20. Step 5 on a well-formed image of at most [2^44] pixels: the
    pivot of the contrast enhancement is the mean pixel value rounded to
    the nearest integer, halves up, and every pixel is moved away from
    it by the factor 1.5, rounded down and clamped to a byte. *)
Theorem contrast_pivot_is_rounded_mean (im : image8) :
  image8_ok im = true ->
  0 < pixel_count im <= 2 ^ 44 ->
  let m := (2 * pixel_sum im + pixel_count im) / (2 * pixel_count im) in
  PIL.contrast_mean im = Ok m
  /\ Backend.step5 im
     = Ok (Image8 (xsize im) (ysize im) (map (map (contrast_formula m)) (rows im))).
Proof.
  intros H HN m. pose proof (pixel_sum_range im H) as HS.
  assert (Hm : PIL.contrast_mean im = Ok m).
  { unfold PIL.contrast_mean. rewrite (stat_mean_exact im H HN). cbn [rbind].
    rewrite rounded_mean by lia. reflexivity. }
  split; [exact Hm | apply step5_rows; assumption].
Qed.

(** A witness for [contrast_pivot_is_rounded_mean]: the mean 216.25 of
    three white pixels and one at 100 gives the pivot 216. *)
Lemma contrast_pivot_witness : PIL.contrast_mean one_dark_pixel = Ok 216.
Proof.
  destruct (contrast_pivot_is_rounded_mean one_dark_pixel) as [H _].
  - reflexivity.
  - unfold pixel_count. cbn. lia.
  - exact H.
Defined.

(** C5 (amended). Step 5 returns on every well-formed image and maps each
    pixel [p] to the deviation of [p] from [m] scaled by 1.5, added to
    [m], rounded down and clamped to [0, 255].  The pivot [m] is not the
    fixed mid-gray: it is the mean pixel value of the image, rounded to
    the nearest integer, halves up (the level of Pillow's degenerate
    image), and 0 for an image without pixels.  The formula with 128 is
    what step 5 computes when [m = 128]. *)
Theorem contrast_boost_about_mean (im : image8) :
  image8_ok im = true ->
  exists m out,
    PIL.contrast_mean im = Ok m
    /\ Backend.step5 im = Ok out
    /\ (0 < pixel_count im <= 2 ^ 44 ->
        m = (2 * pixel_sum im + pixel_count im) / (2 * pixel_count im)
        /\ 2 * pixel_count im * m <= 2 * pixel_sum im + pixel_count im
           < 2 * pixel_count im * (m + 1))
    /\ (pixel_count im = 0 -> m = 0)
    /\ xsize out = xsize im /\ ysize out = ysize im
    /\ rows out = map (map (contrast_formula m)) (rows im)
    /\ (m = 128 ->
        rows out
        = map (map (fun p =>
                      clip8 (Qfloor (128 + (3 # 2) * (inject_Z p - 128))))) (rows im)).
Proof.
  intros Hok. destruct (stat_mean_returns im) as (mean & Hmean).
  set (m := B64.trunc (B64.add mean (1 # 2))).
  assert (Hm : PIL.contrast_mean im = Ok m)
    by (unfold PIL.contrast_mean; rewrite Hmean; reflexivity).
  exists m, (Image8 (xsize im) (ysize im) (map (map (contrast_formula m)) (rows im))).
  split; [exact Hm |]. split; [apply step5_rows; assumption |].
  split; [| split; [| split; [reflexivity | split; [reflexivity | split; [reflexivity |]]]]].
  - intros HN. pose proof (pixel_sum_range im Hok) as HS.
    rewrite (stat_mean_exact im Hok HN) in Hmean. injection Hmean as <-.
    assert (E : m = (2 * pixel_sum im + pixel_count im) / (2 * pixel_count im))
      by (unfold m; apply rounded_mean; lia).
    split; [exact E |]. rewrite E. 
    pose proof (Z.div_mod (2 * pixel_sum im + pixel_count im) (2 * pixel_count im)
                  ltac:(lia)) as D.
    pose proof (Z.mod_pos_bound (2 * pixel_sum im + pixel_count im) (2 * pixel_count im)
                  ltac:(lia)) as B.
    lia.
  - intros H0. unfold PIL.stat_mean in Hmean.
    rewrite (stat_count_pixels im Hok) in Hmean. fold (pixel_count im) in Hmean.
    rewrite H0 in Hmean. cbn [Z.eqb] in Hmean. injection Hmean as <-.
    reflexivity.
  - intros E. cbn [rows]. rewrite E. reflexivity.
Qed.

(** A witness for [contrast_boost_about_mean]: the mean 216.25 of three
    white pixels and one at 100 gives the pivot 216, and the pixel 100
    becomes 42. *)
Lemma contrast_boost_witness :
  exists m out,
    PIL.contrast_mean one_dark_pixel = Ok m
    /\ Backend.step5 one_dark_pixel = Ok out
    /\ m = 216
    /\ rows out = [[255; 255; 255; 42]].
Proof.
  destruct (contrast_boost_about_mean one_dark_pixel eq_refl)
    as (m & out & Hm & Hs & Hmean & _ & _ & _ & Hr & _).
  exists m, out. split; [exact Hm |]. split; [exact Hs |].
  assert (E : m = 216) by (apply Hmean; vm_compute; split; [reflexivity | discriminate]).
  split; [exact E |]. rewrite Hr, E. reflexivity.
Defined.

(** X21. Step 4 on a well-formed image: every pixel above 160 becomes
    255 and the others stay, so the result has no pixel between 161 and
    254; a second application changes nothing, and a binary image is
    left as it is. *)
Theorem step4_whitens_light_pixels (im : image8) :
  image8_ok im = true ->
  Backend.step4 im = Image8 (xsize im) (ysize im) (map (map whitened) (rows im))
  /\ Forall (fun p => 0 <= p <= 160 \/ p = 255) (pixels (Backend.step4 im))
  /\ Backend.step4 (Backend.step4 im) = Backend.step4 im
  /\ (is_binary im = true -> Backend.step4 im = im).
Proof.
  intros H. destruct (image8_ok_pixels im H) as [F _].
  assert (E : Backend.step4 im
              = Image8 (xsize im) (ysize im) (map (map whitened) (rows im)))
    by (unfold Backend.step4; apply (point_eq _ im H)).
  split; [exact E |]. split; [| split].
  - rewrite E, pixels_map. apply List.Forall_forall. intros q Hq.
    apply in_map_iff in Hq. destruct Hq as (p & <- & Hp).
    rewrite List.Forall_forall in F. specialize (F p Hp). unfold whitened.
    destruct (Z.gtb_spec p 160); [right; reflexivity | left; lia].
  - destruct (step4_ok im H) as (H4 & _ & _).
    unfold Backend.step4 at 1. rewrite (point_eq _ _ H4). fold whitened.
    rewrite E. cbn [xsize ysize rows]. rewrite map_map_rows. f_equal.
    apply map_ext. intros r. apply map_ext. intros p. unfold whitened.
    destruct (Z.gtb_spec p 160) as [G | L]; [reflexivity |].
    destruct (Z.gtb_spec p 160); [lia | reflexivity].
  - intros Hb. rewrite E. destruct im as [w h px]. cbn [xsize ysize rows] in *. f_equal.
    apply map_rows_id. intros p Hp. apply is_binary_rows in Hb. cbn [rows] in Hb.
    assert (Hbw : bw p).
    { rewrite List.Forall_forall in Hb. apply in_concat in Hp.
      destruct Hp as (r & Hr & Hpr). specialize (Hb r Hr).
      rewrite List.Forall_forall in Hb. apply Hb. exact Hpr. }
    destruct Hbw as [-> | ->]; reflexivity.
Qed.

(** A witness for [step4_whitens_light_pixels]. *)
Lemma step4_whitens_witness :
  Backend.step4 dark_and_light = Image8 2 1 [[50; 255]].
Proof.
  destruct (step4_whitens_light_pixels dark_and_light eq_refl) as [H _]. exact H.
Defined.

(** X22. Step 6 on a well-formed image: every pixel above Otsu's
    threshold becomes 255 and the others 0; when the image has two
    different pixel values, both 0 and 255 occur in the result. *)
Theorem binarization_keeps_both_classes (im : image8) (a b : Z) :
  image8_ok im = true ->
  In a (pixels im) -> In b (pixels im) -> a < b ->
  Backend.step6 im
  = Image8 (xsize im) (ysize im)
      (map (map (binarized (Backend._otsu_threshold im))) (rows im))
  /\ In 0 (pixels (Backend.step6 im))
  /\ In 255 (pixels (Backend.step6 im)).
Proof.
  intros H Ha Hb Hab. destruct (image8_ok_pixels im H) as [F _].
  assert (E : Backend.step6 im
              = Image8 (xsize im) (ysize im)
                  (map (map (binarized (Backend._otsu_threshold im))) (rows im)))
    by (unfold Backend.step6; apply (point_eq _ im H)).
  split; [exact E |].
  assert (Hsplit : splits (PIL.histogram im)
                     (Z.of_nat (xsize im) * Z.of_nat (ysize im))
                     (Backend._otsu_threshold im)).
  { destruct (otsu_threshold_cases im H) as [[Hno _] | [Hs _]]; [| exact Hs].
    exfalso. apply (Hno a). apply splits_image; [exact H |].
    rewrite List.Forall_forall in F. pose proof (F a Ha). pose proof (F b Hb).
    split; [lia |]. split; [exists a | exists b]; split; assumption || lia. }
  apply splits_image in Hsplit; [| exact H].
  destruct Hsplit as (_ & (p & Hp & Lp) & (q & Hq & Lq)).
  rewrite E, pixels_map. split.
  - apply in_map_iff. exists p. split; [| exact Hp]. unfold binarized.
    destruct (Z.gtb_spec p (Backend._otsu_threshold im)); [lia | reflexivity].
  - apply in_map_iff. exists q. split; [| exact Hq]. unfold binarized.
    destruct (Z.gtb_spec q (Backend._otsu_threshold im)); [reflexivity | lia].
Qed.

(** A witness for [binarization_keeps_both_classes]. *)
Lemma binarization_classes_witness :
  In 0 (pixels (Backend.step6 dark_and_light))
  /\ In 255 (pixels (Backend.step6 dark_and_light)).
Proof.
  destruct (binarization_keeps_both_classes dark_and_light 50 200) as (_ & H0 & H1).
  - reflexivity.
  - left. reflexivity.
  - right. left. reflexivity.
  - lia.
  - split; assumption.
Defined.

(** ** Step 8, pixel by pixel *)

Lemma nth_error_padded {A : Type} (fill : A) (border : nat) (l : list A) (i : nat) :
  (i < border + length l + border)%nat ->
  nth_error (repeat fill border ++ l ++ repeat fill border) i
  = if ((border <=? i) && (i <? border + length l))%nat
    then nth_error l (i - border)
    else Some fill.
Proof.
  intros Hi. destruct (Nat.leb_spec border i) as [Hb | Hb]; cbn [andb].
  - rewrite nth_error_app2 by (rewrite repeat_length; exact Hb).
    rewrite repeat_length.
    destruct (Nat.ltb_spec i (border + length l)) as [Hl | Hl].
    + apply nth_error_app1. lia.
    + rewrite nth_error_app2 by lia. apply List.nth_error_repeat. lia.
  - rewrite nth_error_app1 by (rewrite repeat_length; exact Hb).
    apply List.nth_error_repeat. exact Hb.
Qed.

Lemma getpixel_expand (im : image8) (border : nat) (fill : Z) (x y : nat) :
  raster_shape (xsize im) (ysize im) (rows im) ->
  (x < xsize im + 2 * border)%nat -> (y < ysize im + 2 * border)%nat ->
  getpixel (PIL.expand im border fill) x y
  = if ((border <=? x) && (x <? border + xsize im)
        && ((border <=? y) && (y <? border + ysize im)))%nat
    then getpixel im (x - border) (y - border)
    else Some fill.
Proof.
  intros [Hl F] Hx Hy. unfold getpixel, PIL.expand. cbn [rows].
  set (w' := (xsize im + 2 * border)%nat).
  set (inner := map (fun r => repeat fill border ++ r ++ repeat fill border) (rows im)).
  assert (Hli : length inner = ysize im) by (unfold inner; rewrite length_map; exact Hl).
  rewrite (nth_error_padded (repeat fill w') border inner y) by (rewrite Hli; lia).
  rewrite Hli.
  destruct ((border <=? y) && (y <? border + ysize im))%nat eqn:Ey.
  - unfold inner. rewrite nth_error_map.
    destruct (nth_error (rows im) (y - border)) as [r |] eqn:Er.
    + cbn [option_map].
      assert (Hr : length r = xsize im).
      { rewrite List.Forall_forall in F. apply F. eapply nth_error_In. exact Er. }
      rewrite (nth_error_padded fill border r x) by (rewrite Hr; lia).
      rewrite Hr, andb_true_r. reflexivity.
    + exfalso. apply nth_error_None in Er.
      apply andb_true_iff in Ey. destruct Ey as [E1 E2].
      apply Nat.leb_le in E1. apply Nat.ltb_lt in E2. lia.
  - rewrite andb_false_r. rewrite List.nth_error_repeat by exact Hx. reflexivity.
Qed.

Lemma getpixel_crop (im : image8) (x0 y0 x1 y1 x y : nat) :
  (x < x1 - x0)%nat -> (y < y1 - y0)%nat ->
  getpixel (PIL.crop im (x0, y0, x1, y1)) x y = getpixel im (x0 + x) (y0 + y).
Proof.
  intros Hx Hy. unfold getpixel, PIL.crop. cbn [rows].
  rewrite nth_error_map, nth_error_firstn, nth_error_skipn.
  destruct (Nat.ltb_spec y (y1 - y0)); [| lia].
  destruct (nth_error (rows im) (y0 + y)) as [r |]; [| reflexivity].
  cbn [option_map]. rewrite nth_error_firstn, nth_error_skipn.
  destruct (Nat.ltb_spec x (x1 - x0)); [reflexivity | lia].
Qed.

(** X23. Step 8 on a well-formed image, pixel by pixel: the result is
    the image, without its outer 3 pixels when both sides exceed 16,
    inside a white border of 15 pixels. *)
Theorem step8_crops_and_pads (im : image8) (x y : nat) :
  image8_ok im = true ->
  let c := (if (16 <? xsize im) && (16 <? ysize im) then 3 else 0)%nat in
  (x < xsize (Backend.step8 im))%nat -> (y < ysize (Backend.step8 im))%nat ->
  xsize (Backend.step8 im) = (xsize im - 2 * c + 30)%nat
  /\ ysize (Backend.step8 im) = (ysize im - 2 * c + 30)%nat
  /\ getpixel (Backend.step8 im) x y
     = if ((15 <=? x) && (x <? 15 + (xsize im - 2 * c))
           && ((15 <=? y) && (y <? 15 + (ysize im - 2 * c))))%nat
       then getpixel im (x - 15 + c) (y - 15 + c)
       else Some 255.
Proof.
  intros H c. pose proof (image8_ok_shape im H) as Hs.
  unfold Backend.step8. cbv zeta.
  change (2 * 3 + 10)%nat with 16%nat. fold c.
  destruct ((16 <? xsize im) && (16 <? ysize im))%nat eqn:Ec; subst c.
  - apply andb_true_iff in Ec. destruct Ec as [E1 E2].
    apply Nat.ltb_lt in E1, E2.
    set (cr := PIL.crop im (3, 3, xsize im - 3, ysize im - 3)%nat).
    assert (Hcs : raster_shape (xsize cr) (ysize cr) (rows cr)).
    { unfold cr. cbn [PIL.crop xsize ysize]. apply crop_shape; [exact Hs | lia | lia]. }
    assert (Xc : xsize cr = (xsize im - 6)%nat) by (unfold cr; cbn; lia).
    assert (Yc : ysize cr = (ysize im - 6)%nat) by (unfold cr; cbn; lia).
    change (xsize (PIL.expand cr 15 255)) with (xsize cr + 2 * 15)%nat.
    change (ysize (PIL.expand cr 15 255)) with (ysize cr + 2 * 15)%nat.
    intros Hx Hy. split; [lia |]. split; [lia |].
    rewrite (getpixel_expand cr 15 255 x y Hcs Hx Hy). rewrite Xc, Yc.
    change (2 * 3)%nat with 6%nat.
    destruct (_ && _)%nat eqn:Ein; [| reflexivity].
    rewrite !andb_true_iff, !Nat.leb_le, !Nat.ltb_lt in Ein.
    unfold cr. rewrite getpixel_crop by lia. f_equal; lia.
  - change (xsize (PIL.expand im 15 255)) with (xsize im + 2 * 15)%nat.
    change (ysize (PIL.expand im 15 255)) with (ysize im + 2 * 15)%nat.
    intros Hx Hy. split; [lia |]. split; [lia |].
    rewrite (getpixel_expand im 15 255 x y Hs Hx Hy).
    rewrite !Nat.sub_0_r, !Nat.add_0_r. reflexivity.
Qed.

(** A witness for [step8_crops_and_pads]: in a 20 x 20 black image the
    pixel at (15, 15) of the result is the pixel at (3, 3), and the
    pixel at (14, 15) is white. *)
Lemma step8_crops_witness :
  getpixel (Backend.step8 black_square) 15 15 = getpixel black_square 3 3
  /\ getpixel (Backend.step8 black_square) 14 15 = Some 255.
Proof.
  split.
  - destruct (step8_crops_and_pads black_square 15 15) as (_ & _ & H);
      [reflexivity | cbn; lia | cbn; lia | exact H].
  - destruct (step8_crops_and_pads black_square 14 15) as (_ & _ & H);
      [reflexivity | cbn; lia | cbn; lia | exact H].
Defined.

(** ** Steps 1 and 2, pixel by pixel *)

(** X24. Steps 1 and 2 on a well-formed RGBA image: every pixel is
    composited on white with its own alpha and reduced to its luma; a
    fully transparent pixel becomes 255 and a fully opaque one the luma
    of its colour. *)
Theorem transparency_is_flattened_on_white (w h : nat) (px : list (list rgba)) :
  image_ok (ImageRGBA w h px) = true ->
  Backend.step2 (Backend.step1 (ImageRGBA w h px)) = Image8 w h (map (map flat_luma) px)
  /\ (forall r g b, flat_luma (r, g, b, 0) = 255)
  /\ (forall r g b, 0 <= r <= 255 -> 0 <= g <= 255 -> 0 <= b <= 255 ->
                    flat_luma (r, g, b, 255) = PIL.rgb2l r g b).
Proof.
  intros H. split; [apply steps12_RGBA; exact H |]. split.
  - intros r g b. unfold flat_luma.
    rewrite !BLEND8_transparent by lia. reflexivity.
  - intros r g b Hr Hg Hb. unfold flat_luma.
    rewrite !BLEND8_opaque by assumption. reflexivity.
Qed.

(** A witness for [transparency_is_flattened_on_white]: a transparent
    black pixel becomes white. *)
Lemma transparency_witness :
  Backend.step2 (Backend.step1 transparent_pixel) = Image8 1 1 [[255]].
Proof.
  destruct (transparency_is_flattened_on_white 1 1 [[(0, 0, 0, 0)]] eq_refl)
    as (H & H0 & _).
  unfold transparent_pixel. rewrite H. cbn [map]. rewrite H0. reflexivity.
Defined.

(** X25. Steps 1 and 2 leave a mode [L] image as it is, and reduce an
    RGB image to the luma of its pixels; the luma of a gray pixel
    [(v, v, v)] is [v]. *)
Theorem grayscale_enters_unchanged :
  (forall im, Backend.step2 (Backend.step1 (ImageL im)) = im)
  /\ (forall w h px,
        Backend.step2 (Backend.step1 (ImageRGB w h px)) = Image8 w h (map (map luma) px))
  /\ (forall v, luma (v, v, v) = v).
Proof.
  split; [exact steps12_L |]. split; [exact steps12_RGB |].
  intros v. apply rgb2l_gray.
Qed.

(** ** The preprocessing of the minimal server *)

(** X26. The preprocessing of the minimal server on a well-formed
    image: the result is a well-formed RGB image of the same size; an
    RGB image is returned as it is, an RGBA image loses its alpha bytes
    without being composited, and a second application changes
    nothing. *)
Theorem minimal_preprocess_converts_to_rgb (img : Image) :
  image_ok img = true ->
  let out := Minimal.preprocess_image img in
  image_mode out = RGB
  /\ image_size out = image_size img
  /\ image_ok out = true
  /\ Minimal.preprocess_image out = out
  /\ (image_mode img = RGB -> out = img)
  /\ (forall w h px, img = ImageRGBA w h px ->
                     out = ImageRGB w h (map (map drop_alpha) px)).
Proof.
  intros H out.
  assert (Hmode : image_mode out = RGB) by apply minimal_output_mode.
  split; [exact Hmode |]. split; [| split; [| split; [| split]]].
  - unfold out, Minimal.preprocess_image. destruct img; reflexivity.
  - unfold out, Minimal.preprocess_image.
    destruct img as [im | im palette | w h px | w h px]; cbn [image_mode].
    + unfold PIL.convert_RGB. cbn [image_size PIL.rgba_rows image_ok].
      rewrite map_map_rows. cbn [image_ok] in H.
      apply (raster_ok_map byte_ok rgb_ok _ _ _ _ H). intros p Hp.
      unfold rgb_ok. rewrite Hp. reflexivity.
    + unfold PIL.convert_RGB. cbn [image_size PIL.rgba_rows image_ok].
      rewrite map_map_rows. cbn [image_ok] in H. rewrite !andb_true_iff in H.
      destruct H as [[H _] Hpal].
      apply (raster_ok_map byte_ok rgb_ok _ _ _ _ H). intros i _.
      assert (Hc : rgba_ok (PIL.lookup_palette palette i) = true).
      { unfold PIL.lookup_palette. rewrite forallb_forall in Hpal.
        destruct (Nat.lt_ge_cases (Z.to_nat i) (length palette)) as [Hlt | Hge].
        - apply Hpal. apply nth_In. exact Hlt.
        - rewrite nth_overflow by exact Hge. reflexivity. }
      destruct (PIL.lookup_palette palette i) as [[[r g] b] a].
      unfold rgba_ok in Hc. unfold rgb_ok.
      apply andb_true_iff in Hc. apply Hc.
    + exact H.
    + unfold PIL.convert_RGB. cbn [image_size PIL.rgba_rows image_ok].
      cbn [image_ok] in H.
      apply (raster_ok_map rgba_ok rgb_ok _ _ _ _ H). intros [[[r g] b] a] Hc.
      unfold rgba_ok in Hc. unfold rgb_ok. apply andb_true_iff in Hc. apply Hc.
  - unfold Minimal.preprocess_image at 1. rewrite Hmode. reflexivity.
  - intros Hm. unfold out, Minimal.preprocess_image. rewrite Hm. reflexivity.
  - intros w h px ->. unfold out, Minimal.preprocess_image. cbn [image_mode].
    reflexivity.
Qed.

(** A witness for [minimal_preprocess_converts_to_rgb]: the transparent
    black pixel becomes a black RGB pixel. *)
Lemma minimal_preprocess_witness :
  Minimal.preprocess_image transparent_pixel = ImageRGB 1 1 [[(0, 0, 0)]].
Proof.
  destruct (minimal_preprocess_converts_to_rgb transparent_pixel eq_refl)
    as (_ & _ & _ & _ & _ & H).
  apply (H 1%nat 1%nat [[(0, 0, 0, 0)]]). reflexivity.
Defined.

(** ** The median filter, pixel by pixel *)

Lemma last_as_nth {A : Type} (l : list A) (d : A) :
  List.last l d = nth (length l - 1) l d.
Proof.
  induction l as [| a l IH]; [reflexivity |].
  destruct l as [| b l']; [reflexivity |].
  change (List.last (a :: b :: l') d) with (List.last (b :: l') d). rewrite IH.
  cbn [length]. replace (S (S (length l')) - 1)%nat with (S (length l' - 0)) by lia.
  cbn [nth]. replace (S (length l') - 1)%nat with (length l' - 0)%nat by lia.
  reflexivity.
Qed.

(** A list with its first and last elements repeated once. *)
Lemma edge_nth {A : Type} (d : A) (l : list A) (i : nat) :
  l <> [] -> (i < length l + 2)%nat ->
  nth i (repeat (hd d l) 1 ++ l ++ repeat (List.last l d) 1) d
  = nth (Nat.min (i - 1) (length l - 1)) l d.
Proof.
  intros Hne Hi. cbn [repeat app]. destruct i as [| i].
  - cbn [nth]. destruct l; [contradiction | reflexivity].
  - cbn [nth]. replace (S i - 1)%nat with i by lia.
    destruct (Nat.lt_ge_cases i (length l)) as [Hlt | Hge].
    + rewrite app_nth1 by exact Hlt. f_equal. lia.
    + rewrite app_nth2 by exact Hge. replace (i - length l)%nat with 0%nat by lia.
      cbn [nth]. rewrite last_as_nth. f_equal. lia.
Qed.

Lemma windows3_nth_error {A : Type} (d : A) (l : list A) (i : nat) :
  (i + 2 < length l)%nat ->
  nth_error (PIL.windows3 l) i = Some (nth i l d, nth (S i) l d, nth (S (S i)) l d).
Proof.
  revert i. induction l as [| a l IH]; intros i Hi; [cbn in Hi; lia |].
  destruct l as [| b [| c l']]; [cbn in Hi; lia | cbn in Hi; lia |].
  change (PIL.windows3 (a :: b :: c :: l'))
    with ((a, b, c) :: PIL.windows3 (b :: c :: l')).
  destruct i as [| i]; [reflexivity |].
  cbn [nth_error]. rewrite IH by (cbn [length] in *; lia). reflexivity.
Qed.

Lemma combine_nth_error {A B : Type} (l1 : list A) (l2 : list B) (i : nat) (a : A) (b : B) :
  nth_error l1 i = Some a -> nth_error l2 i = Some b ->
  nth_error (combine l1 l2) i = Some (a, b).
Proof.
  revert l2 i. induction l1 as [| x l1 IH]; intros l2 i H1 H2.
  - destruct i; discriminate.
  - destruct l2 as [| y l2]; [destruct i; discriminate |].
    destruct i as [| i]; cbn [nth_error combine] in *.
    + congruence.
    + apply IH; assumption.
Qed.

Lemma rank_rows_nth_error (rank : nat) (r0 r1 r2 : list Z) (x : nat) :
  (x + 2 < length r0)%nat -> (x + 2 < length r1)%nat -> (x + 2 < length r2)%nat ->
  nth_error (PIL.rank_rows rank (r0, r1, r2)) x
  = Some (PIL.rank_window rank
            ((nth x r0 0, nth (S x) r0 0, nth (S (S x)) r0 0),
             (nth x r1 0, nth (S x) r1 0, nth (S (S x)) r1 0),
             (nth x r2 0, nth (S x) r2 0, nth (S (S x)) r2 0))).
Proof.
  intros H0 H1 H2. unfold PIL.rank_rows. rewrite nth_error_map.
  rewrite (combine_nth_error _ _ x _ _
             (combine_nth_error _ _ x _ _
                (windows3_nth_error 0 r0 x H0) (windows3_nth_error 0 r1 x H1))
             (windows3_nth_error 0 r2 x H2)).
  reflexivity.
Qed.

Lemma expand_edge_nth (w h : nat) (px : list (list Z)) (i : nat) :
  raster_shape w h px -> (0 < h)%nat -> (i < h + 2)%nat ->
  nth i (PIL.expand_edge 1 px) []
  = PIL.expand_edge_row 1 (nth (Nat.min (i - 1) (h - 1)) px []).
Proof.
  intros [Hl F] Hh Hi. unfold PIL.expand_edge.
  set (px' := map (PIL.expand_edge_row 1) px).
  assert (Hl' : length px' = h) by (unfold px'; rewrite length_map; exact Hl).
  assert (Hne : px' <> []) by (intros E; rewrite E in Hl'; cbn in Hl'; lia).
  rewrite (edge_nth [] px' i Hne) by lia. rewrite Hl'. unfold px'.
  rewrite (nth_indep _ [] (PIL.expand_edge_row 1 []))
    by (rewrite length_map; lia).
  apply map_nth.
Qed.

Lemma row_in_shape (w h : nat) (px : list (list Z)) (i : nat) :
  raster_shape w h px -> (i < h)%nat -> length (nth i px []) = w.
Proof.
  intros [Hl F] Hi. rewrite List.Forall_forall in F. apply F. apply nth_In. lia.
Qed.

(** The median filter at one pixel: the element of rank 4 among the
    nine pixels around it. *)
Lemma median_filter3_pixel (im : image8) (x y : nat) :
  image8_ok im = true -> (x < xsize im)%nat -> (y < ysize im)%nat ->
  getpixel (PIL.median_filter3 im) x y = Some (nth 4 (sort (neighbourhood im x y)) 0).
Proof.
  intros H Hx Hy. pose proof (image8_ok_shape im H) as Hs.
  set (w := xsize im) in *. set (h := ysize im) in *.
  pose proof (expand_edge_shape w h (rows im) Hs ltac:(lia)) as [HlE FE].
  unfold getpixel, PIL.median_filter3. cbn [rows].
  unfold PIL.rankfilter3. rewrite nth_error_map.
  rewrite (windows3_nth_error [] (PIL.expand_edge 1 (rows im)) y) by lia.
  cbn [option_map].
  rewrite !(expand_edge_nth w h (rows im)) by (assumption || lia).
  set (r0 := nth (Nat.min (y - 1) (h - 1)) (rows im) []).
  set (r1 := nth (Nat.min (S y - 1) (h - 1)) (rows im) []).
  set (r2 := nth (Nat.min (S (S y) - 1) (h - 1)) (rows im) []).
  assert (L0 : length r0 = w) by (apply (row_in_shape w h); [exact Hs | lia]).
  assert (L1 : length r1 = w) by (apply (row_in_shape w h); [exact Hs | lia]).
  assert (L2 : length r2 = w) by (apply (row_in_shape w h); [exact Hs | lia]).
  rewrite rank_rows_nth_error by (rewrite expand_edge_row_length; lia).
  unfold PIL.expand_edge_row.
  assert (N0 : r0 <> []) by (intros E; rewrite E in L0; cbn in L0; lia).
  assert (N1 : r1 <> []) by (intros E; rewrite E in L1; cbn in L1; lia).
  assert (N2 : r2 <> []) by (intros E; rewrite E in L2; cbn in L2; lia).
  rewrite !(edge_nth 0 r0) by (assumption || lia).
  rewrite !(edge_nth 0 r1) by (assumption || lia).
  rewrite !(edge_nth 0 r2) by (assumption || lia).
  rewrite L0, L1, L2. unfold PIL.rank_window, neighbourhood, clamped.
  fold w h. subst r0 r1 r2.
  replace (x + 0 - 1)%nat with (x - 1)%nat by lia.
  replace (x + 1 - 1)%nat with (S x - 1)%nat by lia.
  replace (x + 2 - 1)%nat with (S (S x) - 1)%nat by lia.
  replace (y + 0 - 1)%nat with (y - 1)%nat by lia.
  replace (y + 1 - 1)%nat with (S y - 1)%nat by lia.
  replace (y + 2 - 1)%nat with (S (S y) - 1)%nat by lia.
  reflexivity.
Qed.

(** Insertion sort gives an ascending list with the same elements. *)
Lemma insert_sorted_ascending (a : Z) (l : list Z) :
  ascending l -> ascending (insert_sorted a l).
Proof.
  induction l as [| b l IH]; intros Hl; cbn [insert_sorted].
  - split; constructor.
  - destruct Hl as [Hb Hl]. destruct (Z.leb_spec a b) as [Le | Gt].
    + split; [| split; assumption]. constructor; [exact Le |].
      eapply List.Forall_impl; [| exact Hb]. intros c Hc. cbv beta in *. lia.
    + split; [| apply IH; exact Hl].
      apply List.Forall_forall. intros c Hc. apply (proj1 (insert_sorted_In _ _ _)) in Hc.
      destruct Hc as [-> | Hc]; [lia |].
      rewrite List.Forall_forall in Hb. apply Hb. exact Hc.
Qed.

Lemma sort_ascending (l : list Z) : ascending (sort l).
Proof.
  induction l as [| a l IH]; [exact I |]. cbn [sort].
  apply insert_sorted_ascending. exact IH.
Qed.

Lemma insert_sorted_count (a v : Z) (l : list Z) :
  count_occ Z.eq_dec (insert_sorted a l) v = count_occ Z.eq_dec (a :: l) v.
Proof.
  induction l as [| b l IH]; [reflexivity |]. cbn [insert_sorted].
  destruct (a <=? b); [reflexivity |].
  cbn [count_occ] in *. rewrite IH.
  destruct (Z.eq_dec b v), (Z.eq_dec a v); reflexivity.
Qed.

Lemma sort_count (v : Z) (l : list Z) :
  count_occ Z.eq_dec (sort l) v = count_occ Z.eq_dec l v.
Proof.
  induction l as [| a l IH]; [reflexivity |]. cbn [sort].
  rewrite insert_sorted_count. cbn [count_occ]. rewrite IH. reflexivity.
Qed.

Lemma insert_sorted_length (a : Z) (l : list Z) :
  length (insert_sorted a l) = S (length l).
Proof.
  induction l as [| b l IH]; [reflexivity |]. cbn [insert_sorted].
  destruct (a <=? b); cbn [length]; [reflexivity | rewrite IH; reflexivity].
Qed.

Lemma sort_length (l : list Z) : length (sort l) = length l.
Proof.
  induction l as [| a l IH]; [reflexivity |]. cbn [sort].
  rewrite insert_sorted_length, IH. reflexivity.
Qed.

(** In an ascending list, what comes after position [i] is not below
    the element there, and what comes before is not above it. *)
Lemma ascending_skipn (l : list Z) (i : nat) :
  ascending l -> (i < length l)%nat -> Forall (Z.le (nth i l 0)) (skipn i l).
Proof.
  revert i. induction l as [| a l IH]; intros i Hl Hi; [cbn in Hi; lia |].
  destruct Hl as [Ha Hl]. destruct i as [| i].
  - cbn [skipn nth]. constructor; [lia | exact Ha].
  - cbn [skipn nth]. apply IH; [exact Hl | cbn in Hi; lia].
Qed.

Lemma ascending_firstn (l : list Z) (i : nat) :
  ascending l -> (i < length l)%nat -> Forall (fun p => p <= nth i l 0) (firstn (S i) l).
Proof.
  revert i. induction l as [| a l IH]; intros i Hl Hi; [cbn in Hi; lia |].
  destruct Hl as [Ha Hl]. destruct i as [| i].
  - cbn [firstn nth]. constructor; [lia | constructor].
  - cbn [firstn nth]. constructor; [| apply IH; [exact Hl | cbn in Hi; lia]].
    rewrite List.Forall_forall in Ha. apply Ha. apply nth_In. cbn in Hi. lia.
Qed.

Lemma count_occ_none (v : Z) (l : list Z) :
  Forall (fun p => p <> v) l -> count_occ Z.eq_dec l v = 0%nat.
Proof.
  induction 1 as [| p l Hp F IH]; [reflexivity |].
  cbn [count_occ]. destruct (Z.eq_dec p v); [contradiction | exact IH].
Qed.

(** A value that fills more than half of a list is its median. *)
Lemma majority_is_median (l : list Z) (v : Z) (i : nat) :
  length l = (2 * i + 1)%nat ->
  (i < count_occ Z.eq_dec l v)%nat ->
  nth i (sort l) 0 = v.
Proof.
  intros Hlen Hc. set (s := sort l).
  assert (Hs : ascending s) by apply sort_ascending.
  assert (Ls : length s = (2 * i + 1)%nat) by (unfold s; rewrite sort_length; exact Hlen).
  assert (Cs : (i < count_occ Z.eq_dec s v)%nat) by (unfold s; rewrite sort_count; exact Hc).
  destruct (Z.lt_trichotomy (nth i s 0) v) as [Lt | [Eq | Gt]]; [| exact Eq |]; exfalso.
  - (* the first i + 1 elements are below v *)
    rewrite <- (firstn_skipn (S i) s), count_occ_app in Cs.
    rewrite (count_occ_none v (firstn (S i) s)) in Cs.
    + pose proof (count_occ_bound Z.eq_dec v (skipn (S i) s)) as Hb.
      rewrite length_skipn in Hb. lia.
    + eapply List.Forall_impl; [| apply (ascending_firstn s i Hs); lia].
      intros p Hp. cbv beta in *. lia.
  - (* the elements from position i on are above v *)
    rewrite <- (firstn_skipn i s), count_occ_app in Cs.
    rewrite (count_occ_none v (skipn i s)) in Cs.
    + pose proof (count_occ_bound Z.eq_dec v (firstn i s)) as Hb.
      rewrite length_firstn in Hb. lia.
    + eapply List.Forall_impl; [| apply (ascending_skipn s i Hs); lia].
      intros p Hp. cbv beta in *. lia.
Qed.

(** X27. Step 7 on a well-formed image, pixel by pixel: the result at
    [(x, y)] is the median of the nine pixels around it, the edge pixels
    repeated beyond the border; a value that at least five of the nine
    have is the result, so an isolated pixel disappears. *)
Theorem median_filter_takes_majority (im : image8) (x y : nat) (v : Z) :
  image8_ok im = true -> (x < xsize im)%nat -> (y < ysize im)%nat ->
  getpixel (Backend.step7 im) x y = Some (nth 4 (sort (neighbourhood im x y)) 0)
  /\ ((5 <= count_occ Z.eq_dec (neighbourhood im x y) v)%nat ->
      getpixel (Backend.step7 im) x y = Some v).
Proof.
  intros H Hx Hy. unfold Backend.step7.
  rewrite (median_filter3_pixel im x y H Hx Hy). split; [reflexivity |].
  intros Hc. f_equal. apply (majority_is_median _ v 4); [reflexivity | lia].
Qed.

(** A witness for [median_filter_takes_majority]: the black pixel in
    the middle of a white 3 x 3 image disappears. *)
Lemma median_filter_witness : getpixel (Backend.step7 speck) 1 1 = Some 255.
Proof.
  destruct (median_filter_takes_majority speck 1 1 255) as [_ H].
  - reflexivity.
  - cbn. lia.
  - cbn. lia.
  - apply H. vm_compute. lia.
Defined.

(** X28. Otsu's threshold of a well-formed image lies between 0 and
    254: the loop stops before it would put every pixel in the
    background, so 255 is never returned. *)
Theorem otsu_threshold_at_most_254 (im : image8) :
  image8_ok im = true ->
  0 <= Backend._otsu_threshold im <= 254.
Proof.
  intros H. apply otsu_threshold_range. exact H.
Qed.

(** A witness for [otsu_threshold_at_most_254]. *)
Lemma otsu_threshold_range_witness :
  0 <= Backend._otsu_threshold dark_and_light <= 254.
Proof.
  apply (otsu_threshold_at_most_254 dark_and_light). reflexivity.
Defined.
